(** * BM25 index of the Slack message corpus: a model of
    [python/bm25_index.py] and [python/reranker.py]

    The development follows the Python modules function by function:
    [preprocess_text], [build_index], [search] and [add_documents], then
    [Reranker._prepare] and [Reranker.rerank], together with the library
    calls they rest on, [rank_bm25.BM25Okapi] and [numpy.argsort].

    Conventions.
    - A Python [str] is a [string]; its characters are the code points below
      256, which is the range of [ascii].  The character classes [\s] and [\w]
      and [str.lower] are those of Python 3 on that range.  A text with a
      character outside this range is outside the model, and so is what the
      tokenizer does to it: [str.lower] maps U+0130 to two characters, of
      which the second is no word character.
    - A Python [float] is idealised as a real number: no rounding, no NaN and
      no infinity.  [math.log] is [ln].  Where numpy divides zero by zero
      (in [term_weight], for [k1 = 0], or for [b = 1] and a document without
      tokens) the code has NaN; statements that depend on such a score assume
      [0 < k1] and [0 <= b < 1].
    - [np.argsort] is called with its default sort, which is not stable: the
      function is a parameter [argsort] of [search], of which no more than
      [sorts_ascending] is assumed.
    - The value under a key of a message is absent, [null], a boolean, an
      integer or a string; floats, arrays and objects are outside the model.
    - A Python exception is a value of [exn]; a function that can raise
      returns a [result].
    - The file system is a finite view [path -> option file]; [pickle] and
      [json] store and give back the value written.  Directories, and the
      failures of [os.makedirs] and [open] that depend on what is on the
      disk, are outside the model: a statement that a call returns is made
      only where the index file is already there, or under the model's
      reading that the directory can be made and the file opened. *)

From Stdlib Require Import List String Ascii Bool Arith ZArith Lia.
From Stdlib Require Import DecimalString.
From Stdlib Require Import Reals Lra Sorting.Sorted Permutation.
Import ListNotations.

Set Implicit Arguments.

Local Open Scope string_scope.
Local Open Scope list_scope.

(** ** Characters and strings *)

Definition code (c : ascii) : nat := nat_of_ascii c.

Definition in_range (lo hi : nat) (c : ascii) : bool :=
  (lo <=? code c)%nat && (code c <=? hi)%nat.

(** [str.isspace], which is also the class [\s] of [re] on [str] patterns
    and the separator set of [str.split()]. *)
Definition is_space (c : ascii) : bool :=
  in_range 9 13 c || in_range 28 32 c
  || (code c =? 133)%nat || (code c =? 160)%nat.

(** [str.isalnum] below 256: digits, letters, and the Latin-1 letters and
    numerals. *)
Definition is_alnum (c : ascii) : bool :=
  in_range 48 57 c || in_range 65 90 c || in_range 97 122 c
  || (code c =? 170)%nat || in_range 178 179 c || (code c =? 181)%nat
  || in_range 185 186 c || in_range 188 190 c
  || in_range 192 214 c || in_range 216 246 c || in_range 248 255 c.

(** The class [\w]: alphanumeric or underscore. *)
Definition is_word (c : ascii) : bool :=
  is_alnum c || (code c =? 95)%nat.

Definition is_upper (c : ascii) : bool :=
  in_range 65 90 c || in_range 192 214 c || in_range 216 222 c.

(** [str.lower] on one character. *)
Definition lower_char (c : ascii) : ascii :=
  if is_upper c then ascii_of_nat (code c + 32) else c.

Definition chars (s : string) : list ascii := list_ascii_of_string s.
Definition str (l : list ascii) : string := string_of_list_ascii l.

(** ** [preprocess_text] *)

(** Does a match of [http\S+] start here: the four letters and one more
    character that is not white space. *)
Definition starts_url (s : list ascii) : bool :=
  match s with
  | "h"%char :: "t"%char :: "t"%char :: "p"%char :: c :: _ => negb (is_space c)
  | _ => false
  end.

(** [re.sub(r"http\S+", "", text)].  [\S+] is greedy and the letters of
    [http] are themselves not white space, so a match runs from its [h] to
    the next white space or the end; [skipping] says that the scan is inside
    a match. *)
Fixpoint strip_urls_from (skipping : bool) (s : list ascii) : list ascii :=
  match s with
  | [] => []
  | c :: r =>
      if skipping then
        if is_space c then c :: strip_urls_from false r
        else strip_urls_from true r
      else if starts_url s then strip_urls_from true r
      else c :: strip_urls_from false r
  end.

Definition strip_urls (s : list ascii) : list ascii := strip_urls_from false s.

(** Length of the longest prefix made of word characters. *)
Fixpoint span_word (s : list ascii) : nat :=
  match s with
  | c :: r => if is_word c then S (span_word r) else 0
  | [] => 0
  end.

(** Length of the match of [<@\w+>] that starts here, if there is one.
    [\w+] takes the whole run of word characters: giving one back leaves a
    word character where [>] is required. *)
Definition mention_len (s : list ascii) : option nat :=
  match s with
  | "<"%char :: "@"%char :: r =>
      let n := span_word r in
      match n, nth_error r n with
      | S _, Some ">"%char => Some (n + 3)
      | _, _ => None
      end
  | _ => None
  end.

(** [re.sub(r"<@\w+>", "", text)]; [skip] counts the characters of the
    current match that are still to be dropped. *)
Fixpoint strip_mentions_from (skip : nat) (s : list ascii) : list ascii :=
  match s with
  | [] => []
  | c :: r =>
      match skip with
      | S k => strip_mentions_from k r
      | O =>
          match mention_len s with
          | Some n => strip_mentions_from (n - 1) r
          | None => c :: strip_mentions_from 0 r
          end
      end
  end.

Definition strip_mentions (s : list ascii) : list ascii :=
  strip_mentions_from 0 s.

(** [re.sub(r"[^\w\s]", " ", text)]. *)
Definition blank_punct (c : ascii) : ascii :=
  if is_word c || is_space c then c else " "%char.

Definition strip_punct (s : list ascii) : list ascii := map blank_punct s.

Definition lower (s : list ascii) : list ascii := map lower_char s.

(** [str.split()] with no argument: the maximal runs of characters that are
    not white space.  [cur] is the run being read. *)
Fixpoint split_from (cur : list ascii) (s : list ascii) : list (list ascii) :=
  match s with
  | [] => match cur with [] => [] | _ => [cur] end
  | c :: r =>
      if is_space c then
        match cur with
        | [] => split_from [] r
        | _ => cur :: split_from [] r
        end
      else split_from (cur ++ [c]) r
  end.

Definition split (s : list ascii) : list (list ascii) := split_from [] s.

(** Truth value of [t.strip()]: the stripped string is not empty exactly
    when [t] has a character that is not white space. *)
Definition strip_nonempty (t : list ascii) : bool :=
  existsb (fun c => negb (is_space c)) t.

Definition preprocess_chars (text : list ascii) : list (list ascii) :=
  let text := strip_urls text in
  let text := strip_mentions text in
  let text := strip_punct text in
  let tokens := split (lower text) in
  filter strip_nonempty tokens.

Definition preprocess_text (text : string) : list string :=
  map str (preprocess_chars (chars text)).



(** ** Exceptions *)

Inductive exn : Type :=
| FileNotFoundError (message : string)
| ZeroDivisionError
| IndexError
| ValueError
| UnpicklingError.

Inductive result (A : Type) : Type :=
| Ok (a : A)
| Raise (e : exn).

Arguments Ok {A} a.
Arguments Raise {A} e.

Definition bind {A B : Type} (r : result A) (k : A -> result B) : result B :=
  match r with
  | Ok a => k a
  | Raise e => Raise e
  end.

Notation "x <- r ;; k" := (bind r (fun x => k))
  (at level 61, r at next level, right associativity).

(** ** Python dictionaries

    A [dict] keeps its keys in insertion order; assigning to a key that is
    present keeps its place. *)

Definition dict (V : Type) : Type := list (string * V).

Fixpoint dict_get {V : Type} (d : dict V) (k : string) : option V :=
  match d with
  | [] => None
  | (k', v) :: r => if (k' =? k)%string then Some v else dict_get r k
  end.

Fixpoint dict_set {V : Type} (d : dict V) (k : string) (v : V) : dict V :=
  match d with
  | [] => [(k, v)]
  | (k', v') :: r =>
      if (k' =? k)%string then (k', v) :: r else (k', v') :: dict_set r k v
  end.

(** ** [rank_bm25.BM25Okapi]

    The class is imported from the [rank_bm25] package; the model follows
    its constructor ([_initialize], then [_calc_idf]) and [get_scores]:
<<
    _initialize(corpus):
        nd = {}; num_doc = 0
        for document in corpus:
            self.doc_len.append(len(document))
            num_doc += len(document)
            frequencies = {}
            for word in document:
                if word not in frequencies: frequencies[word] = 0
                frequencies[word] += 1
            self.doc_freqs.append(frequencies)
            for word, freq in frequencies.items():
                try: nd[word] += 1
                except KeyError: nd[word] = 1
            self.corpus_size += 1
        self.avgdl = num_doc / self.corpus_size
        return nd

    _calc_idf(nd):
        idf_sum = 0; negative_idfs = []
        for word, freq in nd.items():
            idf = math.log(self.corpus_size - freq + 0.5) - math.log(freq + 0.5)
            self.idf[word] = idf
            idf_sum += idf
            if idf < 0: negative_idfs.append(word)
        self.average_idf = idf_sum / len(self.idf)
        eps = self.epsilon * self.average_idf
        for word in negative_idfs: self.idf[word] = eps

    get_scores(query):
        score = np.zeros(self.corpus_size)
        doc_len = np.array(self.doc_len)
        for q in query:
            q_freq = np.array([(doc.get(q) or 0) for doc in self.doc_freqs])
            score += (self.idf.get(q) or 0) * (q_freq * (self.k1 + 1) /
                (q_freq + self.k1 * (1 - self.b + self.b * doc_len / self.avgdl)))
        return score
>>
*)

Local Open Scope R_scope.

Record BM25Okapi_obj : Type := {
  k1 : R;
  b : R;
  epsilon : R;
  corpus_size : nat;
  avgdl : R;
  doc_freqs : list (dict nat);
  idf : dict R;
  doc_len : list nat;
  average_idf : R
}.

(** Python's [/] on numbers: a zero divisor raises. *)
Definition py_div (x : R) (n : nat) : result R :=
  match n with
  | O => Raise ZeroDivisionError
  | S _ => Ok (x / INR n)
  end.

(** One turn of [for word in document] in [_initialize]. *)
Definition count_word (frequencies : dict nat) (word : string) : dict nat :=
  let frequencies :=
    match dict_get frequencies word with
    | None => dict_set frequencies word 0%nat
    | Some _ => frequencies
    end in
  match dict_get frequencies word with
  | Some n => dict_set frequencies word (n + 1)%nat
  | None => frequencies
  end.

Definition word_frequencies (document : list string) : dict nat :=
  fold_left count_word document [].

(** One turn of [for word, freq in frequencies.items()]: [nd[word] += 1],
    or [nd[word] = 1] on a [KeyError]. *)
Definition count_doc (nd : dict nat) (entry : string * nat) : dict nat :=
  match dict_get nd (fst entry) with
  | Some n => dict_set nd (fst entry) (n + 1)%nat
  | None => dict_set nd (fst entry) 1%nat
  end.

Record init_state : Type := {
  st_nd : dict nat;
  st_num_doc : nat;
  st_doc_len : list nat;
  st_doc_freqs : list (dict nat);
  st_corpus_size : nat
}.

Definition init_start : init_state :=
  {| st_nd := []; st_num_doc := 0; st_doc_len := []; st_doc_freqs := [];
     st_corpus_size := 0 |}.

(** One turn of [for document in corpus] in [_initialize]. *)
Definition init_step (st : init_state) (document : list string) : init_state :=
  let frequencies := word_frequencies document in
  {| st_doc_len := st_doc_len st ++ [List.length document];
     st_num_doc := (st_num_doc st + List.length document)%nat;
     st_doc_freqs := st_doc_freqs st ++ [frequencies];
     st_nd := fold_left count_doc frequencies (st_nd st);
     st_corpus_size := (st_corpus_size st + 1)%nat |}.

Definition initialize (corpus : list (list string)) : init_state :=
  fold_left init_step corpus init_start.

Record idf_state : Type := {
  st_idf : dict R;
  st_idf_sum : R;
  st_negative_idfs : list string
}.

(** [math.log(self.corpus_size - freq + 0.5) - math.log(freq + 0.5)]. *)
Definition raw_idf (n freq : nat) : R :=
  ln (INR (n - freq) + 0.5) - ln (INR freq + 0.5).

(** One turn of [for word, freq in nd.items()] in [_calc_idf]. *)
Definition idf_step (n : nat) (st : idf_state) (entry : string * nat)
  : idf_state :=
  let (word, freq) := entry in
  let idf := raw_idf n freq in
  {| st_idf := dict_set (st_idf st) word idf;
     st_idf_sum := st_idf_sum st + idf;
     st_negative_idfs :=
       if Rlt_dec idf 0 then st_negative_idfs st ++ [word]
       else st_negative_idfs st |}.

Definition calc_idf_loop (n : nat) (nd : dict nat) : idf_state :=
  fold_left (idf_step n) nd
    {| st_idf := []; st_idf_sum := 0; st_negative_idfs := [] |}.

(** [BM25Okapi(corpus, k1=k1, b=b)]; [epsilon] keeps its default 0.25. *)
Definition BM25Okapi (corpus : list (list string)) (k1 b : R)
  : result BM25Okapi_obj :=
  let epsilon := 0.25 in
  let st := initialize corpus in
  avgdl <- py_div (INR (st_num_doc st)) (st_corpus_size st) ;;
  let ist := calc_idf_loop (st_corpus_size st) (st_nd st) in
  average_idf <- py_div (st_idf_sum ist) (List.length (st_idf ist)) ;;
  let eps := epsilon * average_idf in
  let idf :=
    fold_left (fun d word => dict_set d word eps) (st_negative_idfs ist)
      (st_idf ist) in
  Ok {| k1 := k1; b := b; epsilon := epsilon;
        corpus_size := st_corpus_size st; avgdl := avgdl;
        doc_freqs := st_doc_freqs st; idf := idf;
        doc_len := st_doc_len st; average_idf := average_idf |}.

(** [x or 0] for a looked-up number. *)
Definition or_zero_nat (v : option nat) : nat :=
  match v with Some n => n | None => 0%nat end.

Definition or_zero (v : option R) : R :=
  match v with Some x => x | None => 0 end.

(** [q_freq * (k1 + 1) / (q_freq + k1 * (1 - b + b * doc_len / avgdl))]
    for one document. *)
Definition term_weight (k1 b avgdl : R) (q_freq doc_len : nat) : R :=
  INR q_freq * (k1 + 1)
  / (INR q_freq + k1 * (1 - b + b * INR doc_len / avgdl)).

(** The array added to [score] for the query token [q]. *)
Definition term_scores (bm : BM25Okapi_obj) (q : string) : list R :=
  let q_freq := map (fun doc => or_zero_nat (dict_get doc q)) (doc_freqs bm) in
  map (fun fd : nat * nat =>
         or_zero (dict_get (idf bm) q)
         * term_weight (k1 bm) (b bm) (avgdl bm) (fst fd) (snd fd))
      (combine q_freq (doc_len bm)).

(** Element-wise sum of two arrays of one shape. *)
Definition array_add (x y : list R) : list R :=
  map (fun p : R * R => fst p + snd p) (combine x y).

(** [bm25.get_scores(query)]. *)
Definition get_scores (bm : BM25Okapi_obj) (query : list string) : list R :=
  fold_left (fun score q => array_add score (term_scores bm q)) query
    (repeat 0 (corpus_size bm)).

(** ** [numpy.argsort] and slicing

    [search] calls [np.argsort(scores)] with the default [kind], for
    which numpy promises the indices of the array in ascending order of
    score and no order among equal scores: the default sort is not stable,
    and which of two equal scores comes first changes with the build of
    numpy.  So [search] takes the function as a parameter [argsort], and
    [sorts_ascending] is all that is known of it. *)

Definition score_at (scores : list R) (i : nat) : R := nth i scores 0.

Definition ascending (scores : list R) (i j : nat) : Prop :=
  score_at scores i <= score_at scores j.

Definition sorts_ascending (argsort : list R -> list nat) : Prop :=
  forall scores,
    Permutation (argsort scores) (seq 0 (List.length scores))
    /\ StronglySorted (ascending scores) (argsort scores).

(** Insert the index [i] after every index whose score is not greater. *)
Fixpoint insert_idx (scores : list R) (i : nat) (l : list nat) : list nat :=
  match l with
  | [] => [i]
  | j :: r =>
      if Rlt_dec (score_at scores i) (score_at scores j) then i :: l
      else j :: insert_idx scores i r
  end.

(** One function that [np.argsort] can be: the sort by insertion, which
    leaves equal scores in index order, as [kind='stable'] does. *)
Definition argsort_stable (scores : list R) : list nat :=
  fold_left (fun acc i => insert_idx scores i acc)
    (seq 0 (List.length scores)) [].

(** Insert the index [i] before the first index whose score is not
    smaller. *)
Fixpoint insert_idx_first (scores : list R) (i : nat) (l : list nat)
  : list nat :=
  match l with
  | [] => [i]
  | j :: r =>
      if Rle_dec (score_at scores i) (score_at scores j) then i :: l
      else j :: insert_idx_first scores i r
  end.

(** Another function that [np.argsort] can be: it leaves equal scores in
    the reverse of index order. *)
Definition argsort_backward (scores : list R) : list nat :=
  fold_left (fun acc i => insert_idx_first scores i acc)
    (seq 0 (List.length scores)) [].

(** The slice [a[start:]]: a negative [start] counts from the end, and the
    bounds are clipped to the array. *)
Definition slice_from {A : Type} (start : Z) (a : list A) : list A :=
  let n := Z.of_nat (List.length a) in
  let start :=
    if (start <? 0)%Z then Z.max 0 (start + n) else Z.min start n in
  skipn (Z.to_nat start) a.

(** ** Messages

    A message is a JSON object, read by [json.load].  The value under a
    key is [None] (JSON [null]), a [bool], an [int] or a [str]. *)

Inductive value : Type :=
| PyNone
| PyBool (b : bool)
| PyInt (n : Z)
| PyStr (s : string).

(** The seven keys that the program reads; a key can be absent. *)
Record Msg : Type := {
  msg_text : option value;
  msg_username : option value;
  msg_channel : option value;
  msg_thread_ts : option value;
  msg_ts : option value;
  msg_id : option value;
  msg__id : option value
}.

(** [msg.get(key)], which is [None] for an absent key, and
    [msg.get(key, default)]. *)
Definition get_or (default : value) (field : option value) : value :=
  match field with Some v => v | None => default end.

Definition get (field : option value) : value := get_or PyNone field.

(** [str(v)], which is what an f-string writes for [{v}]. *)
Definition py_str (v : value) : string :=
  match v with
  | PyNone => "None"
  | PyBool true => "True"
  | PyBool false => "False"
  | PyInt n => NilZero.string_of_int (Z.to_int n)
  | PyStr s => s
  end.

(** The truth value of [v]: [None], [False], [0] and [''] are false. *)
Definition py_bool (v : value) : bool :=
  match v with
  | PyNone => false
  | PyBool b => b
  | PyInt n => negb (n =? 0)%Z
  | PyStr s => negb (s =? "")%string
  end.

(** [x or y]. *)
Definition py_or (x y : value) : value :=
  if py_bool x then x else y.

(** [x == y]: a [bool] is the integer 1 or 0, and values of different
    kinds are different. *)
Definition py_eq (x y : value) : bool :=
  match x, y with
  | PyNone, PyNone => true
  | PyStr s, PyStr t => (s =? t)%string
  | PyBool a, PyBool c => Bool.eqb a c
  | PyInt n, PyInt m => (n =? m)%Z
  | PyBool a, PyInt m => ((if a then 1 else 0) =? m)%Z
  | PyInt n, PyBool c => (n =? (if c then 1 else 0))%Z
  | _, _ => false
  end.

(** The test of lines 31 and 85:
    [msg.get("thread_ts") and msg.get("thread_ts") != msg.get("ts")]. *)
Definition is_threaded_reply (msg : Msg) : bool :=
  py_bool (get (msg_thread_ts msg))
  && negb (py_eq (get (msg_thread_ts msg)) (get (msg_ts msg))).

(** The text that is tokenized for a message, lines 30 to 32 and 84 to 86. *)
Definition combined (msg : Msg) : string :=
  let combined :=
    (py_str (get_or (PyStr "") (msg_text msg)) ++ " "
     ++ py_str (get_or (PyStr "") (msg_username msg)) ++ " "
     ++ py_str (get_or (PyStr "") (msg_channel msg)))%string in
  if is_threaded_reply msg
  then (combined ++ " [threaded reply]")%string
  else combined.

Definition msg_tokens (msg : Msg) : list string :=
  preprocess_text (combined msg).

(** The id that [build_index] stores for a message, line 35:
    [msg.get("id")]. *)
Definition doc_id (msg : Msg) : value := get (msg_id msg).

(** ** The persisted index and the file system *)

Record IndexData : Type := {
  bm25 : BM25Okapi_obj;
  doc_ids : list value;
  tokenized_corpus : list (list string)
}.

Inductive file : Type :=
| CorpusJson (docs : option (list Msg))
| IndexPickle (data : IndexData).

Definition files : Type := string -> option file.

Definition write_file (fs : files) (path : string) (f : file) : files :=
  fun p => if (p =? path)%string then Some f else fs p.

Record world : Type := {
  fs : files;
  stderr : list string
}.

(** [os.path.dirname(path)] is empty exactly when [path] has no slash. *)
Definition has_dirname (path : string) : bool :=
  existsb (fun c => (c =? "/")%char) (chars path).

(** [os.makedirs(os.path.dirname(index_path), exist_ok=True)]: an empty
    name is refused.  This is the one failure that the text of the path
    decides; that the name is taken by a file, or that the file cannot be
    opened afterwards, depends on the disk and is not modelled. *)
Definition makedirs_dirname (index_path : string) : result unit :=
  if has_dirname index_path then Ok tt
  else Raise (FileNotFoundError "[Errno 2] No such file or directory: ''").

(** ** [build_index] *)

(** [data.get("docs", [])]. *)
Definition get_docs (data : option (list Msg)) : list Msg :=
  match data with Some docs => docs | None => [] end.

Definition CorpusNotFound (corpus_json_path : string) : exn :=
  FileNotFoundError ("Corpus not found: " ++ corpus_json_path).

Definition build_index (w : world) (corpus_json_path index_path : string)
  (k1 b : R) : world * result (nat * nat) :=
  match fs w corpus_json_path with
  | None => (w, Raise (CorpusNotFound corpus_json_path))
  | Some (IndexPickle _) => (w, Raise ValueError)
  | Some (CorpusJson data) =>
      let docs := get_docs data in
      let tokenized_docs := map msg_tokens docs in
      let doc_ids := map doc_id docs in
      match BM25Okapi tokenized_docs k1 b with
      | Raise e => (w, Raise e)
      | Ok bm25 =>
          match makedirs_dirname index_path with
          | Raise e => (w, Raise e)
          | Ok _ =>
              let data :=
                {| bm25 := bm25; doc_ids := doc_ids;
                   tokenized_corpus := tokenized_docs |} in
              ({| fs := write_file (fs w) index_path (IndexPickle data);
                  stderr := stderr w |},
               Ok (List.length docs, List.length doc_ids))
          end
      end
  end.

(** ** [search] *)

(** The loop over [top_idx], lines 60 to 62. *)
Fixpoint collect (doc_ids : list value) (scores : list R)
  (top_idx : list nat) : result (list (value * R)) :=
  match top_idx with
  | [] => Ok []
  | idx :: rest =>
      if Rlt_dec 0 (score_at scores idx) then
        match nth_error doc_ids idx with
        | None => Raise IndexError
        | Some doc_id =>
            out <- collect doc_ids scores rest ;;
            Ok ((doc_id, score_at scores idx) :: out)
        end
      else collect doc_ids scores rest
  end.

(** [np.argsort(scores)[-top_k:][::-1]]. *)
Definition top_indices (argsort : list R -> list nat) (scores : list R)
  (top_k : Z) : list nat :=
  rev (slice_from (- top_k) (argsort scores)).

(** The test [scores[idx] > 0] of the loop, and the indices that pass it. *)
Definition is_hit (scores : list R) (idx : nat) : bool :=
  if Rlt_dec 0 (score_at scores idx) then true else false.

Definition hits (argsort : list R -> list nat) (scores : list R)
  (top_k : Z) : list nat :=
  filter (is_hit scores) (top_indices argsort scores top_k).

(** Lines 51 to 63: the search in a loaded index. *)
Definition search_index (argsort : list R -> list nat) (data : IndexData)
  (query : string) (top_k : Z) : result (list (value * R)) :=
  let q_tokens := preprocess_text query in
  let scores := get_scores (bm25 data) q_tokens in
  collect (doc_ids data) scores (top_indices argsort scores top_k).

Definition search (argsort : list R -> list nat) (w : world)
  (index_path query : string) (top_k : Z) : result (list (value * R)) :=
  match fs w index_path with
  | None => Ok []
  | Some (CorpusJson _) => Raise UnpicklingError
  | Some (IndexPickle data) => search_index argsort data query top_k
  end.

(** ** [add_documents] *)

Definition warning_no_index : string :=
  "Warning: No existing index found, creating new".

(** The id of a new message, line 89:
    [msg.get("id") or msg.get("ts") or msg.get("_id")]. *)
Definition new_id (msg : Msg) : value :=
  py_or (py_or (get (msg_id msg)) (get (msg_ts msg))) (get (msg__id msg)).

Definition add_documents (w : world) (index_path : string) (docs : list Msg)
  (k1 b : R) (rebuild_threshold : Z) : world * result nat :=
  match fs w index_path with
  | Some (CorpusJson _) => (w, Raise UnpicklingError)
  | loaded =>
      let '(doc_ids0, tokenized_corpus0, err) :=
        match loaded with
        | Some (IndexPickle data) =>
            (doc_ids data, tokenized_corpus data, stderr w)
        | _ => ([], [], stderr w ++ [warning_no_index])
        end in
      let new_tokens := map msg_tokens docs in
      let new_ids := map new_id docs in
      let tokenized_corpus := tokenized_corpus0 ++ new_tokens in
      let doc_ids := doc_ids0 ++ new_ids in
      match BM25Okapi tokenized_corpus k1 b with
      | Raise e => ({| fs := fs w; stderr := err |}, Raise e)
      | Ok bm25 =>
          let data :=
            {| bm25 := bm25; doc_ids := doc_ids;
               tokenized_corpus := tokenized_corpus |} in
          ({| fs := write_file (fs w) index_path (IndexPickle data);
              stderr := err |},
           Ok (List.length new_ids))
      end
  end.

(** ** Predicates used in the statements *)


(** A character that can occur in a token: a word character that
    [str.lower] leaves alone. *)
Definition token_char (c : ascii) : Prop :=
  is_word c = true /\ lower_char c = c.

Definition token_ok (t : list ascii) : Prop :=
  t <> [] /\ Forall token_char t.


(** The order in which [argsort_stable] lists indices: by score, and by
    index among equal scores. *)
Definition asc (scores : list R) (i j : nat) : Prop :=
  score_at scores i < score_at scores j
  \/ (score_at scores i = score_at scores j /\ (i < j)%nat).

(** The pair that [search] returns for the index [idx]. *)
Definition entry (doc_ids : list value) (scores : list R)
  (idx : nat) : value * R :=
  (nth idx doc_ids PyNone, score_at scores idx).

(** An index as [build_index] and [add_documents] write it: the scoring
    object was built from the stored corpus, and there is one id for each
    tokenized document. *)
Definition persisted (data : IndexData) : Prop :=
  (exists k1 b, BM25Okapi (tokenized_corpus data) k1 b = Ok (bm25 data))
  /\ List.length (doc_ids data) = List.length (tokenized_corpus data).

(** Some document of the corpus has a token. *)
Definition has_token (corpus : list (list string)) : bool :=
  existsb (fun document => negb (Nat.eqb (List.length document) 0)) corpus.

(** What [add_documents] starts from: the stored ids and corpus, or
    nothing when there is no index. *)
Definition prior_ids (w : world) (index_path : string)
  : list value :=
  match fs w index_path with
  | Some (IndexPickle data) => doc_ids data
  | _ => []
  end.

Definition prior_corpus (w : world) (index_path : string)
  : list (list string) :=
  match fs w index_path with
  | Some (IndexPickle data) => tokenized_corpus data
  | _ => []
  end.

(** ** Sample data *)

(** A message that has only an id and a text, both strings. *)
Definition doc (id text : string) : Msg :=
  {| msg_text := Some (PyStr text); msg_username := None;
     msg_channel := None; msg_thread_ts := None; msg_ts := None;
     msg_id := Some (PyStr id); msg__id := None |}.

Definition no_files : files := fun _ => None.

Definition empty_world : world := {| fs := no_files; stderr := [] |}.

(** A world whose only file is the corpus [data/corpus.json]. *)
Definition corpus_world (docs : list Msg) : world :=
  {| fs := write_file no_files "data/corpus.json" (CorpusJson (Some docs));
     stderr := [] |}.

(** The corpus of the scenario of the specification. *)
Definition cat_docs : list Msg :=
  [doc "1" "the cat sat"; doc "2" "the dog ran"].

(** A corpus whose first two documents are equal. *)
Definition tie_docs : list Msg :=
  [doc "a" "x"; doc "b" "x"; doc "c" "y"; doc "d" "z"; doc "e" "w"].

(** The scoring object that [BM25Okapi] builds for [cat_docs] with
    [k1 = 1.2] and [b = 0.75]. *)
Definition cat_average_idf : R :=
  (0 + raw_idf 2 2 + raw_idf 2 1 + raw_idf 2 1 + raw_idf 2 1 + raw_idf 2 1)
  / INR 5.

Definition cat_bm25 : BM25Okapi_obj :=
  {| k1 := 1.2; b := 0.75; epsilon := 0.25;
     corpus_size := 2;
     avgdl := INR 6 / INR 2;
     doc_freqs :=
       [[("the", 1%nat); ("cat", 1%nat); ("sat", 1%nat)];
        [("the", 1%nat); ("dog", 1%nat); ("ran", 1%nat)]];
     idf :=
       [("the", 0.25 * cat_average_idf); ("cat", raw_idf 2 1);
        ("sat", raw_idf 2 1); ("dog", raw_idf 2 1); ("ran", raw_idf 2 1)];
     doc_len := [3%nat; 3%nat];
     average_idf := cat_average_idf |}.

Definition cat_index : IndexData :=
  {| bm25 := cat_bm25; doc_ids := [PyStr "1"; PyStr "2"];
     tokenized_corpus := [["the"; "cat"; "sat"]; ["the"; "dog"; "ran"]] |}.

(** The world after [build_index] has run on [corpus_world docs] and
    written [data]. *)
Definition indexed_world (docs : list Msg) (data : IndexData) : world :=
  {| fs := write_file (fs (corpus_world docs)) "data/index.pkl"
             (IndexPickle data);
     stderr := [] |}.

(** The same for [tie_docs]. *)
Definition tie_average_idf : R :=
  (0 + raw_idf 5 2 + raw_idf 5 1 + raw_idf 5 1 + raw_idf 5 1) / INR 4.

Definition tie_bm25 : BM25Okapi_obj :=
  {| k1 := 1.2; b := 0.75; epsilon := 0.25;
     corpus_size := 5;
     avgdl := INR 5 / INR 5;
     doc_freqs :=
       [[("x", 1%nat)]; [("x", 1%nat)]; [("y", 1%nat)]; [("z", 1%nat)];
        [("w", 1%nat)]];
     idf :=
       [("x", raw_idf 5 2); ("y", raw_idf 5 1); ("z", raw_idf 5 1);
        ("w", raw_idf 5 1)];
     doc_len := [1%nat; 1%nat; 1%nat; 1%nat; 1%nat];
     average_idf := tie_average_idf |}.

Definition tie_index : IndexData :=
  {| bm25 := tie_bm25;
     doc_ids := [PyStr "a"; PyStr "b"; PyStr "c"; PyStr "d"; PyStr "e"];
     tokenized_corpus := [["x"]; ["x"]; ["y"]; ["z"]; ["w"]] |}.

(** ** The score of one document *)

(** What one query token adds to the score of a document. *)
Definition term_contribution (bm : BM25Okapi_obj) (document : list string)
  (q : string) : R :=
  or_zero (dict_get (idf bm) q)
  * term_weight (k1 bm) (b bm) (avgdl bm)
      (count_occ string_dec document q) (List.length document).

(** The sum of the contributions of the query tokens, one for each
    occurrence of a token in the query. *)
Definition doc_score (bm : BM25Okapi_obj) (query document : list string)
  : R :=
  fold_left (fun acc q => acc + term_contribution bm document q) query 0.

(** The scores of the documents of an index for a query text, and the
    positions that [search] returns for it. *)
Definition scores_of (data : IndexData) (query : string) : list R :=
  get_scores (bm25 data) (preprocess_text query).

Definition positions_of (argsort : list R -> list nat) (data : IndexData)
  (query : string) (top_k : Z) : list nat :=
  hits argsort (scores_of data query) top_k.

(** The keys of a dictionary, in order. *)
Definition keys {V : Type} (d : dict V) : list string := map fst d.

Definition contains (word : string) (document : list string) : bool :=
  if in_dec string_dec word document then true else false.

(** The number of documents of a corpus that contain a word. *)
Definition doc_frequency (corpus : list (list string)) (word : string) : nat :=
  List.length (filter (contains word) corpus).

(** The idf that [_calc_idf] leaves for a word found in [freq] documents of
    [n]: a negative value is replaced by [eps]. *)
Definition floored_idf (eps : R) (n freq : nat) : R :=
  if Rlt_dec (raw_idf n freq) 0 then eps else raw_idf n freq.

(** The number of tokens of a corpus. *)
Definition total_tokens (corpus : list (list string)) : nat :=
  list_sum (map (@List.length string) corpus).

(** ** [reranker.py]

    The cross-encoder is outside the program: [self.model.predict] is a
    function [predict] from the list of pairs to a list of scores. *)

Record RerankMsg : Type := {
  rr_text : option string;
  rr_author : option string;
  rr_channel_name : option string;
  rr_thread_parent_text : option string
}.

(** [msg[key]] under [if msg.get(key)], and the truth value of
    [msg.get(key)], for a key that is absent or holds a string. *)
Definition get_or_empty (v : option string) : string :=
  match v with Some s => s | None => "" end.

Definition truthy (v : option string) : bool :=
  match v with
  | Some s => negb (s =? "")%string
  | None => false
  end.

(** The slice [s[:n]] of a string, for [n] not negative. *)
Definition str_prefix (n : nat) (s : string) : string :=
  str (firstn n (chars s)).

(** [parts.append(part)] under [if msg.get(key)]. *)
Definition append_if (field : option string) (part : string)
  (parts : list string) : list string :=
  if truthy field then parts ++ [part] else parts.

(** [Reranker._prepare]. *)
Definition _prepare (msg : RerankMsg) : string :=
  let parts := [] in
  let parts :=
    append_if (rr_text msg)
      ("Message: " ++ get_or_empty (rr_text msg)) parts in
  let parts :=
    append_if (rr_author msg)
      ("From: " ++ get_or_empty (rr_author msg)) parts in
  let parts :=
    append_if (rr_channel_name msg)
      ("Channel: #" ++ get_or_empty (rr_channel_name msg)) parts in
  let parts :=
    append_if (rr_thread_parent_text msg)
      ("Thread: "
       ++ str_prefix 100 (get_or_empty (rr_thread_parent_text msg))) parts in
  String.concat " | " parts.

(** Insert a pair before the first pair of a smaller score. *)
Fixpoint insert_desc (x : nat * R) (l : list (nat * R)) : list (nat * R) :=
  match l with
  | [] => [x]
  | y :: r =>
      if Rlt_dec (snd y) (snd x) then x :: l else y :: insert_desc x r
  end.

(** [indexed.sort(key=lambda x: x[1], reverse=True)]: the sort of Python
    is stable, also with [reverse]: pairs of one score keep their order. *)
Definition sort_desc (indexed : list (nat * R)) : list (nat * R) :=
  fold_left (fun acc x => insert_desc x acc) indexed [].

(** The slice [a[:stop]]: a negative [stop] counts from the end, and the
    bounds are clipped to the array. *)
Definition slice_to {A : Type} (stop : Z) (a : list A) : list A :=
  let n := Z.of_nat (List.length a) in
  let stop :=
    if (stop <? 0)%Z then Z.max 0 (stop + n) else Z.min stop n in
  firstn (Z.to_nat stop) a.

(** [Reranker.rerank]. *)
Definition rerank (predict : list (string * string) -> list R)
  (query : string) (messages : list RerankMsg) (top_k : Z)
  : list (nat * R) :=
  match messages with
  | [] => []
  | _ =>
      let pairs := map (fun m => (query, _prepare m)) messages in
      let scores := predict pairs in
      let indexed := combine (seq 0 (List.length messages)) scores in
      let indexed := sort_desc indexed in
      let top := slice_to top_k indexed in
      map (fun p : nat * R => (fst p, snd p)) top
  end.

(** The order of the result of [rerank]: a greater score first, and of two
    equal scores the one of the smaller index first. *)
Definition rank_order (x y : nat * R) : Prop :=
  snd y < snd x \/ (snd y = snd x /\ (fst x < fst y)%nat).

(** * Properties *)

(** ** The tokenizer *)

Example preprocess_text_demo :
  preprocess_text "Hi <@U123>, see https://x.io/a?b=1 - it's DONE!"
  = ["hi"; "see"; "it"; "s"; "done"].
Proof. vm_compute. reflexivity. Qed.

(** A bare [http], an unclosed mention and an upper-case scheme are kept;
    a match of [http\S+] may start inside a word. *)
Example preprocess_text_edges :
  preprocess_text "http <@U1 x<@U_2>y HTTP://A.b wwwhttp://c d"
  = ["http"; "u1"; "xy"; "http"; "a"; "b"; "www"; "d"].
Proof. vm_compute. reflexivity. Qed.

Example msg_tokens_thread :
  msg_tokens {| msg_text := Some (PyStr "On it");
                msg_username := Some (PyStr "ana");
                msg_channel := Some (PyStr "ops");
                msg_thread_ts := Some (PyStr "17.2");
                msg_ts := Some (PyStr "17.5");
                msg_id := None; msg__id := None |}
  = ["on"; "it"; "ana"; "ops"; "threaded"; "reply"].
Proof. vm_compute. reflexivity. Qed.

(** A key that is present with [null] is written [None] by the f-string,
    and a number is written in decimal digits; an absent key is empty. *)
Example msg_tokens_null :
  msg_tokens {| msg_text := Some (PyStr "On it");
                msg_username := Some PyNone;
                msg_channel := Some (PyInt 42);
                msg_thread_ts := Some (PyInt 0);
                msg_ts := None;
                msg_id := None; msg__id := None |}
  = ["on"; "it"; "none"; "42"].
Proof. vm_compute. reflexivity. Qed.

Lemma chars_str (l : list ascii) : chars (str l) = l.
Proof. apply list_ascii_of_string_of_list_ascii. Qed.

Lemma str_chars (s : string) : str (chars s) = s.
Proof. apply string_of_list_ascii_of_string. Qed.

Ltac each_char c :=
  destruct c as [[] [] [] [] [] [] [] []]; vm_compute.

Lemma token_char_not_space (c : ascii) : token_char c -> is_space c = false.
Proof.
  unfold token_char. each_char c; intros [Hw Hl];
    first [reflexivity | discriminate Hw].
Qed.



(** What is left of a character after the punctuation pass and [lower]
    is white space or a token character. *)
Lemma lower_blank_char (c : ascii) :
  is_space (lower_char (blank_punct c)) = false ->
  token_char (lower_char (blank_punct c)).
Proof.
  unfold token_char.
  each_char c; intros H; first [discriminate H | split; reflexivity].
Qed.

(** *** The shape of the tokens *)

Lemma split_from_tokens (P : ascii -> Prop) (s : list ascii) :
  forall cur,
    Forall P cur ->
    Forall (fun c => is_space c = false -> P c) s ->
    Forall (fun t => t <> [] /\ Forall P t) (split_from cur s).
Proof.
  induction s as [|c r IH]; intros cur Hcur Hs; cbn [split_from].
  - destruct cur; constructor; [split; [discriminate | assumption] | constructor].
  - inversion Hs as [|? ? Hc Hr]; subst.
    destruct (is_space c) eqn:E.
    + destruct cur as [|c0 cur'].
      * apply IH; auto.
      * constructor; [split; [discriminate | assumption] | apply IH; auto].
    + apply IH; auto. apply Forall_app; split; auto.
Qed.

Lemma preprocess_chars_tokens (text : list ascii) :
  Forall token_ok (preprocess_chars text).
Proof.
  unfold preprocess_chars.
  apply Forall_forall. intros t Ht. apply filter_In in Ht as [Ht _].
  revert t Ht. apply Forall_forall.
  unfold split. apply split_from_tokens; [constructor|].
  unfold lower, strip_punct. rewrite map_map.
  apply Forall_forall. intros c Hc.
  apply in_map_iff in Hc as (c0 & <- & _). apply lower_blank_char.
Qed.

(** *** The passes on a string made of tokens and single spaces *)

Lemma starts_url_inv (s : list ascii) :
  starts_url s = true ->
  exists c r,
    s = "h"%char :: "t"%char :: "t"%char :: "p"%char :: c :: r
    /\ is_space c = false.
Proof.
  destruct s as [|c1 [|c2 [|c3 [|c4 [|c5 r]]]]]; try discriminate;
    (destruct c1 as [[] [] [] [] [] [] [] []]; try discriminate);
    try (destruct c2 as [[] [] [] [] [] [] [] []]; try discriminate);
    try (destruct c3 as [[] [] [] [] [] [] [] []]; try discriminate);
    try (destruct c4 as [[] [] [] [] [] [] [] []]; try discriminate).
  cbn [starts_url]. intros H. exists c5, r. split; [reflexivity|].
  now destruct (is_space c5).
Qed.

Lemma space_not_http (c : ascii) :
  is_space c = true ->
  c <> "h"%char /\ c <> "t"%char /\ c <> "p"%char.
Proof.
  intros H. repeat split; intros ->; vm_compute in H; discriminate.
Qed.

(** A match of [http\S+] cannot reach across white space. *)
Lemma starts_url_before_space (u : list ascii) (sp : ascii) (r : list ascii) :
  is_space sp = true ->
  starts_url (u ++ sp :: r) = starts_url u.
Proof.
  intros Hsp. destruct (space_not_http sp Hsp) as (Hh & Ht & Hp).
  destruct (starts_url u) eqn:E2.
  - apply starts_url_inv in E2 as (c & r' & -> & Hc).
    cbn. now rewrite Hc.
  - destruct (starts_url (u ++ sp :: r)) eqn:E1; [|reflexivity].
    apply starts_url_inv in E1 as (c & r' & Heq & Hc).
    destruct u as [|c1 [|c2 [|c3 [|c4 [|c5 u']]]]]; cbn in Heq;
      injection Heq as -> ?; try congruence.
    subst. cbn in E2. rewrite Hc in E2. discriminate.
Qed.




Lemma mention_len_head (c : ascii) (r : list ascii) :
  c <> "<"%char -> mention_len (c :: r) = None.
Proof.
  intros H. destruct c as [[] [] [] [] [] [] [] []];
    first [reflexivity | now elim H].
Qed.













(** ** [argsort] and the top of the ranking *)

Section Ranking.

Variable scores : list R.

Lemma insert_idx_perm (i : nat) (l : list nat) :
  Permutation (insert_idx scores i l) (i :: l).
Proof.
  induction l as [|j r IH]; cbn [insert_idx]; [reflexivity|].
  destruct (Rlt_dec _ _); [reflexivity|].
  rewrite IH. apply perm_swap.
Qed.

Lemma asc_trans (i j k : nat) :
  asc scores i j -> asc scores j k -> asc scores i k.
Proof.
  unfold asc. intros [H|[H H']] [G|[G G']];
    (left; lra) || (right; split; [lra | lia]).
Qed.

Lemma insert_idx_sorted (i : nat) (l : list nat) :
  StronglySorted (asc scores) l ->
  Forall (fun j => (j < i)%nat) l ->
  StronglySorted (asc scores) (insert_idx scores i l).
Proof.
  induction 1 as [|j r Hr IH Hj]; intros Hlt; cbn [insert_idx].
  - repeat constructor.
  - inversion Hlt as [|? ? Hji Hri]; subst.
    destruct (Rlt_dec _ _) as [Hlt'|Hge].
    + constructor; [now constructor|].
      constructor; [now left|].
      eapply Forall_impl; [|exact Hj].
      intros k Hk. eapply asc_trans; [|exact Hk]. now left.
    + constructor; [now apply IH|].
      assert (Hi : asc scores j i).
      { unfold asc. destruct (Rtotal_order (score_at scores j) (score_at scores i))
          as [H|[H|H]]; [now left | now right | lra]. }
      eapply Permutation_Forall; [symmetry; apply insert_idx_perm|].
      now constructor.
Qed.

Lemma argsort_stable_upto (n : nat) :
  let l := fold_left (fun acc i => insert_idx scores i acc) (seq 0 n) [] in
  StronglySorted (asc scores) l /\ Permutation l (seq 0 n).
Proof.
  induction n as [|n [Hs Hp]]; [split; constructor|].
  rewrite seq_S, fold_left_app. cbn [fold_left Nat.add].
  split.
  - apply insert_idx_sorted; [exact Hs|].
    eapply Permutation_Forall; [symmetry; exact Hp|].
    apply Forall_forall. intros j Hj. apply in_seq in Hj. lia.
  - rewrite insert_idx_perm, Hp.
    rewrite Permutation_app_comm. reflexivity.
Qed.

(** [argsort_stable] lists the indices by score, and by index among equal
    scores. *)
Lemma argsort_stable_sorted :
  StronglySorted (asc scores) (argsort_stable scores).
Proof. apply argsort_stable_upto. Qed.

Lemma argsort_stable_perm :
  Permutation (argsort_stable scores) (seq 0 (List.length scores)).
Proof. apply argsort_stable_upto. Qed.

Lemma insert_idx_first_perm (i : nat) (l : list nat) :
  Permutation (insert_idx_first scores i l) (i :: l).
Proof.
  induction l as [|j r IH]; cbn [insert_idx_first]; [reflexivity|].
  destruct (Rle_dec _ _); [reflexivity|].
  rewrite IH. apply perm_swap.
Qed.

Lemma insert_idx_first_sorted (i : nat) (l : list nat) :
  StronglySorted (ascending scores) l ->
  StronglySorted (ascending scores) (insert_idx_first scores i l).
Proof.
  induction 1 as [|j r Hr IH Hj]; cbn [insert_idx_first].
  - repeat constructor.
  - destruct (Rle_dec _ _) as [Hle|Hgt].
    + constructor; [now constructor|].
      constructor; [exact Hle|].
      eapply Forall_impl; [|exact Hj].
      unfold ascending. intros k Hk. lra.
    + constructor; [exact IH|].
      eapply Permutation_Forall; [symmetry; apply insert_idx_first_perm|].
      constructor; [|exact Hj]. unfold ascending. lra.
Qed.

Lemma argsort_backward_upto (n : nat) :
  let l :=
    fold_left (fun acc i => insert_idx_first scores i acc) (seq 0 n) [] in
  StronglySorted (ascending scores) l /\ Permutation l (seq 0 n).
Proof.
  induction n as [|n [Hs Hp]]; [split; constructor|].
  rewrite seq_S, fold_left_app. cbn [fold_left Nat.add].
  split.
  - now apply insert_idx_first_sorted.
  - rewrite insert_idx_first_perm, Hp.
    rewrite Permutation_app_comm. reflexivity.
Qed.

End Ranking.

Lemma StronglySorted_app_inv {A : Type} (R : A -> A -> Prop) (l1 l2 : list A) :
  StronglySorted R (l1 ++ l2) ->
  StronglySorted R l1 /\ StronglySorted R l2
  /\ forall x y, In x l1 -> In y l2 -> R x y.
Proof.
  induction l1 as [|a l1 IH]; cbn [app]; intros H.
  - repeat split; [constructor | exact H | intros x y []].
  - apply StronglySorted_inv in H as [H Ha].
    destruct (IH H) as (H1 & H2 & H12).
    apply Forall_app in Ha as [Ha1 Ha2].
    repeat split; [now constructor | exact H2 |].
    intros x y [<-|Hx] Hy; [|now apply H12].
    rewrite Forall_forall in Ha2. now apply Ha2.
Qed.

Lemma StronglySorted_skipn {A : Type} (R : A -> A -> Prop) (n : nat)
  (l : list A) :
  StronglySorted R l -> StronglySorted R (skipn n l).
Proof.
  intros H. rewrite <- (firstn_skipn n l) in H.
  now apply StronglySorted_app_inv in H.
Qed.

Lemma StronglySorted_snoc {A : Type} (R : A -> A -> Prop) (l : list A)
  (a : A) :
  StronglySorted R l -> Forall (fun x => R x a) l ->
  StronglySorted R (l ++ [a]).
Proof.
  induction 1 as [|x l Hl IH Hx]; intros Ha; cbn [app].
  - repeat constructor.
  - inversion Ha as [|? ? Hxa Hla]; subst.
    constructor; [now apply IH|].
    apply Forall_app. split; [exact Hx | now constructor].
Qed.

Lemma StronglySorted_rev {A : Type} (R : A -> A -> Prop) (l : list A) :
  StronglySorted R l -> StronglySorted (fun x y => R y x) (rev l).
Proof.
  induction 1 as [|a l Hl IH Ha]; cbn [rev]; [constructor|].
  apply StronglySorted_snoc; [exact IH|].
  now apply Forall_rev.
Qed.

Lemma StronglySorted_filter {A : Type} (R : A -> A -> Prop)
  (f : A -> bool) (l : list A) :
  StronglySorted R l -> StronglySorted R (filter f l).
Proof.
  induction 1 as [|a l Hl IH Ha]; cbn [filter]; [constructor|].
  destruct (f a); [|exact IH].
  constructor; [exact IH|].
  apply Forall_forall. intros x Hx. apply filter_In in Hx as [Hx _].
  rewrite Forall_forall in Ha. now apply Ha.
Qed.

Lemma StronglySorted_map {A B : Type} (R : B -> B -> Prop) (f : A -> B)
  (l : list A) :
  StronglySorted (fun x y => R (f x) (f y)) l -> StronglySorted R (map f l).
Proof.
  induction 1 as [|a l Hl IH Ha]; cbn [map]; constructor; [exact IH|].
  now apply Forall_map.
Qed.

Lemma StronglySorted_weaken {A : Type} (R R' : A -> A -> Prop) (l : list A) :
  (forall x y, R x y -> R' x y) ->
  StronglySorted R l -> StronglySorted R' l.
Proof.
  intros HR. induction 1 as [|a l Hl IH Ha]; constructor; [exact IH|].
  eapply Forall_impl; [|exact Ha]. apply HR.
Qed.

(** Both sample functions do what [np.argsort] promises. *)
Lemma argsort_stable_sorts : sorts_ascending argsort_stable.
Proof.
  intros scores. split; [apply argsort_stable_perm|].
  eapply StronglySorted_weaken; [|apply argsort_stable_sorted].
  unfold asc, ascending. intros i j [H|[H _]]; lra.
Qed.

Lemma argsort_backward_sorts : sorts_ascending argsort_backward.
Proof.
  intros scores.
  destruct (argsort_backward_upto scores (List.length scores)) as [Hs Hp].
  split; [exact Hp | exact Hs].
Qed.

Lemma NoDup_skipn {A : Type} (n : nat) (l : list A) :
  NoDup l -> NoDup (skipn n l).
Proof.
  intros H. rewrite <- (firstn_skipn n l) in H.
  now apply NoDup_app_remove_l in H.
Qed.

Lemma is_hit_true (scores : list R) (idx : nat) :
  is_hit scores idx = true <-> 0 < score_at scores idx.
Proof.
  unfold is_hit. destruct (Rlt_dec 0 (score_at scores idx)); split;
    auto; discriminate.
Qed.

(** A slice [a[start:]] is what is left of [a] after some prefix. *)
Lemma slice_from_skipn {A : Type} (start : Z) (a : list A) :
  exists n, slice_from start a = skipn n a.
Proof. unfold slice_from. eauto. Qed.

(** A positive [top_k] bounds the slice [a[-top_k:]]. *)
Lemma slice_from_length {A : Type} (top_k : Z) (a : list A) :
  (0 < top_k)%Z ->
  (Z.of_nat (List.length (slice_from (- top_k) a)) <= top_k)%Z.
Proof.
  intros H. unfold slice_from.
  destruct (Z.ltb_spec (- top_k) 0); [|lia].
  rewrite length_skipn. lia.
Qed.

Section Top.

Variable argsort : list R -> list nat.
Hypothesis argsort_sorts : sorts_ascending argsort.

Lemma top_indices_sorted (scores : list R) (top_k : Z) :
  StronglySorted (fun i j => ascending scores j i)
    (top_indices argsort scores top_k).
Proof.
  unfold top_indices.
  destruct (slice_from_skipn (- top_k) (argsort scores)) as [n ->].
  apply (StronglySorted_rev (R := ascending scores)).
  apply StronglySorted_skipn, argsort_sorts.
Qed.

Lemma top_indices_bound (scores : list R) (top_k : Z) :
  Forall (fun idx => (idx < List.length scores)%nat)
    (top_indices argsort scores top_k).
Proof.
  unfold top_indices.
  destruct (slice_from_skipn (- top_k) (argsort scores)) as [n ->].
  apply Forall_rev, Forall_forall. intros idx Hidx.
  assert (Hin : In idx (argsort scores)).
  { rewrite <- (firstn_skipn n). apply in_or_app. now right. }
  eapply Permutation_in in Hin; [|apply argsort_sorts].
  now apply in_seq in Hin.
Qed.

Lemma hits_sorted (scores : list R) (top_k : Z) :
  StronglySorted (fun i j => ascending scores j i)
    (hits argsort scores top_k).
Proof. apply StronglySorted_filter, top_indices_sorted. Qed.

Lemma argsort_NoDup (scores : list R) : NoDup (argsort scores).
Proof.
  eapply Permutation_NoDup; [symmetry; apply argsort_sorts | apply seq_NoDup].
Qed.

Lemma top_indices_NoDup (scores : list R) (top_k : Z) :
  NoDup (top_indices argsort scores top_k).
Proof.
  unfold top_indices.
  destruct (slice_from_skipn (- top_k) (argsort scores)) as [n ->].
  apply NoDup_rev, NoDup_skipn, argsort_NoDup.
Qed.

Lemma hits_NoDup (scores : list R) (top_k : Z) :
  NoDup (hits argsort scores top_k).
Proof. apply NoDup_filter, top_indices_NoDup. Qed.

Lemma hits_bound (scores : list R) (top_k : Z) :
  Forall (fun idx => (idx < List.length scores)%nat)
    (hits argsort scores top_k).
Proof.
  apply Forall_forall. intros idx H. apply filter_In in H as [H _].
  pose proof (top_indices_bound scores top_k) as Hb.
  rewrite Forall_forall in Hb. now apply Hb.
Qed.

(** An index that the slice leaves out has a score that is at most the
    score of every index that it keeps. *)
Lemma top_indices_best (scores : list R) (top_k : Z) (i j : nat) :
  In i (top_indices argsort scores top_k) ->
  (j < List.length scores)%nat ->
  ~ In j (top_indices argsort scores top_k) ->
  ascending scores j i.
Proof.
  unfold top_indices.
  destruct (slice_from_skipn (- top_k) (argsort scores)) as [n ->].
  intros Hi Hj Hnj. apply in_rev in Hi.
  assert (Hin : In j (argsort scores)).
  { eapply Permutation_in; [symmetry; apply argsort_sorts|].
    apply in_seq. lia. }
  rewrite <- (firstn_skipn n (argsort scores)) in Hin.
  apply in_app_or in Hin as [Hin | Hin].
  - destruct (argsort_sorts scores) as [_ Hs].
    rewrite <- (firstn_skipn n (argsort scores)) in Hs.
    apply StronglySorted_app_inv in Hs as (_ & _ & Hs). now apply Hs.
  - elim Hnj. now apply in_rev in Hin.
Qed.

(** With [top_k] zero, or at least the number of scores, the slice keeps
    the whole array: [[-0:]] starts at the first element. *)
Lemma top_indices_whole (scores : list R) (top_k : Z) :
  (top_k = 0 \/ Z.of_nat (List.length scores) <= top_k)%Z ->
  top_indices argsort scores top_k = rev (argsort scores).
Proof.
  intros Hk. unfold top_indices, slice_from.
  assert (Hlen : List.length (argsort scores) = List.length scores).
  { rewrite (Permutation_length (proj1 (argsort_sorts scores))).
    apply length_seq. }
  rewrite Hlen.
  replace (Z.to_nat _) with 0%nat; [reflexivity|].
  destruct (Z.ltb_spec (- top_k) 0); lia.
Qed.

Lemma top_indices_all (scores : list R) (top_k : Z) (j : nat) :
  (top_k = 0 \/ Z.of_nat (List.length scores) <= top_k)%Z ->
  (j < List.length scores)%nat ->
  In j (top_indices argsort scores top_k).
Proof.
  intros Hk Hj. rewrite top_indices_whole by exact Hk.
  apply in_rev. rewrite rev_involutive.
  eapply Permutation_in; [symmetry; apply argsort_sorts|].
  apply in_seq. lia.
Qed.

(** The indices returned for such a [top_k] are those of the scores above
    zero. *)
Lemma hits_whole (scores : list R) (top_k : Z) (j : nat) :
  (top_k = 0 \/ Z.of_nat (List.length scores) <= top_k)%Z ->
  In j (hits argsort scores top_k) <-> 0 < score_at scores j.
Proof.
  intros Hk. unfold hits. rewrite filter_In, is_hit_true.
  split; [now intros [_ H]|]. intros H. split; [|exact H].
  apply top_indices_all; [exact Hk|].
  destruct (Nat.lt_ge_cases j (List.length scores)) as [Hlt|Hge];
    [exact Hlt|].
  unfold score_at in H. rewrite nth_overflow in H by exact Hge. lra.
Qed.

End Top.

Lemma hits_positive (argsort : list R -> list nat) (scores : list R)
  (top_k : Z) :
  Forall (fun idx => 0 < score_at scores idx) (hits argsort scores top_k).
Proof.
  apply Forall_forall. intros idx H. apply filter_In in H as [_ H].
  unfold is_hit in H. now destruct (Rlt_dec 0 (score_at scores idx)).
Qed.

Lemma hits_length (argsort : list R -> list nat) (scores : list R)
  (top_k : Z) :
  (0 < top_k)%Z ->
  (Z.of_nat (List.length (hits argsort scores top_k)) <= top_k)%Z.
Proof.
  intros H. unfold hits, top_indices.
  pose proof (filter_length_le (is_hit scores)
                (rev (slice_from (- top_k) (argsort scores)))) as Hf.
  rewrite length_rev in Hf.
  pose proof (slice_from_length (argsort scores) H). lia.
Qed.

(** The loop of [search] returns the entries of the indices that pass the
    test, as long as each of them has an id. *)
Lemma collect_entries (doc_ids : list value) (scores : list R)
  (top_idx : list nat) :
  Forall (fun idx => is_hit scores idx = true ->
                     (idx < List.length doc_ids)%nat) top_idx ->
  collect doc_ids scores top_idx
  = Ok (map (entry doc_ids scores) (filter (is_hit scores) top_idx)).
Proof.
  induction 1 as [|idx rest Hidx Hrest IH]; [reflexivity|].
  cbn [collect filter]. unfold is_hit in *.
  destruct (Rlt_dec 0 (score_at scores idx)) as [Hpos|Hneg].
  - destruct (nth_error doc_ids idx) as [doc_id|] eqn:E.
    + rewrite IH. cbn [bind map]. unfold entry at 2.
      now rewrite (nth_error_nth _ _ PyNone E).
    + apply nth_error_None in E. specialize (Hidx eq_refl). lia.
  - exact IH.
Qed.

(** No score above zero: the loop returns nothing, whatever the ids. *)
Lemma collect_no_hit (doc_ids : list value) (scores : list R)
  (top_idx : list nat) :
  Forall (fun s => ~ 0 < s) scores ->
  collect doc_ids scores top_idx = Ok [].
Proof.
  intros Hs. induction top_idx as [|idx rest IH]; [reflexivity|].
  cbn [collect].
  destruct (Rlt_dec 0 (score_at scores idx)) as [Hpos|Hneg]; [|exact IH].
  exfalso. unfold score_at in Hpos.
  destruct (nth_in_or_default idx scores 0) as [Hin | Hd].
  - rewrite Forall_forall in Hs. now apply (Hs _ Hin).
  - rewrite Hd in Hpos. lra.
Qed.

(** ** The scoring object *)

Lemma dict_set_nonempty {V : Type} (d : dict V) (k : string) (v : V) :
  dict_set d k v <> [].
Proof.
  destruct d as [|[k' v'] r]; cbn [dict_set]; [discriminate|].
  destruct (k' =? k)%string; discriminate.
Qed.

Lemma count_word_nonempty (frequencies : dict nat) (word : string) :
  count_word frequencies word <> [].
Proof.
  unfold count_word.
  destruct (dict_get frequencies word) as [n|] eqn:E.
  - rewrite E. apply dict_set_nonempty.
  - destruct (dict_get (dict_set frequencies word 0%nat) word);
      apply dict_set_nonempty.
Qed.

Lemma fold_nonempty {A B : Type} (f : list A -> B -> list A) (l : list B) :
  (forall acc x, f acc x <> []) ->
  forall acc, acc <> [] \/ l <> [] -> fold_left f l acc <> [].
Proof.
  intros Hf. induction l as [|x l IH]; intros acc H; cbn [fold_left].
  - now destruct H.
  - apply IH. left. apply Hf.
Qed.

Lemma word_frequencies_nonempty (document : list string) :
  document <> [] -> word_frequencies document <> [].
Proof.
  intros H. apply fold_nonempty; [apply count_word_nonempty | now right].
Qed.

Lemma count_doc_nonempty (nd : dict nat) (entry : string * nat) :
  count_doc nd entry <> [].
Proof.
  unfold count_doc. destruct (dict_get nd (fst entry));
    apply dict_set_nonempty.
Qed.

Lemma init_step_nd (st : init_state) (document : list string) :
  st_nd st <> [] \/ document <> [] -> st_nd (init_step st document) <> [].
Proof.
  intros H. cbn [init_step st_nd].
  apply fold_nonempty; [apply count_doc_nonempty|].
  destruct H as [H|H]; [now left | right].
  now apply word_frequencies_nonempty.
Qed.

Lemma init_step_nd_empty (st : init_state) :
  st_nd (init_step st []) = st_nd st.
Proof. reflexivity. Qed.

Lemma initialize_from (corpus : list (list string)) :
  forall st,
    let st' := fold_left init_step corpus st in
    st_corpus_size st' = (st_corpus_size st + List.length corpus)%nat
    /\ List.length (st_doc_len st')
       = (List.length (st_doc_len st) + List.length corpus)%nat
    /\ List.length (st_doc_freqs st')
       = (List.length (st_doc_freqs st) + List.length corpus)%nat
    /\ (st_nd st <> [] \/ has_token corpus = true -> st_nd st' <> [])
    /\ (st_nd st = [] -> has_token corpus = false -> st_nd st' = []).
Proof.
  induction corpus as [|document corpus IH]; intros st; cbn [fold_left].
  - cbn. repeat split; try lia.
    + intros [H|H]; [exact H | discriminate].
    + auto.
  - destruct (IH (init_step st document)) as (H1 & H2 & H3 & H4 & H5).
    cbn zeta. rewrite H1, H2, H3.
    cbn [init_step st_corpus_size st_doc_len st_doc_freqs List.length].
    rewrite !length_app. cbn [List.length].
    repeat split; try lia.
    + intros H. apply H4. cbn [has_token existsb] in H.
      destruct document as [|word document].
      * cbn in H. destruct H as [H|H]; [left | now right].
        now rewrite init_step_nd_empty.
      * left. apply init_step_nd. right. discriminate.
    + intros Hnd H. cbn [has_token existsb] in H.
      apply orb_false_iff in H as [Hd Hc].
      destruct document as [|word document]; [|discriminate].
      apply H5; [|exact Hc]. now rewrite init_step_nd_empty.
Qed.

Lemma calc_idf_from (n : nat) (nd : dict nat) :
  forall st,
    (st_idf st <> [] \/ nd <> [] ->
     st_idf (fold_left (idf_step n) nd st) <> [])
    /\ (nd = [] -> fold_left (idf_step n) nd st = st).
Proof.
  induction nd as [|[word freq] nd IH]; intros st; cbn [fold_left].
  - split; [intros [H|H]; [exact H | now elim H] | reflexivity].
  - split; [|discriminate].
    intros _. apply IH. left. cbn [idf_step st_idf]. apply dict_set_nonempty.
Qed.

(** The constructor returns exactly when some document has a token; what
    stops it otherwise is one of its two divisions. *)
Lemma BM25Okapi_returns (corpus : list (list string)) (k1 b : R) :
  has_token corpus = true -> exists bm, BM25Okapi corpus k1 b = Ok bm.
Proof.
  intros H. unfold BM25Okapi, initialize.
  destruct (initialize_from corpus init_start) as (H1 & _ & _ & H4 & _).
  cbn zeta in *.
  assert (Hn : st_corpus_size (fold_left init_step corpus init_start) <> 0%nat).
  { rewrite H1. destruct corpus; [discriminate | cbn; lia]. }
  destruct (st_corpus_size (fold_left init_step corpus init_start)) as [|n] eqn:En;
    [contradiction|].
  cbn [py_div bind].
  set (ist := calc_idf_loop _ _).
  assert (Hi : st_idf ist <> []).
  { apply calc_idf_from. right. apply H4. now right. }
  destruct (st_idf ist) as [|e r] eqn:Ei; [contradiction|].
  cbn [List.length py_div bind]. eauto.
Qed.

Lemma BM25Okapi_raises (corpus : list (list string)) (k1 b : R) :
  has_token corpus = false -> BM25Okapi corpus k1 b = Raise ZeroDivisionError.
Proof.
  intros H. unfold BM25Okapi, initialize.
  destruct (initialize_from corpus init_start) as (_ & _ & _ & _ & H5).
  cbn zeta in *. specialize (H5 eq_refl H).
  destruct (st_corpus_size (fold_left init_step corpus init_start));
    [reflexivity|].
  cbn [py_div bind]. rewrite H5. reflexivity.
Qed.

Lemma BM25Okapi_inv (corpus : list (list string)) (k1' b' : R)
  (bm : BM25Okapi_obj) :
  BM25Okapi corpus k1' b' = Ok bm ->
  k1 bm = k1' /\ b bm = b'
  /\ corpus_size bm = List.length corpus
  /\ List.length (doc_freqs bm) = List.length corpus
  /\ List.length (doc_len bm) = List.length corpus.
Proof.
  unfold BM25Okapi, initialize.
  destruct (initialize_from corpus init_start) as (H1 & H2 & H3 & _).
  cbn zeta in *.
  destruct (py_div _ _) as [avg|e]; [|discriminate].
  cbn [bind]. destruct (py_div _ _) as [avg_idf|e]; [|discriminate].
  cbn [bind]. intros [= <-]. cbn. auto.
Qed.

Lemma array_add_length (x y : list R) :
  List.length (array_add x y) = Nat.min (List.length x) (List.length y).
Proof. unfold array_add. now rewrite length_map, length_combine. Qed.

Lemma get_scores_length (bm : BM25Okapi_obj) (query : list string) :
  (List.length (get_scores bm query) <= corpus_size bm)%nat.
Proof.
  unfold get_scores.
  assert (H : forall score,
             (List.length (fold_left (fun score q =>
                 array_add score (term_scores bm q)) query score)
              <= List.length score)%nat).
  { induction query as [|q query IH]; intros score; cbn [fold_left]; [lia|].
    etransitivity; [apply IH|]. rewrite array_add_length. lia. }
  etransitivity; [apply H|]. now rewrite repeat_length.
Qed.

(** In a persisted index every index that [argsort] can return has an
    id. *)
Lemma persisted_ids (data : IndexData) (query : list string) :
  persisted data ->
  (List.length (get_scores (bm25 data) query)
   <= List.length (doc_ids data))%nat.
Proof.
  intros [(k1' & b' & Hbm) Hlen].
  apply BM25Okapi_inv in Hbm as (_ & _ & Hn & _).
  pose proof (get_scores_length (bm25 data) query). lia.
Qed.

Lemma search_index_entries (argsort : list R -> list nat)
  (data : IndexData) (query : string) (top_k : Z) :
  sorts_ascending argsort ->
  persisted data ->
  let scores := get_scores (bm25 data) (preprocess_text query) in
  search_index argsort data query top_k
  = Ok (map (entry (doc_ids data) scores) (hits argsort scores top_k)).
Proof.
  intros Hs Hp scores. unfold search_index. fold scores.
  apply collect_entries.
  eapply Forall_impl; [|apply (top_indices_bound Hs)].
  intros idx Hidx _. pose proof (persisted_ids (preprocess_text query) Hp).
  unfold scores in Hidx. lia.
Qed.

(** ** The two sample indexes *)

Lemma idf_step_negative (n : nat) (st : idf_state) (word : string)
  (freq : nat) :
  raw_idf n freq < 0 ->
  idf_step n st (word, freq)
  = {| st_idf := dict_set (st_idf st) word (raw_idf n freq);
       st_idf_sum := st_idf_sum st + raw_idf n freq;
       st_negative_idfs := st_negative_idfs st ++ [word] |}.
Proof.
  intros H. unfold idf_step. now destruct (Rlt_dec (raw_idf n freq) 0).
Qed.

Lemma idf_step_other (n : nat) (st : idf_state) (word : string)
  (freq : nat) :
  0 <= raw_idf n freq ->
  idf_step n st (word, freq)
  = {| st_idf := dict_set (st_idf st) word (raw_idf n freq);
       st_idf_sum := st_idf_sum st + raw_idf n freq;
       st_negative_idfs := st_negative_idfs st |}.
Proof.
  intros H. unfold idf_step.
  destruct (Rlt_dec (raw_idf n freq) 0); [lra | reflexivity].
Qed.

Lemma raw_idf_half (n : nat) : raw_idf (n + n) n = 0.
Proof. unfold raw_idf. replace (n + n - n)%nat with n by lia. lra. Qed.

Lemma raw_idf_sign (n freq : nat) :
  (freq <= n)%nat ->
  ((freq + freq < n)%nat -> 0 < raw_idf n freq)
  /\ ((n < freq + freq)%nat -> raw_idf n freq < 0).
Proof.
  intros Hle. unfold raw_idf.
  assert (Hpos : forall k, 0 < INR k + 0.5).
  { intros k. pose proof (pos_INR k). lra. }
  split; intros H.
  - apply Rlt_0_minus, ln_increasing; [apply Hpos|].
    apply Rplus_lt_compat_r, lt_INR. lia.
  - apply Rlt_minus, ln_increasing; [apply Hpos|].
    apply Rplus_lt_compat_r, lt_INR. lia.
Qed.

Lemma raw_idf_nonneg (n freq : nat) :
  (freq + freq <= n)%nat -> 0 <= raw_idf n freq.
Proof.
  intros H. destruct (Nat.eq_dec (freq + freq) n) as [<-|Hne].
  - rewrite raw_idf_half. lra.
  - left. apply raw_idf_sign; lia.
Qed.

Ltac idf_steps :=
  repeat match goal with
    | |- context [idf_step ?n ?st (?w, ?f)] =>
        first [ rewrite (@idf_step_negative n st w f)
                  by (apply raw_idf_sign; lia)
              | rewrite (@idf_step_other n st w f)
                  by (apply raw_idf_nonneg; lia) ]
    end.

Lemma cat_tokens :
  map msg_tokens cat_docs = tokenized_corpus cat_index.
Proof. vm_compute. reflexivity. Qed.

Lemma BM25Okapi_cat :
  BM25Okapi (tokenized_corpus cat_index) 1.2 0.75 = Ok cat_bm25.
Proof.
  unfold BM25Okapi. set (st := initialize _). vm_compute in st. subst st.
  cbn [st_num_doc st_corpus_size st_nd st_doc_freqs st_doc_len py_div bind].
  unfold calc_idf_loop. cbn [fold_left]. idf_steps.
  cbn [st_idf st_idf_sum st_negative_idfs dict_set app fold_left
       String.eqb Ascii.eqb Bool.eqb List.length py_div bind].

  reflexivity.
Qed.

Lemma tie_tokens :
  map msg_tokens tie_docs = tokenized_corpus tie_index.
Proof. vm_compute. reflexivity. Qed.

Lemma BM25Okapi_tie :
  BM25Okapi (tokenized_corpus tie_index) 1.2 0.75 = Ok tie_bm25.
Proof.
  unfold BM25Okapi. set (st := initialize _). vm_compute in st. subst st.
  cbn [st_num_doc st_corpus_size st_nd st_doc_freqs st_doc_len py_div bind].
  unfold calc_idf_loop. cbn [fold_left]. idf_steps.
  cbn [st_idf st_idf_sum st_negative_idfs dict_set app fold_left
       String.eqb Ascii.eqb Bool.eqb List.length py_div bind].
  reflexivity.
Qed.

Lemma term_weight_zero (k1 b avgdl : R) (doc_len : nat) :
  term_weight k1 b avgdl 0 doc_len = 0.
Proof. unfold term_weight, Rdiv. cbn [INR]. ring. Qed.

Lemma term_weight_cat : term_weight 1.2 0.75 (INR 6 / INR 2) 1 3 = 1.
Proof. unfold term_weight. cbn [INR]. field; repeat split; lra. Qed.

Lemma term_weight_tie : term_weight 1.2 0.75 (INR 5 / INR 5) 1 1 = 1.
Proof. unfold term_weight. cbn [INR]. field; repeat split; lra. Qed.

Ltac eval_scores :=
  unfold get_scores, term_scores, array_add;
  cbn [fold_left repeat map combine fst snd corpus_size doc_freqs doc_len
       idf k1 b avgdl dict_get or_zero or_zero_nat
       String.eqb Ascii.eqb Bool.eqb cat_bm25 tie_bm25].

Ltac same_list :=
  repeat (apply (f_equal2 (@cons R)); [lra|]); reflexivity.

Lemma cat_scores_cat : get_scores cat_bm25 ["cat"] = [0; 0].
Proof.
  eval_scores.
  rewrite term_weight_cat, term_weight_zero, (raw_idf_half 1 : raw_idf 2 1 = 0).
  same_list.
Qed.

Lemma cat_average_idf_negative : cat_average_idf < 0.
Proof.
  unfold cat_average_idf.
  rewrite (raw_idf_half 1 : raw_idf 2 1 = 0).
  assert (H : raw_idf 2 2 < 0) by (apply raw_idf_sign; lia).
  cbn [INR]. lra.
Qed.

Lemma cat_scores_the :
  get_scores cat_bm25 ["the"]
  = [0.25 * cat_average_idf; 0.25 * cat_average_idf].
Proof.
  eval_scores. rewrite term_weight_cat. same_list.
Qed.

Lemma cat_scores_zebra : get_scores cat_bm25 ["zebra"] = [0; 0].
Proof.
  eval_scores. same_list.
Qed.

Lemma tie_scores_x :
  get_scores tie_bm25 ["x"] = [raw_idf 5 2; raw_idf 5 2; 0; 0; 0].
Proof.
  eval_scores. rewrite term_weight_tie, term_weight_zero.
  same_list.
Qed.

Lemma raw_idf_5_2_positive : 0 < raw_idf 5 2.
Proof. apply raw_idf_sign; lia. Qed.

(** With two equal scores above three zeros, [argsort_stable] puts the
    second of the equal documents last, so the ranking lists it first;
    [argsort_backward] puts the first of them last. *)
Lemma argsort_stable_tie (s : R) :
  0 < s -> argsort_stable [s; s; 0; 0; 0] = [2; 3; 4; 0; 1]%nat.
Proof.
  intros Hs. unfold argsort_stable.
  cbn [List.length seq fold_left insert_idx score_at nth].
  repeat (destruct (Rlt_dec _ _); try lra;
          cbn [insert_idx score_at nth]).
  reflexivity.
Qed.

Lemma argsort_backward_tie (s : R) :
  0 < s -> argsort_backward [s; s; 0; 0; 0] = [4; 3; 2; 1; 0]%nat.
Proof.
  intros Hs. unfold argsort_backward.
  cbn [List.length seq fold_left insert_idx_first score_at nth].
  repeat (destruct (Rle_dec _ _); try lra;
          cbn [insert_idx_first score_at nth]).
  reflexivity.
Qed.

Lemma hits_tie (s : R) :
  0 < s ->
  hits argsort_stable [s; s; 0; 0; 0] 50 = [1; 0]%nat
  /\ hits argsort_stable [s; s; 0; 0; 0] 1 = [1]%nat
  /\ hits argsort_stable [s; s; 0; 0; 0] 0 = [1; 0]%nat
  /\ hits argsort_backward [s; s; 0; 0; 0] 50 = [0; 1]%nat.
Proof.
  intros Hs. unfold hits, top_indices.
  rewrite (argsort_stable_tie Hs), (argsort_backward_tie Hs).
  change (rev (slice_from (Z.opp 50) [2; 3; 4; 0; 1]%nat))
    with [1; 0; 4; 3; 2]%nat.
  change (rev (slice_from (Z.opp 1) [2; 3; 4; 0; 1]%nat)) with [1]%nat.
  change (rev (slice_from (Z.opp 0) [2; 3; 4; 0; 1]%nat))
    with [1; 0; 4; 3; 2]%nat.
  change (rev (slice_from (Z.opp 50) [4; 3; 2; 1; 0]%nat))
    with [0; 1; 2; 3; 4]%nat.
  unfold is_hit. cbn [filter score_at nth].
  repeat (destruct (Rlt_dec _ _); try lra).
  auto.
Qed.

(** ** [build_index] and [add_documents] *)

Lemma build_index_returns (w : world) (corpus_json_path index_path : string)
  (k1 b : R) (data : option (list Msg)) (bm : BM25Okapi_obj) :
  fs w corpus_json_path = Some (CorpusJson data) ->
  BM25Okapi (map msg_tokens (get_docs data)) k1 b = Ok bm ->
  has_dirname index_path = true ->
  build_index w corpus_json_path index_path k1 b
  = ({| fs := write_file (fs w) index_path
                (IndexPickle
                   {| bm25 := bm; doc_ids := map doc_id (get_docs data);
                      tokenized_corpus := map msg_tokens (get_docs data) |});
        stderr := stderr w |},
     Ok (List.length (get_docs data), List.length (get_docs data))).
Proof.
  intros Hfile Hbm Hdir. unfold build_index, makedirs_dirname.
  rewrite Hfile, Hbm, Hdir. now rewrite length_map.
Qed.

Lemma build_index_inv (w : world) (corpus_json_path index_path : string)
  (k1 b : R) (w' : world) (r : nat * nat) :
  build_index w corpus_json_path index_path k1 b = (w', Ok r) ->
  exists data bm,
    fs w corpus_json_path = Some (CorpusJson data)
    /\ BM25Okapi (map msg_tokens (get_docs data)) k1 b = Ok bm
    /\ has_dirname index_path = true
    /\ fs w' index_path
       = Some (IndexPickle
                 {| bm25 := bm; doc_ids := map doc_id (get_docs data);
                    tokenized_corpus := map msg_tokens (get_docs data) |})
    /\ r = (List.length (get_docs data), List.length (get_docs data)).
Proof.
  unfold build_index, makedirs_dirname.
  destruct (fs w corpus_json_path) as [[data|data]|] eqn:Hfile;
    try discriminate.
  destruct (BM25Okapi _ k1 b) as [bm|e] eqn:Hbm; [|discriminate].
  destruct (has_dirname index_path) eqn:Hdir; [|discriminate].
  intros [= <- <-]. exists data, bm.
  split; [reflexivity|]. split; [exact Hbm|]. split; [reflexivity|].
  split.
  - cbn [fs]. unfold write_file. now rewrite String.eqb_refl.
  - now rewrite length_map.
Qed.

Lemma add_documents_returns (w : world) (index_path : string)
  (docs : list Msg) (k1 b : R) (rebuild_threshold : Z)
  (bm : BM25Okapi_obj) :
  (forall data, fs w index_path <> Some (CorpusJson data)) ->
  BM25Okapi (prior_corpus w index_path ++ map msg_tokens docs) k1 b = Ok bm ->
  exists err,
    add_documents w index_path docs k1 b rebuild_threshold
    = ({| fs := write_file (fs w) index_path
                  (IndexPickle
                     {| bm25 := bm;
                        doc_ids := prior_ids w index_path ++ map new_id docs;
                        tokenized_corpus :=
                          prior_corpus w index_path ++ map msg_tokens docs |});
          stderr := err |},
       Ok (List.length docs)).
Proof.
  intros Hfile Hbm. unfold add_documents, prior_ids, prior_corpus in *.
  destruct (fs w index_path) as [[data|data]|];
    [now elim (Hfile data) | |];
    rewrite Hbm, length_map; eauto.
Qed.

Lemma add_documents_inv (w : world) (index_path : string)
  (docs : list Msg) (k1 b : R) (rebuild_threshold : Z) (w' : world)
  (n : nat) :
  add_documents w index_path docs k1 b rebuild_threshold = (w', Ok n) ->
  exists bm,
    BM25Okapi (prior_corpus w index_path ++ map msg_tokens docs) k1 b = Ok bm
    /\ fs w' index_path
       = Some (IndexPickle
                 {| bm25 := bm;
                    doc_ids := prior_ids w index_path ++ map new_id docs;
                    tokenized_corpus :=
                      prior_corpus w index_path ++ map msg_tokens docs |})
    /\ n = List.length docs.
Proof.
  unfold add_documents, prior_ids, prior_corpus.
  destruct (fs w index_path) as [[data|data]|]; [discriminate | |];
    (destruct (BM25Okapi _ k1 b) as [bm|e] eqn:Hbm; [|discriminate]);
    intros [= <- <-]; exists bm; cbn [fs]; unfold write_file;
    rewrite String.eqb_refl, length_map; auto.
Qed.

Lemma indexed_world_index (docs : list Msg) (data : IndexData) :
  fs (indexed_world docs data) "data/index.pkl" = Some (IndexPickle data).
Proof. reflexivity. Qed.

Lemma build_index_cat :
  build_index (corpus_world cat_docs) "data/corpus.json" "data/index.pkl"
    1.2 0.75
  = (indexed_world cat_docs cat_index, Ok (2%nat, 2%nat)).
Proof.
  erewrite build_index_returns;
    [ | reflexivity | cbn [get_docs]; rewrite cat_tokens; apply BM25Okapi_cat
      | reflexivity ].
  cbn [get_docs]. rewrite cat_tokens. reflexivity.
Qed.

Lemma build_index_tie :
  build_index (corpus_world tie_docs) "data/corpus.json" "data/index.pkl"
    1.2 0.75
  = (indexed_world tie_docs tie_index, Ok (5%nat, 5%nat)).
Proof.
  erewrite build_index_returns;
    [ | reflexivity | cbn [get_docs]; rewrite tie_tokens; apply BM25Okapi_tie
      | reflexivity ].
  cbn [get_docs]. rewrite tie_tokens. reflexivity.
Qed.

Lemma persisted_cat : persisted cat_index.
Proof.
  split; [|reflexivity]. exists 1.2, 0.75. apply BM25Okapi_cat.
Qed.

Lemma persisted_tie : persisted tie_index.
Proof.
  split; [|reflexivity]. exists 1.2, 0.75. apply BM25Okapi_tie.
Qed.

(** ** [search] *)

Lemma search_index_no_hit (argsort : list R -> list nat)
  (data : IndexData) (query : string) (top_k : Z) :
  Forall (fun s => ~ 0 < s) (get_scores (bm25 data) (preprocess_text query)) ->
  search_index argsort data query top_k = Ok [].
Proof. intros H. unfold search_index. now apply collect_no_hit. Qed.

Lemma get_scores_no_token (bm : BM25Okapi_obj) :
  get_scores bm [] = repeat 0 (corpus_size bm).
Proof. reflexivity. Qed.

Lemma entries_positive (argsort : list R -> list nat) (ids : list value)
  (scores : list R) (top_k : Z) :
  Forall (fun e : value * R => 0 < snd e)
    (map (entry ids scores) (hits argsort scores top_k)).
Proof.
  apply Forall_map. eapply Forall_impl; [|apply hits_positive].
  now intros idx H.
Qed.

Lemma entries_sorted (argsort : list R -> list nat) (ids : list value)
  (scores : list R) (top_k : Z) :
  sorts_ascending argsort ->
  StronglySorted (fun x y : value * R => snd y <= snd x)
    (map (entry ids scores) (hits argsort scores top_k)).
Proof.
  intros Hs. apply StronglySorted_map.
  eapply StronglySorted_weaken; [|apply (hits_sorted Hs)].
  intros i j H; cbn [entry snd]; exact H.
Qed.

(** For a positive [top_k], [search] in a persisted index returns at most
    [top_k] pairs, each with a score above zero. *)
Lemma search_index_bound (argsort : list R -> list nat) (data : IndexData)
  (query : string) (top_k : Z) :
  sorts_ascending argsort ->
  persisted data -> (0 < top_k)%Z ->
  exists out,
    search_index argsort data query top_k = Ok out
    /\ (Z.of_nat (List.length out) <= top_k)%Z
    /\ Forall (fun e => 0 < snd e) out.
Proof.
  intros Hs Hp Hk. eexists. split; [now apply search_index_entries|].
  split; [|apply entries_positive].
  rewrite length_map. now apply hits_length.
Qed.

Lemma query_cat : preprocess_text "cat" = ["cat"].
Proof. vm_compute. reflexivity. Qed.

Lemma query_the : preprocess_text "the" = ["the"].
Proof. vm_compute. reflexivity. Qed.

Lemma query_zebra : preprocess_text "zebra" = ["zebra"].
Proof. vm_compute. reflexivity. Qed.

Lemma query_x : preprocess_text "x" = ["x"].
Proof. vm_compute. reflexivity. Qed.

Lemma search_cat_index_cat (argsort : list R -> list nat) (top_k : Z) :
  search argsort (indexed_world cat_docs cat_index) "data/index.pkl" "cat"
    top_k
  = Ok [].
Proof.
  unfold search. rewrite indexed_world_index.
  apply search_index_no_hit. rewrite query_cat.
  cbn [bm25 cat_index]. rewrite cat_scores_cat.
  repeat constructor; lra.
Qed.

Lemma search_cat_index_the (argsort : list R -> list nat) (top_k : Z) :
  search argsort (indexed_world cat_docs cat_index) "data/index.pkl" "the"
    top_k
  = Ok [].
Proof.
  unfold search. rewrite indexed_world_index.
  apply search_index_no_hit. rewrite query_the.
  cbn [bm25 cat_index]. rewrite cat_scores_the.
  pose proof cat_average_idf_negative.
  repeat constructor; lra.
Qed.

Lemma search_cat_index_zebra (argsort : list R -> list nat) (top_k : Z) :
  search argsort (indexed_world cat_docs cat_index) "data/index.pkl" "zebra"
    top_k
  = Ok [].
Proof.
  unfold search. rewrite indexed_world_index.
  apply search_index_no_hit. rewrite query_zebra.
  cbn [bm25 cat_index]. rewrite cat_scores_zebra.
  repeat constructor; lra.
Qed.

Lemma search_tie_index_x (argsort : list R -> list nat) (top_k : Z) :
  sorts_ascending argsort ->
  search argsort (indexed_world tie_docs tie_index) "data/index.pkl" "x"
    top_k
  = Ok (map (entry (doc_ids tie_index) [raw_idf 5 2; raw_idf 5 2; 0; 0; 0])
          (hits argsort [raw_idf 5 2; raw_idf 5 2; 0; 0; 0] top_k)).
Proof.
  intros Hs. unfold search. rewrite indexed_world_index.
  rewrite (search_index_entries "x" top_k Hs persisted_tie).
  rewrite query_x. cbn [bm25 tie_index]. rewrite tie_scores_x. reflexivity.
Qed.

(** C1, as amended.  Built with [k1 = 1.2] and [b = 0.75], the corpus of
    the scenario gives no result for [cat], for [the] and for [zebra]: the
    idf of [cat], which is in one document of two, is 0, that of [the],
    which is in both, is negative, and [zebra] is unknown, so no score is
    above zero, whatever [argsort] does. *)
Theorem scenario_searches_are_empty (argsort : list R -> list nat) :
  build_index (corpus_world cat_docs) "data/corpus.json" "data/index.pkl"
    1.2 0.75
  = (indexed_world cat_docs cat_index, Ok (2%nat, 2%nat))
  /\ get_scores cat_bm25 (preprocess_text "cat") = [0; 0]
  /\ search argsort (indexed_world cat_docs cat_index) "data/index.pkl"
       "cat" 50
     = Ok []
  /\ search argsort (indexed_world cat_docs cat_index) "data/index.pkl"
       "the" 50
     = Ok []
  /\ search argsort (indexed_world cat_docs cat_index) "data/index.pkl"
       "zebra" 50
     = Ok [].
Proof.
  split; [apply build_index_cat|].
  split; [rewrite query_cat; apply cat_scores_cat|].
  split; [apply search_cat_index_cat|].
  split; [apply search_cat_index_the | apply search_cat_index_zebra].
Qed.

(** C1 fails as stated: the search for [cat] in the index built from the
    scenario does not return the document 1 with a score above zero. *)
Lemma scenario_cat_is_not_found :
  build_index (corpus_world cat_docs) "data/corpus.json" "data/index.pkl"
    1.2 0.75
  = (indexed_world cat_docs cat_index, Ok (2%nat, 2%nat))
  /\ ~ (exists argsort s,
          search argsort (indexed_world cat_docs cat_index) "data/index.pkl"
            "cat" 50
          = Ok [(PyStr "1", s)]
          /\ 0 < s).
Proof.
  split; [apply build_index_cat|].
  intros (argsort & s & H & _). rewrite search_cat_index_cat in H.
  discriminate.
Qed.

(** In a persisted index [search] returns the entries of the positions
    [hits]. *)
Lemma search_entries (argsort : list R -> list nat) (w : world)
  (index_path query : string) (top_k : Z) (data : IndexData) :
  sorts_ascending argsort ->
  fs w index_path = Some (IndexPickle data) ->
  persisted data ->
  let scores := get_scores (bm25 data) (preprocess_text query) in
  search argsort w index_path query top_k
  = Ok (map (entry (doc_ids data) scores) (hits argsort scores top_k)).
Proof.
  intros Hs Hfile Hp scores. unfold search. rewrite Hfile.
  now apply search_index_entries.
Qed.

(** C2 fails on the code in its second half.  The scores of the result
    never increase, whatever [np.argsort] does with equal scores.  But
    [search] has no step that orders equal scores: they come in the order
    in which [argsort] left them, reversed.  Of the two equal documents [a]
    and [b] of [tie_docs], indexed in this order, a stable [argsort] gives
    [b] before [a], and one that lists equal scores backwards gives [a]
    before [b]. *)
Theorem search_order_of_equal_scores :
  (forall argsort w index_path query top_k data,
      sorts_ascending argsort ->
      fs w index_path = Some (IndexPickle data) ->
      persisted data ->
      exists out,
        search argsort w index_path query top_k = Ok out
        /\ StronglySorted (fun x y => snd y <= snd x) out)
  /\ build_index (corpus_world tie_docs) "data/corpus.json" "data/index.pkl"
       1.2 0.75
     = (indexed_world tie_docs tie_index, Ok (5%nat, 5%nat))
  /\ nth_error (doc_ids tie_index) 0 = Some (PyStr "a")
  /\ nth_error (doc_ids tie_index) 1 = Some (PyStr "b")
  /\ sorts_ascending argsort_stable
  /\ search argsort_stable (indexed_world tie_docs tie_index)
       "data/index.pkl" "x" 50
     = Ok [(PyStr "b", raw_idf 5 2); (PyStr "a", raw_idf 5 2)]
  /\ sorts_ascending argsort_backward
  /\ search argsort_backward (indexed_world tie_docs tie_index)
       "data/index.pkl" "x" 50
     = Ok [(PyStr "a", raw_idf 5 2); (PyStr "b", raw_idf 5 2)].
Proof.
  split.
  { intros argsort w index_path query top_k data Hs Hfile Hp.
    eexists. split; [exact (@search_entries argsort w index_path query top_k data Hs Hfile Hp)|].
    now apply entries_sorted. }
  split; [apply build_index_tie|].
  split; [reflexivity|]. split; [reflexivity|].
  destruct (hits_tie raw_idf_5_2_positive) as (Hstable & _ & _ & Hback).
  split; [apply argsort_stable_sorts|].
  split.
  { rewrite (search_tie_index_x 50 argsort_stable_sorts), Hstable.
    reflexivity. }
  split; [apply argsort_backward_sorts|].
  rewrite (search_tie_index_x 50 argsort_backward_sorts), Hback.
  reflexivity.
Qed.

Lemma NoDup_two (l : list nat) (a b : nat) :
  NoDup l -> a <> b -> (forall j, In j l <-> j = a \/ j = b) ->
  Permutation l [a; b].
Proof.
  intros Hn Hab Hl. apply NoDup_Permutation; [exact Hn | |].
  - constructor; [intros [H|[]]; congruence|]. constructor; [intros []|].
    constructor.
  - intros j. rewrite Hl. cbn [In]. intuition.
Qed.

(** C3 fails at [top_k = 0], whatever [np.argsort] does with equal scores:
    the slice [[-0:]] is the whole array, so nothing is cut, and [search]
    returns an entry for every position with a score above zero.  In the
    index built from [tie_docs] these are two for the query [x], the
    documents [a] and [b]; for [top_k = 1] the search returns at most
    one. *)
Theorem search_top_k_zero (argsort : list R -> list nat) :
  sorts_ascending argsort ->
  (forall w index_path query data,
      fs w index_path = Some (IndexPickle data) ->
      persisted data ->
      let scores := get_scores (bm25 data) (preprocess_text query) in
      exists positions,
        search argsort w index_path query 0
        = Ok (map (entry (doc_ids data) scores) positions)
        /\ NoDup positions
        /\ forall j, In j positions <-> 0 < score_at scores j)
  /\ build_index (corpus_world tie_docs) "data/corpus.json" "data/index.pkl"
       1.2 0.75
     = (indexed_world tie_docs tie_index, Ok (5%nat, 5%nat))
  /\ 0 < raw_idf 5 2
  /\ (exists out,
        search argsort (indexed_world tie_docs tie_index) "data/index.pkl"
          "x" 0
        = Ok out
        /\ List.length out = 2%nat
        /\ In (PyStr "a", raw_idf 5 2) out
        /\ In (PyStr "b", raw_idf 5 2) out)
  /\ (exists out,
        search argsort (indexed_world tie_docs tie_index) "data/index.pkl"
          "x" 1
        = Ok out
        /\ (List.length out <= 1)%nat).
Proof.
  intros Hs. split.
  { intros w index_path query data Hfile Hp scores.
    exists (hits argsort scores 0).
    split; [exact (@search_entries argsort w index_path query 0 data Hs Hfile Hp)|].
    split; [now apply hits_NoDup|].
    intros j. apply hits_whole; [exact Hs | now left]. }
  split; [apply build_index_tie|].
  split; [apply raw_idf_5_2_positive|].
  pose proof raw_idf_5_2_positive as Hpos.
  set (scores := [raw_idf 5 2; raw_idf 5 2; 0; 0; 0]).
  split.
  - assert (Hperm : Permutation (hits argsort scores 0) [0; 1]%nat).
    { apply NoDup_two; [now apply hits_NoDup | discriminate |].
      intros j. rewrite (hits_whole Hs scores j (or_introl eq_refl)).
      unfold score_at, scores.
      destruct j as [|[|[|[|[|j]]]]]; cbn [nth];
        try (destruct j; cbn [nth]); split; intros H;
        try lra; try (destruct H; discriminate); auto. }
    exists (map (entry (doc_ids tie_index) scores) (hits argsort scores 0)).
    split; [now apply search_tie_index_x|].
    split; [now rewrite length_map, (Permutation_length Hperm)|].
    split; apply in_map_iff.
    + exists 0%nat. split; [reflexivity|].
      eapply Permutation_in; [symmetry; exact Hperm | now left].
    + exists 1%nat. split; [reflexivity|].
      eapply Permutation_in; [symmetry; exact Hperm | right; now left].
  - exists (map (entry (doc_ids tie_index) scores) (hits argsort scores 1)).
    split; [now apply search_tie_index_x|].
    rewrite length_map.
    pose proof (@hits_length argsort scores 1 eq_refl). lia.
Qed.

Lemma search_top_k_zero_witness :
  exists out,
    search argsort_stable (indexed_world tie_docs tie_index) "data/index.pkl"
      "x" 0
    = Ok out
    /\ List.length out = 2%nat.
Proof.
  destruct (search_top_k_zero argsort_stable_sorts)
    as (_ & _ & _ & (out & Hout & Hlen & _) & _).
  exists out. split; [exact Hout | exact Hlen].
Defined.

(** ** The store *)

Lemma BM25Okapi_raise_inv (corpus : list (list string)) (k1 b : R) (e : exn) :
  BM25Okapi corpus k1 b = Raise e -> e = ZeroDivisionError.
Proof.
  destruct (has_token corpus) eqn:H.
  - destruct (BM25Okapi_returns corpus k1 b H) as [bm ->]. discriminate.
  - rewrite (BM25Okapi_raises corpus k1 b H). now intros [= <-].
Qed.

Lemma persisted_intro (corpus : list (list string)) (k1 b : R)
  (bm : BM25Okapi_obj) (ids : list value) :
  BM25Okapi corpus k1 b = Ok bm ->
  List.length ids = List.length corpus ->
  persisted {| bm25 := bm; doc_ids := ids; tokenized_corpus := corpus |}.
Proof. intros Hbm Hlen. split; [now exists k1, b | exact Hlen]. Qed.

(** C4 fails on the code: over no document the constructor of the scoring
    object divides by the corpus size, so [build_index] on an empty corpus
    and [add_documents] of nothing to a missing index both raise, and no
    index is written. *)
Theorem empty_corpus_raises (k1 b : R) (rebuild_threshold : Z) :
  BM25Okapi [] k1 b = Raise ZeroDivisionError
  /\ build_index (corpus_world []) "data/corpus.json" "data/index.pkl" k1 b
     = (corpus_world [], Raise ZeroDivisionError)
  /\ add_documents empty_world "data/index.pkl" [] k1 b rebuild_threshold
     = ({| fs := no_files; stderr := [warning_no_index] |},
        Raise ZeroDivisionError).
Proof. repeat split. Qed.

(** C5.  When [build_index] returns, the file at [index_path] holds the ids
    and the tokens of the documents of the corpus, in their order, and a
    scoring object with the [k1] and [b] of the call; reading a file gives
    back what was written to it. *)
Theorem build_then_load (w : world) (corpus_json_path index_path : string)
  (k1' b' : R) (w' : world) (r : nat * nat) :
  build_index w corpus_json_path index_path k1' b' = (w', Ok r) ->
  exists data index,
    fs w corpus_json_path = Some (CorpusJson data)
    /\ fs w' index_path = Some (IndexPickle index)
    /\ doc_ids index = map doc_id (get_docs data)
    /\ tokenized_corpus index = map msg_tokens (get_docs data)
    /\ k1 (bm25 index) = k1'
    /\ b (bm25 index) = b'
    /\ BM25Okapi (tokenized_corpus index) k1' b' = Ok (bm25 index).
Proof.
  intros H. apply build_index_inv in H as (data & bm & Hf & Hbm & _ & Hw & _).
  exists data. eexists. split; [exact Hf|]. split; [exact Hw|].
  cbn [doc_ids tokenized_corpus bm25].
  destruct (BM25Okapi_inv _ _ _ Hbm) as (Hk & Hb & _). auto.
Qed.

Lemma build_then_load_witness :
  exists index,
    fs (indexed_world cat_docs cat_index) "data/index.pkl"
    = Some (IndexPickle index)
    /\ doc_ids index = [PyStr "1"; PyStr "2"]
    /\ tokenized_corpus index = [["the"; "cat"; "sat"]; ["the"; "dog"; "ran"]]
    /\ k1 (bm25 index) = 1.2
    /\ b (bm25 index) = 0.75.
Proof.
  destruct (@build_then_load _ _ _ _ _ _ _ build_index_cat)
    as (data & index & Hf & Hw & Hids & Htoks & Hk & Hb & _).
  injection Hf as <-. exists index.
  split; [exact Hw|]. split; [exact Hids|].
  split; [rewrite Htoks; exact cat_tokens|]. split; [exact Hk | exact Hb].
Defined.

(** C6.  An index written by [build_index] has one id and one token list
    for each document of the corpus, in the order of the corpus;
    [add_documents] writes the ids and token lists it found followed by
    those of the new documents, so ids and token lists that were as many
    before are as many after. *)
Theorem ids_and_corpus_in_lockstep :
  (forall w corpus_json_path index_path k1 b w' r,
      build_index w corpus_json_path index_path k1 b = (w', Ok r) ->
      exists data index,
        fs w corpus_json_path = Some (CorpusJson data)
        /\ fs w' index_path = Some (IndexPickle index)
        /\ doc_ids index = map doc_id (get_docs data)
        /\ tokenized_corpus index = map msg_tokens (get_docs data)
        /\ List.length (doc_ids index) = List.length (tokenized_corpus index)
        /\ persisted index)
  /\ (forall w index_path docs k1 b rebuild_threshold w' n,
         add_documents w index_path docs k1 b rebuild_threshold = (w', Ok n) ->
         exists index,
           fs w' index_path = Some (IndexPickle index)
           /\ doc_ids index = prior_ids w index_path ++ map new_id docs
           /\ tokenized_corpus index
              = prior_corpus w index_path ++ map msg_tokens docs
           /\ List.length (map new_id docs)
              = List.length (map msg_tokens docs)
           /\ (List.length (prior_ids w index_path)
               = List.length (prior_corpus w index_path) ->
               List.length (doc_ids index)
               = List.length (tokenized_corpus index)
               /\ persisted index)).
Proof.
  split.
  - intros w cp ip k1 b w' r H.
    apply build_index_inv in H as (data & bm & Hf & Hbm & _ & Hw & _).
    exists data. eexists. split; [exact Hf|]. split; [exact Hw|].
    cbn [doc_ids tokenized_corpus].
    split; [reflexivity|]. split; [reflexivity|].
    assert (Hlen : List.length (map doc_id (get_docs data))
                   = List.length (map msg_tokens (get_docs data)))
      by now rewrite !length_map.
    split; [exact Hlen|]. now apply persisted_intro with k1 b.
  - intros w ip docs k1 b t w' n H.
    apply add_documents_inv in H as (bm & Hbm & Hw & _).
    eexists. split; [exact Hw|]. cbn [doc_ids tokenized_corpus].
    split; [reflexivity|]. split; [reflexivity|].
    split; [now rewrite !length_map|].
    intros Hprior.
    assert (Hlen : List.length (prior_ids w ip ++ map new_id docs)
                   = List.length (prior_corpus w ip ++ map msg_tokens docs))
      by (rewrite !length_app, !length_map; lia).
    split; [exact Hlen|]. now apply persisted_intro with k1 b.
Qed.

Lemma ids_and_corpus_in_lockstep_witness :
  (exists index,
      fs (indexed_world cat_docs cat_index) "data/index.pkl"
      = Some (IndexPickle index)
      /\ List.length (doc_ids index) = List.length (tokenized_corpus index))
  /\ (exists w' index,
         fst (add_documents (indexed_world cat_docs cat_index)
                "data/index.pkl" [doc "3" "a bird sang"] 1.2 0.75 1000) = w'
         /\ fs w' "data/index.pkl" = Some (IndexPickle index)
         /\ doc_ids index = [PyStr "1"; PyStr "2"; PyStr "3"]
         /\ tokenized_corpus index
            = [["the"; "cat"; "sat"]; ["the"; "dog"; "ran"];
               ["a"; "bird"; "sang"]]).
Proof.
  split.
  - destruct (proj1 ids_and_corpus_in_lockstep _ _ _ _ _ _ _ build_index_cat)
      as (data & index & _ & Hw & _ & _ & Hlen & _).
    exists index. split; [exact Hw | exact Hlen].
  - destruct (BM25Okapi_returns
                (prior_corpus (indexed_world cat_docs cat_index)
                   "data/index.pkl"
                 ++ map msg_tokens [doc "3" "a bird sang"]) 1.2 0.75 eq_refl)
      as [bm Hbm].
    destruct (@add_documents_returns (indexed_world cat_docs cat_index)
                "data/index.pkl" [doc "3" "a bird sang"] 1.2 0.75 1000 bm)
      as [err Hadd]; [discriminate | exact Hbm |].
    destruct (proj2 ids_and_corpus_in_lockstep _ _ _ _ _ _ _ _ Hadd)
      as (index & Hw & Hids & Htoks & _).
    eexists. exists index. split; [reflexivity|].
    rewrite Hadd. cbn [fst]. split; [exact Hw|].
    split; [exact Hids|]. rewrite Htoks. vm_compute. reflexivity.
Defined.

Lemma makedirs_is_not_corpus_not_found (corpus_json_path : string) :
  FileNotFoundError "[Errno 2] No such file or directory: ''"
  <> CorpusNotFound corpus_json_path.
Proof. unfold CorpusNotFound. cbn [append]. discriminate. Qed.

(** [build_index] raises [CorpusNotFound] exactly when there is no file at
    the corpus path. *)
Lemma build_index_corpus_not_found (w : world)
  (corpus_json_path index_path : string) (k1 b : R) :
  snd (build_index w corpus_json_path index_path k1 b)
  = Raise (CorpusNotFound corpus_json_path)
  <-> fs w corpus_json_path = None.
Proof.
  unfold build_index, makedirs_dirname.
  destruct (fs w corpus_json_path) as [[data|data]|] eqn:Hfile;
    cbn [snd]; [| split; discriminate | split; reflexivity].
  destruct (BM25Okapi _ k1 b) as [bm|e] eqn:Hbm.
  - destruct (has_dirname index_path); cbn [snd]; split; try discriminate;
      intros [= H]; now apply makedirs_is_not_corpus_not_found in H.
  - apply BM25Okapi_raise_inv in Hbm as ->. cbn [snd]. split; discriminate.
Qed.

Lemma add_documents_missing (w : world) (index_path : string)
  (docs : list Msg) (k1 b : R) (rebuild_threshold : Z) :
  fs w index_path = None ->
  add_documents w index_path docs k1 b rebuild_threshold
  = match BM25Okapi (map msg_tokens docs) k1 b with
    | Raise e =>
        ({| fs := fs w; stderr := stderr w ++ [warning_no_index] |}, Raise e)
    | Ok bm =>
        ({| fs := write_file (fs w) index_path
                    (IndexPickle
                       {| bm25 := bm; doc_ids := map new_id docs;
                          tokenized_corpus := map msg_tokens docs |});
            stderr := stderr w ++ [warning_no_index] |},
         Ok (List.length docs))
    end.
Proof.
  intros H. unfold add_documents. rewrite H. cbn [app].
  destruct (BM25Okapi _ k1 b); [now rewrite length_map | reflexivity].
Qed.

(** C7 fails on the code in its last part.  Without a corpus file
    [build_index] raises [CorpusNotFound] and changes nothing, and it raises
    it in no other case; without an index file [search] returns the empty
    list, and [add_documents] writes the warning, raises no
    [FileNotFoundError] and goes on as it does from a stored index with no
    id and no document.  But it proceeds without error only when a new
    document has a token: then it returns their number and writes their ids
    and tokens.  When none has, and so when there is no new document at
    all, it raises [ZeroDivisionError] and writes no index. *)
Theorem missing_files :
  (forall w corpus_json_path index_path k1 b,
      (snd (build_index w corpus_json_path index_path k1 b)
       = Raise (CorpusNotFound corpus_json_path)
       <-> fs w corpus_json_path = None)
      /\ (fs w corpus_json_path = None ->
          build_index w corpus_json_path index_path k1 b
          = (w, Raise (CorpusNotFound corpus_json_path))))
  /\ (forall argsort w index_path query top_k,
         fs w index_path = None ->
         search argsort w index_path query top_k = Ok [])
  /\ (forall w index_path docs k1 b rebuild_threshold,
         fs w index_path = None ->
         let run := add_documents w index_path docs k1 b rebuild_threshold in
         stderr (fst run) = stderr w ++ [warning_no_index]
         /\ (forall message, snd run <> Raise (FileNotFoundError message))
         /\ (forall bm0,
                snd run
                = snd (add_documents
                         {| fs := write_file (fs w) index_path
                                    (IndexPickle
                                       {| bm25 := bm0; doc_ids := [];
                                          tokenized_corpus := [] |});
                            stderr := stderr w |}
                         index_path docs k1 b rebuild_threshold))
         /\ (has_token (map msg_tokens docs) = true ->
             exists bm,
               BM25Okapi (map msg_tokens docs) k1 b = Ok bm
               /\ run
                  = ({| fs := write_file (fs w) index_path
                              (IndexPickle
                                 {| bm25 := bm; doc_ids := map new_id docs;
                                    tokenized_corpus :=
                                      map msg_tokens docs |});
                        stderr := stderr w ++ [warning_no_index] |},
                     Ok (List.length docs)))
         /\ (has_token (map msg_tokens docs) = false ->
             run
             = ({| fs := fs w; stderr := stderr w ++ [warning_no_index] |},
                Raise ZeroDivisionError)))
  /\ add_documents empty_world "data/index.pkl" [] 1.2 0.75 1000
     = ({| fs := no_files; stderr := [warning_no_index] |},
        Raise ZeroDivisionError)
  /\ add_documents empty_world "data/index.pkl" [doc "1" "?!"] 1.2 0.75 1000
     = ({| fs := no_files; stderr := [warning_no_index] |},
        Raise ZeroDivisionError).
Proof.
  split; [|split; [|split; [|split]]].
  - intros w cp ip k1 b. split; [apply build_index_corpus_not_found|].
    intros H. unfold build_index. now rewrite H.
  - intros argsort w ip query top_k H. unfold search. now rewrite H.
  - intros w ip docs k1 b t H run. subst run.
    rewrite (@add_documents_missing w ip docs k1 b t H).
    split; [|split; [|split; [|split]]].
    + now destruct (BM25Okapi _ k1 b).
    + intros message. destruct (BM25Okapi _ k1 b) as [bm|e] eqn:Hbm;
        cbn [snd]; [discriminate|].
      apply BM25Okapi_raise_inv in Hbm as ->. discriminate.
    + intros bm0. unfold add_documents. cbn [fs]. unfold write_file.
      rewrite String.eqb_refl. cbn [doc_ids tokenized_corpus app].
      destruct (BM25Okapi _ k1 b); cbn [snd]; [now rewrite length_map|].
      reflexivity.
    + intros Htok. destruct (BM25Okapi_returns _ k1 b Htok) as [bm Hbm].
      exists bm. split; [exact Hbm|]. now rewrite Hbm.
    + intros Htok. now rewrite (BM25Okapi_raises _ k1 b Htok).
  - reflexivity.
  - rewrite (@add_documents_missing empty_world "data/index.pkl"
               [doc "1" "?!"] 1.2 0.75 1000 eq_refl).
    now rewrite (BM25Okapi_raises (map msg_tokens [doc "1" "?!"]) 1.2 0.75
                   eq_refl).
Qed.

Lemma missing_files_witness :
  build_index empty_world "data/corpus.json" "data/index.pkl" 1.2 0.75
  = (empty_world, Raise (CorpusNotFound "data/corpus.json"))
  /\ search argsort_stable empty_world "data/index.pkl" "cat" 50 = Ok []
  /\ stderr (fst (add_documents empty_world "data/index.pkl" cat_docs
                    1.2 0.75 1000))
     = [warning_no_index]
  /\ snd (add_documents empty_world "data/index.pkl" cat_docs 1.2 0.75 1000)
     = Ok 2%nat
  /\ snd (add_documents empty_world "data/index.pkl" [] 1.2 0.75 1000)
     = Raise ZeroDivisionError.
Proof.
  destruct missing_files as (Hbuild & Hsearch & Hadd & _).
  split; [apply (proj2 (Hbuild empty_world _ _ _ _)); reflexivity|].
  split; [apply Hsearch; reflexivity|].
  destruct (Hadd empty_world "data/index.pkl" cat_docs 1.2 0.75 1000%Z eq_refl)
    as (Herr & _ & _ & Hok & _).
  split; [exact Herr|].
  split; [destruct (Hok eq_refl) as (bm & _ & ->); reflexivity|].
  destruct (Hadd empty_world "data/index.pkl" [] 1.2 0.75 1000%Z eq_refl)
    as (_ & _ & _ & _ & Hraise).
  now rewrite (Hraise eq_refl).
Defined.

(** C9.  A query with no token leaves every score at zero, and [search]
    returns the empty list, whatever index is stored and whatever [argsort]
    does. *)
Theorem search_without_tokens (argsort : list R -> list nat) (w : world)
  (index_path query : string) (top_k : Z) (data : IndexData) :
  fs w index_path = Some (IndexPickle data) ->
  preprocess_text query = [] ->
  get_scores (bm25 data) (preprocess_text query)
  = repeat 0 (corpus_size (bm25 data))
  /\ search argsort w index_path query top_k = Ok [].
Proof.
  intros Hfile Hq. unfold search. rewrite Hfile.
  split; [now rewrite Hq|].
  apply search_index_no_hit. rewrite Hq, get_scores_no_token.
  apply Forall_forall. intros s Hs. apply repeat_spec in Hs. lra.
Qed.

Lemma search_without_tokens_witness :
  preprocess_text " ?! <@U7> https://a.io " = []
  /\ search argsort_stable (indexed_world cat_docs cat_index)
       "data/index.pkl" " ?! <@U7> https://a.io " 50
     = Ok [].
Proof.
  assert (Hq : preprocess_text " ?! <@U7> https://a.io " = [])
    by (vm_compute; reflexivity).
  split; [exact Hq|].
  apply (@search_without_tokens argsort_stable
           (indexed_world cat_docs cat_index)
           "data/index.pkl" " ?! <@U7> https://a.io " 50 cat_index
           eq_refl Hq).
Defined.

(** C10.  [add_documents] does not read [rebuild_threshold]: two calls that
    differ only there give the same world and the same result. *)
Theorem rebuild_threshold_is_unused (w : world) (index_path : string)
  (docs : list Msg) (k1 b : R) (threshold1 threshold2 : Z) :
  add_documents w index_path docs k1 b threshold1
  = add_documents w index_path docs k1 b threshold2.
Proof. reflexivity. Qed.

(** * Further properties *)

Unset Implicit Arguments.

(** ** Dictionaries and counts *)

Lemma dict_get_set_same {V : Type} (d : dict V) (k : string) (v : V) :
  dict_get (dict_set d k v) k = Some v.
Proof.
  induction d as [|[k' v'] r IH]; cbn [dict_set dict_get].
  - now rewrite String.eqb_refl.
  - destruct (String.eqb_spec k' k) as [->|Hne]; cbn [dict_get].
    + now rewrite String.eqb_refl.
    + destruct (String.eqb_spec k' k); [contradiction | exact IH].
Qed.

Lemma dict_get_set_other {V : Type} (d : dict V) (k k' : string) (v : V) :
  k <> k' -> dict_get (dict_set d k v) k' = dict_get d k'.
Proof.
  intros Hne. induction d as [|[k0 v0] r IH]; cbn [dict_set dict_get].
  - destruct (String.eqb_spec k k'); [contradiction | reflexivity].
  - destruct (String.eqb_spec k0 k) as [->|Hk]; cbn [dict_get].
    + destruct (String.eqb_spec k k'); [contradiction | reflexivity].
    + destruct (String.eqb_spec k0 k'); [reflexivity | exact IH].
Qed.

Lemma count_word_same (frequencies : dict nat) (word : string) :
  or_zero_nat (dict_get (count_word frequencies word) word)
  = S (or_zero_nat (dict_get frequencies word)).
Proof.
  unfold count_word.
  destruct (dict_get frequencies word) as [n|] eqn:E.
  - rewrite E, dict_get_set_same. cbn. lia.
  - rewrite dict_get_set_same, dict_get_set_same. reflexivity.
Qed.

Lemma count_word_other (frequencies : dict nat) (word q : string) :
  word <> q ->
  dict_get (count_word frequencies word) q = dict_get frequencies q.
Proof.
  intros Hne. unfold count_word.
  destruct (dict_get frequencies word) as [n|] eqn:E.
  - rewrite E. now apply dict_get_set_other.
  - rewrite dict_get_set_same.
    rewrite dict_get_set_other by assumption.
    now apply dict_get_set_other.
Qed.

Lemma fold_count_word (document : list string) (q : string) :
  forall frequencies,
    or_zero_nat (dict_get (fold_left count_word document frequencies) q)
    = (or_zero_nat (dict_get frequencies q)
       + count_occ string_dec document q)%nat.
Proof.
  induction document as [|word document IH]; intros frequencies;
    cbn [fold_left count_occ]; [lia|].
  rewrite IH. destruct (string_dec word q) as [->|Hne].
  - rewrite count_word_same. lia.
  - now rewrite count_word_other.
Qed.

(** The entry of a word in the frequencies of a document is the number of
    times the word occurs in it. *)
Lemma word_frequencies_count (document : list string) (q : string) :
  or_zero_nat (dict_get (word_frequencies document) q)
  = count_occ string_dec document q.
Proof. unfold word_frequencies. now rewrite fold_count_word. Qed.

Lemma initialize_lists (corpus : list (list string)) :
  forall st,
    st_doc_freqs (fold_left init_step corpus st)
    = st_doc_freqs st ++ map word_frequencies corpus
    /\ st_doc_len (fold_left init_step corpus st)
       = st_doc_len st ++ map (@List.length string) corpus.
Proof.
  induction corpus as [|document corpus IH]; intros st; cbn [fold_left map].
  - now rewrite !app_nil_r.
  - destruct (IH (init_step st document)) as [-> ->].
    cbn [init_step st_doc_freqs st_doc_len].
    now rewrite <- !app_assoc.
Qed.

Lemma BM25Okapi_lists (corpus : list (list string)) (k1' b' : R)
  (bm : BM25Okapi_obj) :
  BM25Okapi corpus k1' b' = Ok bm ->
  doc_freqs bm = map word_frequencies corpus
  /\ doc_len bm = map (@List.length string) corpus.
Proof.
  unfold BM25Okapi, initialize.
  destruct (initialize_lists corpus init_start) as [H1 H2].
  destruct (py_div _ _) as [avg|e]; [|discriminate].
  cbn [bind]. destruct (py_div _ _) as [avg_idf|e]; [|discriminate].
  cbn [bind]. intros [= <-]. cbn [doc_freqs doc_len]. auto.
Qed.

(** ** The scores *)

Lemma nth_combine {A B : Type} (x : list A) (y : list B) (i : nat)
  (dx : A) (dy : B) :
  (i < List.length x)%nat -> (i < List.length y)%nat ->
  nth i (combine x y) (dx, dy) = (nth i x dx, nth i y dy).
Proof.
  revert y i. induction x as [|a x IH]; intros [|c y] [|i] Hx Hy;
    cbn in *; try lia; [reflexivity|].
  apply IH; lia.
Qed.

Lemma score_at_array_add (x y : list R) (i : nat) :
  (i < List.length x)%nat -> (i < List.length y)%nat ->
  score_at (array_add x y) i = score_at x i + score_at y i.
Proof.
  intros Hx Hy. unfold score_at, array_add.
  rewrite (nth_indep _ 0 (fst (0, 0) + snd (0, 0)))
    by (rewrite length_map, length_combine; lia).
  rewrite (map_nth (fun p : R * R => fst p + snd p)).
  now rewrite nth_combine.
Qed.

Lemma term_scores_at (corpus : list (list string)) (k1' b' : R)
  (bm : BM25Okapi_obj) (q : string) :
  BM25Okapi corpus k1' b' = Ok bm ->
  List.length (term_scores bm q) = List.length corpus
  /\ forall i document,
       nth_error corpus i = Some document ->
       score_at (term_scores bm q) i = term_contribution bm document q.
Proof.
  intros Hbm. destruct (@BM25Okapi_lists corpus k1' b' bm Hbm) as [Hf Hl].
  unfold term_scores. rewrite Hf, Hl, map_map.
  split; [now rewrite length_map, length_combine, !length_map, Nat.min_id|].
  intros i document Hi.
  assert (Hlt : (i < List.length corpus)%nat)
    by (apply nth_error_Some; congruence).
  unfold score_at, term_contribution.
  set (f := fun fd : nat * nat => _).
  rewrite (nth_indep _ 0 (f (0%nat, 0%nat)))
    by (rewrite length_map, length_combine, !length_map; lia).
  rewrite (map_nth f), nth_combine by (rewrite length_map; lia).
  subst f. cbn [fst snd].
  rewrite (nth_indep _ 0%nat
             (or_zero_nat (dict_get (word_frequencies document) q)))
    by (rewrite length_map; lia).
  rewrite (map_nth (fun doc => or_zero_nat (dict_get (word_frequencies doc) q))).
  rewrite (nth_indep _ 0%nat (List.length document))
    by (rewrite length_map; lia).
  rewrite (map_nth (@List.length string)).
  rewrite (nth_error_nth _ _ document Hi).
  now rewrite word_frequencies_count.
Qed.

(** The score that [get_scores] gives a document is the sum of the
    contributions of the query tokens. *)
Lemma get_scores_at (corpus : list (list string)) (k1' b' : R)
  (bm : BM25Okapi_obj) (query : list string) :
  BM25Okapi corpus k1' b' = Ok bm ->
  List.length (get_scores bm query) = List.length corpus
  /\ forall i document,
       nth_error corpus i = Some document ->
       score_at (get_scores bm query) i = doc_score bm query document.
Proof.
  intros Hbm. unfold get_scores, doc_score.
  destruct (@BM25Okapi_inv corpus k1' b' bm Hbm) as (_ & _ & Hn & _). rewrite Hn.
  assert (H : forall score,
             List.length score = List.length corpus ->
             List.length (fold_left (fun score q =>
               array_add score (term_scores bm q)) query score)
             = List.length corpus
             /\ forall i document,
                  nth_error corpus i = Some document ->
                  score_at (fold_left (fun score q =>
                    array_add score (term_scores bm q)) query score) i
                  = fold_left (fun acc q =>
                      acc + term_contribution bm document q) query
                      (score_at score i)).
  { induction query as [|q query IH]; intros score Hlen; cbn [fold_left].
    - auto.
    - destruct (@term_scores_at corpus k1' b' bm q Hbm) as [Ht Hat].
      destruct (IH (array_add score (term_scores bm q))) as [IH1 IH2].
      { rewrite array_add_length, Hlen, Ht. apply Nat.min_id. }
      split; [exact IH1|]. intros i document Hi.
      rewrite (IH2 i document Hi).
      assert (Hlt : (i < List.length corpus)%nat)
        by (apply nth_error_Some; congruence).
      rewrite score_at_array_add by lia.
      now rewrite (Hat i document Hi). }
  destruct (H (repeat 0 (List.length corpus)) (repeat_length _ _)) as [H1 H2].
  split; [exact H1|]. intros i document Hi. rewrite (H2 i document Hi).
  f_equal. unfold score_at.
  assert (Hlt : (i < List.length corpus)%nat)
    by (apply nth_error_Some; congruence).
  now rewrite nth_repeat_lt.
Qed.

Lemma doc_score_no_token (bm : BM25Okapi_obj) (query document : list string) :
  (forall q, In q query -> ~ In q document) ->
  doc_score bm query document = 0.
Proof.
  unfold doc_score. generalize 0 as acc.
  induction query as [|q query IH]; intros acc H; cbn [fold_left];
    [reflexivity|].
  rewrite IH by (intros q' Hq'; apply H; now right).
  unfold term_contribution.
  rewrite (proj1 (count_occ_not_In string_dec document q))
    by (apply H; now left).
  rewrite term_weight_zero. lra.
Qed.

(** ** What [search] returns from a persisted index *)

Lemma search_positions (argsort : list R -> list nat) (w : world)
  (index_path query : string) (top_k : Z) (data : IndexData) :
  sorts_ascending argsort ->
  fs w index_path = Some (IndexPickle data) ->
  persisted data ->
  search argsort w index_path query top_k
  = Ok (map (entry (doc_ids data) (scores_of data query))
          (positions_of argsort data query top_k)).
Proof.
  intros Hs Hfile Hp.
  exact (@search_entries argsort w index_path query top_k data Hs Hfile Hp).
Qed.

Lemma persisted_scores (data : IndexData) (query : string) :
  persisted data ->
  List.length (scores_of data query) = List.length (tokenized_corpus data)
  /\ forall i document,
       nth_error (tokenized_corpus data) i = Some document ->
       score_at (scores_of data query) i
       = doc_score (bm25 data) (preprocess_text query) document.
Proof.
  intros [(k1' & b' & Hbm) _]. unfold scores_of.
  exact (get_scores_at _ k1' b' _ (preprocess_text query) Hbm).
Qed.

(** X1.  For [top_k] at least 1, [search] in a persisted index returns at
    most [top_k] pairs, and the score of each is above zero, whatever
    [argsort] does with equal scores. *)
Theorem search_at_most_top_k (argsort : list R -> list nat) (w : world)
  (index_path query : string) (top_k : Z) (data : IndexData) :
  sorts_ascending argsort ->
  fs w index_path = Some (IndexPickle data) ->
  persisted data ->
  (1 <= top_k)%Z ->
  exists out,
    search argsort w index_path query top_k = Ok out
    /\ (Z.of_nat (List.length out) <= top_k)%Z
    /\ Forall (fun e => 0 < snd e) out.
Proof.
  intros Hs Hfile Hp Hk. unfold search. rewrite Hfile.
  apply search_index_bound; [exact Hs | exact Hp | lia].
Qed.

Lemma search_at_most_top_k_witness :
  exists out,
    search argsort_stable (indexed_world tie_docs tie_index)
      "data/index.pkl" "x" 1
    = Ok out
    /\ (Z.of_nat (List.length out) <= 1)%Z
    /\ Forall (fun e => 0 < snd e) out.
Proof.
  apply (@search_at_most_top_k argsort_stable
           (indexed_world tie_docs tie_index)
           "data/index.pkl" "x" 1 tie_index argsort_stable_sorts eq_refl
           persisted_tie).
  lia.
Defined.

(** X2.  Whatever [argsort] does with equal scores, [search] in a
    persisted index returns, for some stored positions of which none comes
    twice, the id at the position and the score of the document at the
    position, which is the sum over the tokens of the query of the idf of
    the token times its weight in the document. *)
Theorem search_returns_each_position_once (argsort : list R -> list nat)
  (w : world) (index_path query : string) (top_k : Z) (data : IndexData) :
  sorts_ascending argsort ->
  fs w index_path = Some (IndexPickle data) ->
  persisted data ->
  exists positions,
    NoDup positions
    /\ Forall
         (fun idx =>
            exists doc_id document,
              nth_error (doc_ids data) idx = Some doc_id
              /\ nth_error (tokenized_corpus data) idx = Some document
              /\ entry (doc_ids data) (scores_of data query) idx
                 = (doc_id,
                    doc_score (bm25 data) (preprocess_text query) document))
         positions
    /\ search argsort w index_path query top_k
       = Ok (map (entry (doc_ids data) (scores_of data query)) positions).
Proof.
  intros Hs Hfile Hp. exists (positions_of argsort data query top_k).
  split; [now apply hits_NoDup|]. split; [|now apply search_positions].
  destruct (persisted_scores data query Hp) as [Hlen Hat].
  eapply Forall_impl; [|apply (hits_bound Hs)].
  intros idx Hidx. cbn beta in Hidx. rewrite Hlen in Hidx.
  destruct (nth_error (tokenized_corpus data) idx) as [document|] eqn:Ed;
    [|apply nth_error_None in Ed; lia].
  destruct (nth_error (doc_ids data) idx) as [doc_id|] eqn:Ei;
    [|apply nth_error_None in Ei; destruct Hp as [_ Hp]; lia].
  exists doc_id, document. repeat split.
  unfold entry. rewrite (nth_error_nth _ _ PyNone Ei).
  now rewrite (Hat idx document Ed).
Qed.

Lemma search_returns_each_position_once_witness :
  exists positions,
    NoDup positions
    /\ search argsort_stable (indexed_world tie_docs tie_index)
         "data/index.pkl" "x" 50
       = Ok (map (entry (doc_ids tie_index) (scores_of tie_index "x"))
               positions).
Proof.
  destruct (@search_returns_each_position_once argsort_stable
              (indexed_world tie_docs tie_index) "data/index.pkl" "x" 50
              tie_index argsort_stable_sorts eq_refl persisted_tie)
    as (positions & Hn & _ & Hs).
  exists positions. split; [exact Hn | exact Hs].
Defined.

(** X3.  Whatever [top_k] is, a stored document that [search] leaves out
    although its score is above zero has a score that is at most the score
    of every document returned. *)
Theorem search_keeps_the_best (argsort : list R -> list nat)
  (data : IndexData) (query : string) (top_k : Z) (i j : nat) :
  sorts_ascending argsort ->
  persisted data ->
  In i (positions_of argsort data query top_k) ->
  (j < List.length (tokenized_corpus data))%nat ->
  ~ In j (positions_of argsort data query top_k) ->
  0 < score_at (scores_of data query) j ->
  score_at (scores_of data query) j <= score_at (scores_of data query) i.
Proof.
  intros Hs Hp Hi Hj Hnj Hpos.
  destruct (persisted_scores data query Hp) as [Hlen _].
  unfold positions_of, hits in *.
  apply filter_In in Hi as [Hi _].
  assert (Hout : ~ In j (top_indices argsort (scores_of data query) top_k)).
  { intros Hin. apply Hnj. apply filter_In. split; [exact Hin|].
    now apply is_hit_true. }
  apply (@top_indices_best argsort Hs (scores_of data query) top_k i j);
    [exact Hi | lia | exact Hout].
Qed.

Lemma scores_of_tie : scores_of tie_index "x" = [raw_idf 5 2; raw_idf 5 2; 0; 0; 0].
Proof. unfold scores_of. rewrite query_x. apply tie_scores_x. Qed.

Lemma positions_of_tie :
  positions_of argsort_stable tie_index "x" 50 = [1; 0]%nat
  /\ positions_of argsort_stable tie_index "x" 1 = [1]%nat.
Proof.
  unfold positions_of. rewrite scores_of_tie.
  destruct (hits_tie raw_idf_5_2_positive) as (H1 & H2 & _). now split.
Qed.

Lemma search_keeps_the_best_witness :
  score_at (scores_of tie_index "x") 0 <= score_at (scores_of tie_index "x") 1.
Proof.
  apply (@search_keeps_the_best argsort_stable tie_index "x" 1 1 0
           argsort_stable_sorts persisted_tie).
  - rewrite (proj2 positions_of_tie). now left.
  - cbn. lia.
  - rewrite (proj2 positions_of_tie). intros [H|[]]. discriminate.
  - rewrite scores_of_tie. cbn [score_at nth]. apply raw_idf_5_2_positive.
Defined.

Lemma positions_when_top_k_is_large (argsort : list R -> list nat)
  (data : IndexData) (query : string) (top_k : Z) (j : nat) :
  sorts_ascending argsort ->
  persisted data ->
  (Z.of_nat (List.length (tokenized_corpus data)) <= top_k)%Z ->
  In j (positions_of argsort data query top_k)
  <-> (j < List.length (tokenized_corpus data))%nat
      /\ 0 < score_at (scores_of data query) j.
Proof.
  intros Hs Hp Hk. destruct (persisted_scores data query Hp) as [Hlen _].
  unfold positions_of, hits. rewrite filter_In, is_hit_true.
  split; intros [H1 H2]; (split; [|exact H2]).
  - pose proof (top_indices_bound Hs (scores_of data query) top_k) as Hb.
    rewrite Forall_forall in Hb. specialize (Hb j H1). lia.
  - apply top_indices_all; [exact Hs | right; lia | lia].
Qed.

(** X4.  With [top_k] at least the number of stored documents, [search]
    returns the entries of exactly the positions of the documents with a
    score above zero. *)
Theorem search_returns_all_when_top_k_is_large
  (argsort : list R -> list nat) (w : world)
  (index_path query : string) (top_k : Z) (data : IndexData) :
  sorts_ascending argsort ->
  fs w index_path = Some (IndexPickle data) ->
  persisted data ->
  (Z.of_nat (List.length (tokenized_corpus data)) <= top_k)%Z ->
  exists positions,
    search argsort w index_path query top_k
    = Ok (map (entry (doc_ids data) (scores_of data query)) positions)
    /\ forall j,
         In j positions
         <-> (j < List.length (tokenized_corpus data))%nat
             /\ 0 < score_at (scores_of data query) j.
Proof.
  intros Hs Hfile Hp Hk. exists (positions_of argsort data query top_k).
  split; [now apply search_positions|].
  intros j. now apply positions_when_top_k_is_large.
Qed.

Lemma search_returns_all_when_top_k_is_large_witness :
  exists positions,
    search argsort_stable (indexed_world tie_docs tie_index)
      "data/index.pkl" "x" 50
    = Ok (map (entry (doc_ids tie_index) (scores_of tie_index "x")) positions)
    /\ forall j,
         In j positions
         <-> (j < List.length (tokenized_corpus tie_index))%nat
             /\ 0 < score_at (scores_of tie_index "x") j.
Proof.
  apply (search_returns_all_when_top_k_is_large argsort_stable
           (indexed_world tie_docs tie_index) "data/index.pkl" "x" 50
           tie_index argsort_stable_sorts eq_refl persisted_tie).
  cbn. lia.
Defined.

(** X5.  Every document that [search] returns from a persisted index has a
    token of the query among its tokens; a query with no token in any
    stored document gives the empty list. *)
Theorem search_needs_a_common_token (argsort : list R -> list nat)
  (w : world) (index_path query : string) (top_k : Z) (data : IndexData) :
  sorts_ascending argsort ->
  fs w index_path = Some (IndexPickle data) ->
  persisted data ->
  Forall
    (fun idx =>
       exists q document,
         In q (preprocess_text query)
         /\ nth_error (tokenized_corpus data) idx = Some document
         /\ In q document)
    (positions_of argsort data query top_k)
  /\ ((forall q document,
          In q (preprocess_text query) ->
          In document (tokenized_corpus data) -> ~ In q document) ->
      search argsort w index_path query top_k = Ok []).
Proof.
  intros Hs Hfile Hp.
  destruct (persisted_scores data query Hp) as [Hlen Hat].
  assert (Hall :
      Forall
        (fun idx =>
           exists q document,
             In q (preprocess_text query)
             /\ nth_error (tokenized_corpus data) idx = Some document
             /\ In q document)
        (positions_of argsort data query top_k)).
  { apply Forall_forall. intros idx Hidx.
    pose proof (hits_bound Hs (scores_of data query) top_k) as Hb.
    pose proof (hits_positive argsort (scores_of data query) top_k) as Hpos.
    rewrite Forall_forall in Hb, Hpos.
    specialize (Hb idx Hidx). specialize (Hpos idx Hidx).
    rewrite Hlen in Hb.
    destruct (nth_error (tokenized_corpus data) idx) as [document|] eqn:Ed;
      [|apply nth_error_None in Ed; lia].
    rewrite (Hat idx document Ed) in Hpos.
    destruct (Exists_dec (fun q => In q document) (preprocess_text query))
      as [Hex | Hno].
    - intros q. apply in_dec, string_dec.
    - apply Exists_exists in Hex as (q & Hq & Hin).
      exists q, document. auto.
    - rewrite doc_score_no_token in Hpos; [lra|].
      intros q Hq Hin. apply Hno. apply Exists_exists. eauto. }
  split; [exact Hall|]. intros Hnone.
  rewrite (@search_positions argsort w index_path query top_k data Hs Hfile
             Hp).
  destruct (positions_of argsort data query top_k) as [|idx rest];
    [reflexivity|].
  inversion Hall as [|? ? (q & document & Hq & Hd & Hin) _]; subst.
  elim (Hnone q document Hq (nth_error_In _ _ Hd) Hin).
Qed.

Lemma search_needs_a_common_token_witness :
  Forall
    (fun idx =>
       exists q document,
         In q (preprocess_text "x")
         /\ nth_error (tokenized_corpus tie_index) idx = Some document
         /\ In q document)
    (positions_of argsort_stable tie_index "x" 50)
  /\ search argsort_stable (indexed_world tie_docs tie_index)
       "data/index.pkl" "v" 50
     = Ok [].
Proof.
  split.
  - apply (@search_needs_a_common_token argsort_stable
             (indexed_world tie_docs tie_index)
             "data/index.pkl" "x" 50 tie_index argsort_stable_sorts eq_refl
             persisted_tie).
  - apply (@search_needs_a_common_token argsort_stable
             (indexed_world tie_docs tie_index)
             "data/index.pkl" "v" 50 tie_index argsort_stable_sorts eq_refl
             persisted_tie).
    intros q document Hq Hd Hin.
    assert (Hv : preprocess_text "v" = ["v"]) by (vm_compute; reflexivity).
    rewrite Hv in Hq. destruct Hq as [<-|[]].
    cbn in Hd.
    repeat (destruct Hd as [<-|Hd]; [destruct Hin as [H|[]]; discriminate|]).
    exact Hd.
Defined.

(** ** Document frequencies and idf *)

Lemma dict_get_keys {V : Type} (d : dict V) (k : string) :
  (In k (keys d) -> exists v, dict_get d k = Some v)
  /\ (~ In k (keys d) -> dict_get d k = None).
Proof.
  induction d as [|[k' v'] r [IH1 IH2]]; cbn [keys map fst dict_get In].
  - split; [intros [] | reflexivity].
  - destruct (String.eqb_spec k' k) as [->|Hne]; split; eauto.
    + intros H. elim H. now left.
    + intros [H|H]; [contradiction | now apply IH1].
Qed.

Lemma dict_set_absent {V : Type} (d : dict V) (k : string) (v : V) :
  ~ In k (keys d) -> dict_set d k v = d ++ [(k, v)].
Proof.
  induction d as [|[k' v'] r IH]; cbn [keys map fst dict_set In app];
    intros H; [reflexivity|].
  destruct (String.eqb_spec k' k) as [->|Hne]; [elim H; now left|].
  rewrite IH; [reflexivity | tauto].
Qed.

Lemma dict_set_present {V : Type} (d : dict V) (k : string) (v : V) :
  In k (keys d) -> keys (dict_set d k v) = keys d.
Proof.
  induction d as [|[k' v'] r IH]; cbn [keys map fst dict_set In];
    intros H; [contradiction|].
  destruct (String.eqb_spec k' k) as [->|Hne]; [reflexivity|].
  cbn [map fst]. f_equal. apply IH. destruct H; [contradiction | assumption].
Qed.

Lemma dict_set_keys {V : Type} (d : dict V) (k : string) (v : V) :
  (forall k', In k' (keys (dict_set d k v)) <-> k' = k \/ In k' (keys d))
  /\ (NoDup (keys d) -> NoDup (keys (dict_set d k v))).
Proof.
  destruct (in_dec string_dec k (keys d)) as [Hin | Hout].
  - rewrite (dict_set_present d k v Hin). split; [|auto].
    intros k'. split; [auto | intros [->|H]; assumption].
  - rewrite (dict_set_absent d k v Hout). unfold keys.
    rewrite map_app. cbn [map fst]. split.
    + intros k'. rewrite in_app_iff. cbn [In]. intuition.
    + intros Hn. apply NoDup_app; [exact Hn | repeat constructor; auto |].
      intros x Hx [<-|[]]. contradiction.
Qed.

Lemma count_word_keys (frequencies : dict nat) (word : string) :
  (forall k, In k (keys (count_word frequencies word))
             <-> k = word \/ In k (keys frequencies))
  /\ (NoDup (keys frequencies) -> NoDup (keys (count_word frequencies word))).
Proof.
  unfold count_word.
  destruct (dict_get frequencies word) as [n|] eqn:E.
  - rewrite E. apply dict_set_keys.
  - rewrite dict_get_set_same.
    destruct (dict_set_keys frequencies word 0%nat) as [H1 H2].
    destruct (dict_set_keys (dict_set frequencies word 0%nat) word (0 + 1)%nat)
      as [H3 H4].
    split.
    + intros k. rewrite H3, H1. tauto.
    + auto.
Qed.

Lemma word_frequencies_keys (document : list string) :
  (forall k, In k (keys (word_frequencies document)) <-> In k document)
  /\ NoDup (keys (word_frequencies document)).
Proof.
  unfold word_frequencies.
  assert (H : forall frequencies,
             (forall k, In k (keys (fold_left count_word document frequencies))
                        <-> In k document \/ In k (keys frequencies))
             /\ (NoDup (keys frequencies) ->
                 NoDup (keys (fold_left count_word document frequencies)))).
  { induction document as [|word document IH]; intros frequencies;
      cbn [fold_left In].
    - split; [tauto | auto].
    - destruct (IH (count_word frequencies word)) as [H1 H2].
      destruct (count_word_keys frequencies word) as [H3 H4].
      split.
      + intros k. rewrite H1, H3. intuition.
      + auto. }
  destruct (H []) as [H1 H2]. split.
  - intros k. rewrite H1. cbn. tauto.
  - apply H2. constructor.
Qed.

Lemma count_doc_get (nd : dict nat) (entry : string * nat) (w : string) :
  or_zero_nat (dict_get (count_doc nd entry) w)
  = (or_zero_nat (dict_get nd w)
     + if string_dec (fst entry) w then 1 else 0)%nat.
Proof.
  unfold count_doc. destruct (string_dec (fst entry) w) as [<-|Hne].
  - destruct (dict_get nd (fst entry)) as [n|] eqn:E;
      rewrite dict_get_set_same; cbn; lia.
  - destruct (dict_get nd (fst entry)) as [n|] eqn:E;
      rewrite dict_get_set_other by assumption; lia.
Qed.

Lemma count_doc_keys (nd : dict nat) (entry : string * nat) :
  (forall k, In k (keys (count_doc nd entry))
             <-> k = fst entry \/ In k (keys nd))
  /\ (NoDup (keys nd) -> NoDup (keys (count_doc nd entry))).
Proof.
  unfold count_doc. destruct (dict_get nd (fst entry)); apply dict_set_keys.
Qed.

Lemma fold_count_doc (frequencies : dict nat) (w : string) :
  NoDup (keys frequencies) ->
  forall nd,
    or_zero_nat (dict_get (fold_left count_doc frequencies nd) w)
    = (or_zero_nat (dict_get nd w)
       + if in_dec string_dec w (keys frequencies) then 1 else 0)%nat
    /\ (forall k, In k (keys (fold_left count_doc frequencies nd))
                  <-> In k (keys frequencies) \/ In k (keys nd))
    /\ (NoDup (keys nd) ->
        NoDup (keys (fold_left count_doc frequencies nd))).
Proof.
  induction frequencies as [|[k v] r IH]; intros Hn nd;
    cbn [fold_left keys map fst].
  - split; [destruct (in_dec _ _ _) as [[]|]; lia|].
    split; [cbn; tauto | auto].
  - cbn [keys map fst] in Hn. inversion Hn as [|? ? Hk Hr]; subst.
    destruct (IH Hr (count_doc nd (k, v))) as (H1 & H2 & H3).
    destruct (count_doc_keys nd (k, v)) as [H4 H5].
    split; [|split].
    + rewrite H1, count_doc_get. cbn [fst]. fold (keys r).
      destruct (string_dec k w) as [->|Hne].
      * destruct (in_dec string_dec w (keys r)); [contradiction|].
        destruct (in_dec string_dec w (w :: keys r)) as [|Hno];
          [lia | elim Hno; now left].
      * destruct (in_dec string_dec w (keys r)) as [Hi|Hi];
          destruct (in_dec string_dec w (k :: keys r)) as [Hj|Hj];
          try lia.
        -- elim Hj. now right.
        -- destruct Hj; [contradiction|contradiction].
    + intros k'. rewrite H2, H4. cbn [fst In]. fold (keys r).
      intuition.
    + auto.
Qed.

Lemma contains_true (word : string) (document : list string) :
  contains word document = true <-> In word document.
Proof.
  unfold contains. destruct (in_dec string_dec word document); split;
    auto; discriminate.
Qed.

Lemma initialize_nd (corpus : list (list string)) (w : string) :
  forall st,
    NoDup (keys (st_nd st)) ->
    let nd := st_nd (fold_left init_step corpus st) in
    or_zero_nat (dict_get nd w)
    = (or_zero_nat (dict_get (st_nd st) w) + doc_frequency corpus w)%nat
    /\ NoDup (keys nd)
    /\ (In w (keys nd)
        <-> In w (keys (st_nd st))
            \/ exists document, In document corpus /\ In w document).
Proof.
  induction corpus as [|document corpus IH]; intros st Hn; cbn [fold_left].
  - cbn zeta. unfold doc_frequency. cbn [filter List.length].
    split; [lia|]. split; [exact Hn|].
    split; [auto | intros [H|(d & [] & _)]; exact H].
  - destruct (word_frequencies_keys document) as [Hk Hnd].
    destruct (fold_count_doc _ w Hnd (st_nd st)) as (H1 & H2 & H3).
    destruct (IH (init_step st document)) as (G1 & G2 & G3).
    { cbn [init_step st_nd]. auto. }
    cbn zeta in *. cbn [init_step st_nd] in G1, G3.
    split; [|split; [exact G2|]].
    + rewrite G1, H1. unfold doc_frequency. cbn [filter].
      unfold contains at 2.
      destruct (in_dec string_dec w (keys (word_frequencies document)))
        as [Hi|Hi]; destruct (in_dec string_dec w document) as [Hj|Hj];
        cbn [List.length]; try lia.
      * elim Hj. now apply Hk.
      * elim Hi. now apply Hk.
    + rewrite G3, H2, Hk. cbn [In]. split.
      * intros [[H|H]|(d & Hd & Hw)].
        -- right. exists document. auto.
        -- now left.
        -- right. exists d. auto.
      * intros [H|(d & [<-|Hd] & Hw)].
        -- left. now right.
        -- left. now left.
        -- right. exists d. auto.
Qed.

(** After [_initialize] the entry of a word in [nd] is the number of
    documents that contain the word, and a word of no document has no
    entry. *)
Lemma initialize_doc_frequency (corpus : list (list string)) (w : string) :
  let nd := st_nd (initialize corpus) in
  NoDup (keys nd)
  /\ ((exists document, In document corpus /\ In w document) ->
      dict_get nd w = Some (doc_frequency corpus w))
  /\ ((forall document, In document corpus -> ~ In w document) ->
      dict_get nd w = None).
Proof.
  destruct (@initialize_nd corpus w init_start) as (H1 & H2 & H3);
    [constructor|].
  cbn zeta in *. fold (initialize corpus) in *.
  split; [exact H2|]. split.
  - intros Hex.
    destruct (proj1 (dict_get_keys (st_nd (initialize corpus)) w)) as [v Hv].
    { apply H3. now right. }
    rewrite Hv in *. cbn in H1. now subst.
  - intros Hno. apply dict_get_keys. rewrite H3.
    intros [[]|(d & Hd & Hw)]. now apply (Hno d).
Qed.

Lemma calc_idf_lists (n : nat) (nd : dict nat) :
  NoDup (keys nd) ->
  forall st,
    (forall k, In k (keys nd) -> ~ In k (keys (st_idf st))) ->
    st_idf (fold_left (idf_step n) nd st)
    = st_idf st ++ map (fun e => (fst e, raw_idf n (snd e))) nd
    /\ st_negative_idfs (fold_left (idf_step n) nd st)
       = st_negative_idfs st
         ++ map fst (filter (fun e => if Rlt_dec (raw_idf n (snd e)) 0
                                      then true else false) nd).
Proof.
  induction nd as [|[word freq] nd IH]; intros Hn st Hfresh;
    cbn [fold_left map filter].
  - now rewrite !app_nil_r.
  - cbn [keys map fst] in Hn. inversion Hn as [|? ? Hw Hr]; subst.
    destruct (IH Hr (idf_step n st (word, freq))) as [H1 H2].
    { intros k Hk. cbn [idf_step st_idf].
      rewrite (proj1 (dict_set_keys _ _ _)).
      intros [->|H]; [contradiction|].
      apply (Hfresh k); [now right | exact H]. }
    rewrite H1, H2. cbn [idf_step st_idf st_negative_idfs snd fst].
    rewrite dict_set_absent by (apply Hfresh; now left).
    destruct (Rlt_dec (raw_idf n freq) 0); cbn [map fst];
      rewrite <- ?app_assoc; auto.
Qed.

Lemma dict_get_map {V W : Type} (g : V -> W) (d : dict V) (k : string) :
  dict_get (map (fun e => (fst e, g (snd e))) d) k
  = option_map g (dict_get d k).
Proof.
  induction d as [|[k' v'] r IH]; cbn [map dict_get fst snd]; [reflexivity|].
  destruct (k' =? k)%string; [reflexivity | exact IH].
Qed.

Lemma fold_dict_set_get {V : Type} (words : list string) (v : V)
  (k : string) :
  forall d,
    dict_get (fold_left (fun d word => dict_set d word v) words d) k
    = if in_dec string_dec k words then Some v else dict_get d k.
Proof.
  induction words as [|word words IH]; intros d; cbn [fold_left].
  - now destruct (in_dec string_dec k []).
  - rewrite IH.
    destruct (in_dec string_dec k words) as [Hi|Hi];
      destruct (in_dec string_dec k (word :: words)) as [Hj|Hj];
      try reflexivity.
    + elim Hj. now right.
    + destruct Hj as [->|Hj]; [apply dict_get_set_same | contradiction].
    + apply dict_get_set_other. intros ->. apply Hj. now left.
Qed.

Lemma dict_get_In {V : Type} (d : dict V) (k : string) (v : V) :
  NoDup (keys d) -> (In (k, v) d <-> dict_get d k = Some v).
Proof.
  induction d as [|[k' v'] r IH]; cbn [keys map fst dict_get In];
    intros Hn.
  - split; [intros [] | discriminate].
  - inversion Hn as [|? ? Hk Hr]; subst.
    destruct (String.eqb_spec k' k) as [->|Hne].
    + split.
      * intros [[= ->]|H]; [reflexivity|].
        elim Hk. apply (in_map fst) in H. exact H.
      * intros [= ->]. now left.
    + rewrite <- (IH Hr). split; [|auto].
      intros [[= ? ?]|H]; [contradiction | exact H].
Qed.

(** The idf that the constructor stores for a word: none for a word of no
    document, and for a word of [freq] documents the logarithmic value,
    replaced by [epsilon * average_idf] where it is negative. *)
Lemma BM25Okapi_idf (corpus : list (list string)) (k1' b' : R)
  (bm : BM25Okapi_obj) (w : string) :
  BM25Okapi corpus k1' b' = Ok bm ->
  ((exists document, In document corpus /\ In w document) ->
   dict_get (idf bm) w
   = Some (floored_idf (epsilon bm * average_idf bm) (List.length corpus)
             (doc_frequency corpus w)))
  /\ ((forall document, In document corpus -> ~ In w document) ->
      dict_get (idf bm) w = None).
Proof.
  unfold BM25Okapi.
  destruct (initialize_doc_frequency corpus w) as (Hn & Hsome & Hnone).
  destruct (initialize_from corpus init_start) as (Hsize & _).
  cbn zeta in *. fold (initialize corpus) in *. cbn in Hsize.
  destruct (py_div _ _) as [avg|e]; [|discriminate].
  cbn [bind]. destruct (py_div _ _) as [avg_idf|e]; [|discriminate].
  cbn [bind]. intros [= <-]. cbn [idf epsilon average_idf].
  unfold calc_idf_loop.
  destruct (@calc_idf_lists (st_corpus_size (initialize corpus))
              (st_nd (initialize corpus)) Hn
              {| st_idf := []; st_idf_sum := 0; st_negative_idfs := [] |})
    as [-> ->]; [intros k _ []|].
  cbn [st_idf st_negative_idfs app].
  rewrite fold_dict_set_get, dict_get_map, Hsize.
  split.
  - intros Hex. rewrite (Hsome Hex). cbn [option_map]. unfold floored_idf.
    destruct (in_dec string_dec w _) as [Hi|Hi].
    + apply in_map_iff in Hi as ([w' f] & Hw & Hin). cbn [fst] in Hw. subst w'.
      apply filter_In in Hin as [Hin Hneg]. cbn [snd] in Hneg.
      apply (dict_get_In _ _ _ Hn) in Hin. rewrite (Hsome Hex) in Hin.
      injection Hin as <-.
      destruct (Rlt_dec _ 0); [reflexivity | discriminate].
    + destruct (Rlt_dec _ 0) as [Hneg|]; [|reflexivity].
      elim Hi. apply in_map_iff.
      exists (w, doc_frequency corpus w). split; [reflexivity|].
      apply filter_In. split.
      * apply (dict_get_In _ _ _ Hn). now apply Hsome.
      * cbn [snd]. now destruct (Rlt_dec _ 0).
  - intros Hno. rewrite (Hnone Hno). cbn [option_map].
    destruct (in_dec string_dec w _) as [Hi|Hi]; [|reflexivity].
    apply in_map_iff in Hi as ([w' f] & Hw & Hin). cbn [fst] in Hw. subst w'.
    apply filter_In in Hin as [Hin _].
    apply (dict_get_In _ _ _ Hn) in Hin. rewrite (Hnone Hno) in Hin.
    discriminate.
Qed.

(** ** Queries of one token *)

Lemma term_weight_positive (k1 b avgdl : R) (q_freq doc_len : nat) :
  0 <= k1 -> 0 <= b <= 1 -> 0 < avgdl -> (1 <= q_freq)%nat ->
  0 < term_weight k1 b avgdl q_freq doc_len.
Proof.
  intros Hk [Hb0 Hb1] Havg Hf. unfold term_weight.
  assert (Hq : 1 <= INR q_freq) by (apply (le_INR 1); exact Hf).
  pose proof (pos_INR doc_len) as Hd.
  assert (Hr : 0 <= b * INR doc_len / avgdl).
  { apply Rmult_le_pos; [now apply Rmult_le_pos|].
    left. now apply Rinv_0_lt_compat. }
  apply Rdiv_lt_0_compat; [nra|].
  assert (0 <= k1 * (1 - b + b * INR doc_len / avgdl))
    by (apply Rmult_le_pos; lra).
  lra.
Qed.

Lemma initialize_num_doc (corpus : list (list string)) :
  forall st,
    st_num_doc (fold_left init_step corpus st)
    = (st_num_doc st + total_tokens corpus)%nat.
Proof.
  unfold total_tokens.
  induction corpus as [|document corpus IH]; intros st;
    cbn [fold_left map]; [cbn; lia|].
  rewrite IH. cbn [init_step st_num_doc].
  unfold list_sum. cbn [fold_right]. lia.
Qed.

Lemma has_token_total (corpus : list (list string)) :
  has_token corpus = true -> (1 <= total_tokens corpus)%nat.
Proof.
  unfold has_token, total_tokens.
  induction corpus as [|document corpus IH]; cbn [existsb map];
    [discriminate|].
  intros H. unfold list_sum in *. cbn [fold_right].
  apply orb_true_iff in H as [H|H].
  - destruct document; [discriminate | cbn [List.length]; lia].
  - specialize (IH H). lia.
Qed.

(** A scoring object that was built has a positive average length. *)
Lemma BM25Okapi_avgdl (corpus : list (list string)) (k1' b' : R)
  (bm : BM25Okapi_obj) :
  BM25Okapi corpus k1' b' = Ok bm ->
  avgdl bm = INR (total_tokens corpus) / INR (List.length corpus)
  /\ 0 < avgdl bm.
Proof.
  intros Hbm.
  assert (Htok : has_token corpus = true).
  { destruct (has_token corpus) eqn:E; [reflexivity|].
    rewrite (BM25Okapi_raises corpus k1' b' E) in Hbm. discriminate. }
  pose proof (has_token_total corpus Htok) as Htot.
  assert (Hpos1 : 0 < INR (total_tokens corpus)) by (apply lt_0_INR; lia).
  assert (Hpos2 : 0 < INR (List.length corpus)).
  { apply lt_0_INR. destruct corpus; [discriminate Htok | cbn; lia]. }
  revert Hbm. unfold BM25Okapi, initialize.
  rewrite initialize_num_doc.
  destruct (initialize_from corpus init_start) as (Hsize & _).
  cbn zeta in Hsize. rewrite Hsize.
  cbn [init_start st_num_doc st_corpus_size Nat.add].
  destruct (List.length corpus) as [|n] eqn:En.
  - cbn in Hpos2. lra.
  - cbn [py_div bind].
    destruct (py_div _ _) as [avg_idf|e]; [|discriminate].
    cbn [bind]. intros [= <-]. cbn [avgdl]. split; [reflexivity|].
    now apply Rdiv_lt_0_compat.
Qed.

Lemma doc_score_one_token (bm : BM25Okapi_obj) (t : string)
  (document : list string) :
  doc_score bm [t] document = term_contribution bm document t.
Proof. unfold doc_score. cbn [fold_left]. lra. Qed.

Lemma floored_idf_rare (eps : R) (n freq : nat) :
  (freq + freq < n)%nat ->
  floored_idf eps n freq = raw_idf n freq /\ 0 < raw_idf n freq.
Proof.
  intros H. assert (Hpos : 0 < raw_idf n freq) by (apply raw_idf_sign; lia).
  unfold floored_idf. destruct (Rlt_dec (raw_idf n freq) 0); [lra | auto].
Qed.

Lemma floored_idf_half (eps : R) (freq : nat) :
  floored_idf eps (freq + freq) freq = 0.
Proof.
  unfold floored_idf. rewrite raw_idf_half.
  destruct (Rlt_dec 0 0); [lra | reflexivity].
Qed.

(** The score of a stored document for a query of one token: zero without
    the token; with it the idf of the token times its weight in the
    document, which is positive for [k1] and [b] in their usual ranges. *)
Lemma one_token_score (data : IndexData) (query t : string) (i : nat)
  (document : list string) :
  persisted data ->
  preprocess_text query = [t] ->
  nth_error (tokenized_corpus data) i = Some document ->
  (~ In t document -> score_at (scores_of data query) i = 0)
  /\ (In t document ->
      score_at (scores_of data query) i
      = floored_idf (epsilon (bm25 data) * average_idf (bm25 data))
          (List.length (tokenized_corpus data))
          (doc_frequency (tokenized_corpus data) t)
        * term_weight (k1 (bm25 data)) (b (bm25 data)) (avgdl (bm25 data))
            (count_occ string_dec document t) (List.length document))
  /\ (In t document ->
      0 <= k1 (bm25 data) -> 0 <= b (bm25 data) <= 1 ->
      0 < term_weight (k1 (bm25 data)) (b (bm25 data)) (avgdl (bm25 data))
            (count_occ string_dec document t) (List.length document)).
Proof.
  intros Hp Hq Hd.
  destruct (persisted_scores data query Hp) as [_ Hat].
  rewrite (Hat i document Hd), Hq.
  destruct Hp as [(k1' & b' & Hbm) _].
  split; [|split].
  - intros Hno. apply doc_score_no_token. intros q [<-|[]]. exact Hno.
  - intros Hin. rewrite doc_score_one_token. unfold term_contribution.
    destruct (BM25Okapi_idf _ k1' b' _ t Hbm) as [Hidf _].
    rewrite Hidf by (exists document; split;
                     [exact (nth_error_In _ _ Hd) | exact Hin]).
    reflexivity.
  - intros Hin Hk Hb.
    apply term_weight_positive; try assumption.
    + apply (BM25Okapi_avgdl _ k1' b' _ Hbm).
    + apply (count_occ_In string_dec) in Hin. lia.
Qed.

Lemma Forall_score_at (P : R -> Prop) (scores : list R) :
  (forall i, (i < List.length scores)%nat -> P (score_at scores i)) ->
  Forall P scores.
Proof.
  intros H. apply Forall_forall. intros s Hs.
  apply (In_nth _ _ 0) in Hs as (i & Hi & <-). now apply H.
Qed.

(** X6.  A query of one token that is in exactly half of the documents of
    a persisted index gives the empty list, whatever [top_k] is: the idf of
    such a token is zero. *)
Theorem search_token_of_half_the_documents (argsort : list R -> list nat)
  (w : world) (index_path query t : string) (top_k : Z) (data : IndexData) :
  fs w index_path = Some (IndexPickle data) ->
  persisted data ->
  preprocess_text query = [t] ->
  (doc_frequency (tokenized_corpus data) t
   + doc_frequency (tokenized_corpus data) t
   = List.length (tokenized_corpus data))%nat ->
  search argsort w index_path query top_k = Ok [].
Proof.
  intros Hfile Hp Hq Hhalf. unfold search. rewrite Hfile.
  apply search_index_no_hit. fold (scores_of data query).
  apply Forall_score_at. intros i Hi.
  destruct (persisted_scores data query Hp) as [Hlen _]. rewrite Hlen in Hi.
  destruct (nth_error (tokenized_corpus data) i) as [document|] eqn:Ed;
    [|apply nth_error_None in Ed; lia].
  destruct (one_token_score data query t i document Hp Hq Ed)
    as (H0 & H1 & _).
  destruct (in_dec string_dec t document) as [Hin|Hno].
  - rewrite (H1 Hin), <- Hhalf, floored_idf_half. lra.
  - rewrite (H0 Hno). lra.
Qed.

Lemma search_token_of_half_the_documents_witness :
  search argsort_stable (indexed_world cat_docs cat_index) "data/index.pkl"
    "Cat!" 50
  = Ok [].
Proof.
  apply (search_token_of_half_the_documents argsort_stable
           (indexed_world cat_docs cat_index) "data/index.pkl" "Cat!" "cat"
           50 cat_index eq_refl persisted_cat).
  - vm_compute. reflexivity.
  - vm_compute. reflexivity.
Defined.

(** X7.  For a query of one token that is in fewer than half of the
    documents of a persisted index built with [0 <= k1] and [0 <= b <= 1],
    and [top_k] at least the number of documents, the positions that
    [search] returns are exactly those of the documents that contain the
    token. *)
Theorem search_rare_token (argsort : list R -> list nat)
  (data : IndexData) (query t : string) (top_k : Z) (j : nat) :
  sorts_ascending argsort ->
  persisted data ->
  preprocess_text query = [t] ->
  (doc_frequency (tokenized_corpus data) t
   + doc_frequency (tokenized_corpus data) t
   < List.length (tokenized_corpus data))%nat ->
  0 <= k1 (bm25 data) -> 0 <= b (bm25 data) <= 1 ->
  (Z.of_nat (List.length (tokenized_corpus data)) <= top_k)%Z ->
  In j (positions_of argsort data query top_k)
  <-> exists document,
        nth_error (tokenized_corpus data) j = Some document
        /\ In t document.
Proof.
  intros Hs Hp Hq Hrare Hk Hb Htop.
  rewrite (positions_when_top_k_is_large argsort data query top_k j Hs Hp
             Htop).
  split.
  - intros [Hj Hpos].
    destruct (nth_error (tokenized_corpus data) j) as [document|] eqn:Ed;
      [|apply nth_error_None in Ed; lia].
    exists document. split; [reflexivity|].
    destruct (in_dec string_dec t document) as [Hin|Hno]; [exact Hin|].
    destruct (one_token_score data query t j document Hp Hq Ed) as (H0 & _).
    rewrite (H0 Hno) in Hpos. lra.
  - intros (document & Ed & Hin).
    split; [apply nth_error_Some; congruence|].
    destruct (one_token_score data query t j document Hp Hq Ed)
      as (_ & H1 & H2).
    rewrite (H1 Hin).
    destruct (floored_idf_rare
                (epsilon (bm25 data) * average_idf (bm25 data)) _ _ Hrare)
      as [-> Hpos].
    apply Rmult_lt_0_compat; [exact Hpos | now apply H2].
Qed.

Lemma search_rare_token_witness :
  In 0%nat (positions_of argsort_stable tie_index "x" 50)
  <-> exists document,
        nth_error (tokenized_corpus tie_index) 0 = Some document
        /\ In "x" document.
Proof.
  apply (search_rare_token argsort_stable tie_index "x" "x" 50 0
           argsort_stable_sorts persisted_tie query_x).
  - vm_compute. lia.
  - cbn. lra.
  - cbn. lra.
  - cbn. lia.
Defined.

Lemma filter_none {A : Type} (f : A -> bool) (l : list A) :
  (forall x, In x l -> f x = false) -> filter f l = [].
Proof.
  induction l as [|a l IH]; intros H; cbn [filter]; [reflexivity|].
  rewrite (H a) by now left. apply IH. intros x Hx. apply H. now right.
Qed.

Lemma contains_false (word : string) (document : list string) :
  ~ In word document -> contains word document = false.
Proof.
  intros H. unfold contains.
  now destruct (in_dec string_dec word document).
Qed.

(** A token of one document only has document frequency 1. *)
Lemma doc_frequency_unique (corpus : list (list string)) (t : string)
  (idx : nat) (document : list string) :
  nth_error corpus idx = Some document ->
  In t document ->
  (forall j d, nth_error corpus j = Some d -> In t d -> j = idx) ->
  doc_frequency corpus t = 1%nat.
Proof.
  intros Hd Hin Huniq.
  destruct (nth_error_split corpus idx Hd) as (l1 & l2 & -> & Hlen).
  unfold doc_frequency. rewrite filter_app. cbn [filter].
  rewrite (proj2 (contains_true t document) Hin).
  rewrite !filter_none; [reflexivity | |].
  - intros x Hx. apply contains_false. intros Hc.
    apply In_nth_error in Hx as [j Hj].
    assert (Hj' : nth_error (l1 ++ document :: l2) (idx + S j) = Some x).
    { rewrite nth_error_app2 by lia.
      replace (idx + S j - List.length l1)%nat with (S j) by lia.
      exact Hj. }
    specialize (Huniq _ _ Hj' Hc). lia.
  - intros x Hx. apply contains_false. intros Hc.
    apply In_nth_error in Hx as [j Hj].
    assert (Hlt : (j < List.length l1)%nat)
      by (apply nth_error_Some; congruence).
    assert (Hj' : nth_error (l1 ++ document :: l2) j = Some x)
      by (rewrite nth_error_app1 by lia; exact Hj).
    specialize (Huniq _ _ Hj' Hc). lia.
Qed.

Lemma slice_from_nonempty {A : Type} (top_k : Z) (a : list A) :
  (1 <= top_k)%Z -> a <> [] -> slice_from (- top_k) a <> [].
Proof.
  intros Hk Ha Hs. apply (f_equal (@List.length A)) in Hs.
  unfold slice_from in Hs. rewrite length_skipn in Hs. cbn [List.length] in Hs.
  assert (List.length a <> 0%nat) by (destruct a; [contradiction | discriminate]).
  destruct (Z.ltb_spec (- top_k) 0); lia.
Qed.

Lemma top_indices_nonempty (argsort : list R -> list nat)
  (scores : list R) (top_k : Z) :
  sorts_ascending argsort ->
  (1 <= top_k)%Z -> scores <> [] -> top_indices argsort scores top_k <> [].
Proof.
  intros Hsorts Hk Hs Ht. unfold top_indices in Ht.
  apply (f_equal (@rev nat)) in Ht. rewrite rev_involutive in Ht.
  cbn [rev] in Ht. revert Ht. apply slice_from_nonempty; [exact Hk|].
  intros Ha.
  pose proof (Permutation_length (proj1 (Hsorts scores))) as Hl.
  rewrite Ha, length_seq in Hl. destruct scores; [contradiction | discriminate].
Qed.

Lemma NoDup_single {A : Type} (l : list A) (a : A) :
  NoDup l -> In a l -> (forall x, In x l -> x = a) -> l = [a].
Proof.
  intros Hn Ha Hall. destruct l as [|x l]; [contradiction|].
  assert (x = a) by (apply Hall; now left). subst x.
  destruct l as [|y l]; [reflexivity|].
  assert (y = a) by (apply Hall; right; now left). subst y.
  inversion Hn as [|? ? Hx _]; subst. elim Hx. now left.
Qed.

(** The positions returned for a token of one document only.  With
    [0 < k1] and [b < 1] no weight divides zero by zero, so the scores of
    the other documents are zero in the code as they are here. *)
Lemma only_document_positions (argsort : list R -> list nat)
  (data : IndexData) (query t : string)
  (top_k : Z) (idx : nat) (document : list string) :
  sorts_ascending argsort ->
  persisted data ->
  preprocess_text query = [t] ->
  (1 <= top_k)%Z ->
  (3 <= List.length (tokenized_corpus data))%nat ->
  0 < k1 (bm25 data) -> 0 <= b (bm25 data) < 1 ->
  nth_error (tokenized_corpus data) idx = Some document ->
  In t document ->
  (forall j d,
      nth_error (tokenized_corpus data) j = Some d -> In t d -> j = idx) ->
  0 < score_at (scores_of data query) idx
  /\ positions_of argsort data query top_k = [idx].
Proof.
  intros Hs Hp Hq Htop Hn Hk0 Hb0 Hd Hin Huniq.
  assert (Hk : 0 <= k1 (bm25 data)) by lra.
  assert (Hb : 0 <= b (bm25 data) <= 1) by lra.
  pose proof (doc_frequency_unique _ t idx document Hd Hin Huniq) as Hdf.
  destruct (persisted_scores data query Hp) as [Hlen _].
  assert (Hidx : (idx < List.length (tokenized_corpus data))%nat)
    by (apply nth_error_Some; congruence).
  assert (Hpos : 0 < score_at (scores_of data query) idx).
  { destruct (one_token_score data query t idx document Hp Hq Hd)
      as (_ & H1 & H2).
    rewrite (H1 Hin), Hdf.
    destruct (floored_idf_rare
                (epsilon (bm25 data) * average_idf (bm25 data))
                (List.length (tokenized_corpus data)) 1) as [-> Hr]; [lia|].
    apply Rmult_lt_0_compat; [exact Hr | now apply H2]. }
  assert (Hzero : forall j, (j < List.length (tokenized_corpus data))%nat ->
                            j <> idx -> score_at (scores_of data query) j = 0).
  { intros j Hj Hne.
    destruct (nth_error (tokenized_corpus data) j) as [d|] eqn:Ed;
      [|apply nth_error_None in Ed; lia].
    destruct (one_token_score data query t j d Hp Hq Ed) as (H0 & _).
    apply H0. intros Hc. apply Hne. now apply (Huniq j d). }
  assert (Honly : forall j,
             In j (positions_of argsort data query top_k) -> j = idx).
  { intros j Hj.
    pose proof (hits_bound Hs (scores_of data query) top_k) as Hb'.
    pose proof (hits_positive argsort (scores_of data query) top_k) as Hp'.
    rewrite Forall_forall in Hb', Hp'.
    specialize (Hb' j Hj). specialize (Hp' j Hj). rewrite Hlen in Hb'.
    destruct (Nat.eq_dec j idx) as [|Hne]; [assumption|].
    rewrite (Hzero j Hb' Hne) in Hp'. lra. }
  assert (Hmem : In idx (positions_of argsort data query top_k)).
  { unfold positions_of, hits. apply filter_In.
    split; [|now apply is_hit_true].
    destruct (in_dec Nat.eq_dec idx
                (top_indices argsort (scores_of data query) top_k))
      as [Hi|Hout]; [exact Hi|].
    destruct (top_indices argsort (scores_of data query) top_k)
      as [|i rest] eqn:Et.
    - elim (top_indices_nonempty argsort (scores_of data query) top_k Hs
              Htop); [|exact Et].
      intros Hnil. rewrite Hnil in Hlen. cbn in Hlen. lia.
    - assert (Hi : In i (top_indices argsort (scores_of data query) top_k))
        by (rewrite Et; now left).
      assert (Hne : i <> idx) by (intros ->; apply Hout; now left).
      assert (Hib : (i < List.length (tokenized_corpus data))%nat).
      { pose proof (top_indices_bound Hs (scores_of data query) top_k)
          as Hb'.
        rewrite Forall_forall in Hb'. specialize (Hb' i Hi). lia. }
      assert (Ha : ascending (scores_of data query) idx i).
      { apply (@top_indices_best argsort Hs (scores_of data query) top_k i
                 idx); [exact Hi | lia |].
        rewrite Et. exact Hout. }
      rewrite <- Et in Hout.
      unfold ascending in Ha. rewrite (Hzero i Hib Hne) in Ha. lra. }
  assert (Hpositions : positions_of argsort data query top_k = [idx])
    by (apply NoDup_single;
        [now apply hits_NoDup | exact Hmem | exact Honly]).
  split; [exact Hpos | exact Hpositions].
Qed.

Lemma search_of_one_position (argsort : list R -> list nat) (w : world)
  (index_path query : string)
  (top_k : Z) (data : IndexData) (idx : nat) (id : value) :
  sorts_ascending argsort ->
  fs w index_path = Some (IndexPickle data) ->
  persisted data ->
  positions_of argsort data query top_k = [idx] ->
  nth_error (doc_ids data) idx = Some id ->
  search argsort w index_path query top_k
  = Ok [(id, score_at (scores_of data query) idx)].
Proof.
  intros Hs Hfile Hp Hpos Hid.
  rewrite (search_positions argsort w index_path query top_k data Hs Hfile
             Hp), Hpos.
  cbn [map]. unfold entry. now rewrite (nth_error_nth _ _ PyNone Hid).
Qed.

(** X8.  In a persisted index of at least three documents, built with
    [0 < k1] and [0 <= b < 1], a query of one token that is in one
    document only returns, for [top_k] at least 1, that document alone,
    with its id and a score above zero, whatever [argsort] does with equal
    scores. *)
Theorem search_finds_the_only_document (argsort : list R -> list nat)
  (w : world)
  (index_path query t : string) (top_k : Z) (data : IndexData) (idx : nat)
  (document : list string) :
  sorts_ascending argsort ->
  fs w index_path = Some (IndexPickle data) ->
  persisted data ->
  preprocess_text query = [t] ->
  (1 <= top_k)%Z ->
  (3 <= List.length (tokenized_corpus data))%nat ->
  0 < k1 (bm25 data) -> 0 <= b (bm25 data) < 1 ->
  nth_error (tokenized_corpus data) idx = Some document ->
  In t document ->
  (forall j d,
      nth_error (tokenized_corpus data) j = Some d -> In t d -> j = idx) ->
  exists id score,
    nth_error (doc_ids data) idx = Some id
    /\ 0 < score
    /\ search argsort w index_path query top_k = Ok [(id, score)].
Proof.
  intros Hs Hfile Hp Hq Htop Hn Hk Hb Hd Hin Huniq.
  destruct (only_document_positions argsort data query t top_k idx document
              Hs Hp Hq Htop Hn Hk Hb Hd Hin Huniq) as [Hpos Hpositions].
  assert (Hidx : (idx < List.length (doc_ids data))%nat).
  { destruct Hp as [_ Hlen]. rewrite Hlen.
    apply nth_error_Some. congruence. }
  destruct (nth_error (doc_ids data) idx) as [id|] eqn:Ei;
    [|apply nth_error_None in Ei; lia].
  exists id, (score_at (scores_of data query) idx).
  split; [reflexivity|]. split; [exact Hpos|].
  now apply search_of_one_position.
Qed.

Lemma search_finds_the_only_document_witness :
  exists id score,
    nth_error (doc_ids tie_index) 2 = Some id
    /\ 0 < score
    /\ search argsort_stable (indexed_world tie_docs tie_index)
         "data/index.pkl" "Y?" 3
       = Ok [(id, score)].
Proof.
  apply (search_finds_the_only_document argsort_stable
           (indexed_world tie_docs tie_index)
           "data/index.pkl" "Y?" "y" 3 tie_index 2 ["y"]
           argsort_stable_sorts eq_refl persisted_tie).
  - vm_compute. reflexivity.
  - lia.
  - cbn. lia.
  - cbn. lra.
  - cbn. lra.
  - reflexivity.
  - now left.
  - intros j d Hj Hin.
    destruct j as [|[|[|[|[|j]]]]]; cbn in Hj;
      try (destruct j; discriminate);
      injection Hj as <-; try reflexivity;
      destruct Hin as [Hin|[]]; discriminate.
Defined.

(** ** What [build_index] and [add_documents] do to the world *)

(** X9.  When [build_index] raises, whatever the exception, no file has
    been written or changed and nothing has been printed: every raise comes
    before the index file is opened for writing.  (Only the files and the
    output are said to be as they were; by then [os.makedirs] can have made
    a directory.) *)
Theorem build_index_raises_without_writing (w : world)
  (corpus_json_path index_path : string) (k1 b : R) (e : exn) :
  snd (build_index w corpus_json_path index_path k1 b) = Raise e ->
  (forall path,
      fs (fst (build_index w corpus_json_path index_path k1 b)) path
      = fs w path)
  /\ stderr (fst (build_index w corpus_json_path index_path k1 b))
     = stderr w.
Proof.
  unfold build_index.
  destruct (fs w corpus_json_path) as [[data|data]|]; try (now split).
  destruct (BM25Okapi _ k1 b) as [bm|e']; [|now split].
  destruct (makedirs_dirname index_path); [discriminate | now split].
Qed.

Lemma build_index_raises_without_writing_witness :
  fs (fst (build_index (corpus_world [doc "1" "?!"]) "data/corpus.json"
             "data/index.pkl" 1.2 0.75)) "data/index.pkl"
  = None.
Proof.
  apply (build_index_raises_without_writing (corpus_world [doc "1" "?!"])
           "data/corpus.json" "data/index.pkl" 1.2 0.75 ZeroDivisionError).
  reflexivity.
Defined.

(** X10.  [build_index] returns only for a corpus of which some document
    has a token and for an index path with a directory part, and what it
    returns is the number of documents, twice; it raises
    [ZeroDivisionError] exactly when the corpus path holds a corpus of which
    no document has a token. *)
Theorem build_index_returns_only_if (w : world)
  (corpus_json_path index_path : string) (k1 b : R) :
  (forall r,
      snd (build_index w corpus_json_path index_path k1 b) = Ok r ->
      exists data,
        fs w corpus_json_path = Some (CorpusJson data)
        /\ has_token (map msg_tokens (get_docs data)) = true
        /\ has_dirname index_path = true
        /\ r = (List.length (get_docs data), List.length (get_docs data)))
  /\ (snd (build_index w corpus_json_path index_path k1 b)
      = Raise ZeroDivisionError
      <-> exists data,
            fs w corpus_json_path = Some (CorpusJson data)
            /\ has_token (map msg_tokens (get_docs data)) = false).
Proof.
  split.
  - intros r Hr.
    destruct (build_index w corpus_json_path index_path k1 b) as [w' r']
      eqn:E.
    cbn [snd] in Hr. subst r'.
    destruct (@build_index_inv _ _ _ _ _ _ _ E)
      as (data & bm & Hf & Hbm & Hdir & _ & ->).
    exists data. split; [exact Hf|].
    split; [|split; [exact Hdir | reflexivity]].
    destruct (has_token (map msg_tokens (get_docs data))) eqn:Ht;
      [reflexivity|].
    rewrite (BM25Okapi_raises _ k1 b Ht) in Hbm. discriminate.
  - unfold build_index, makedirs_dirname.
    destruct (fs w corpus_json_path) as [[data|data]|] eqn:Hf; cbn [snd].
    + destruct (has_token (map msg_tokens (get_docs data))) eqn:Ht.
      * destruct (BM25Okapi_returns _ k1 b Ht) as [bm ->].
        destruct (has_dirname index_path); cbn [snd];
          (split; [discriminate|]);
          intros (data' & [= <-] & Hno); congruence.
      * rewrite (BM25Okapi_raises _ k1 b Ht). cbn [snd].
        split; [|reflexivity]. intros _. now exists data.
    + split; [discriminate|]. intros (data' & Hd & _). discriminate.
    + split; [discriminate|]. intros (data' & Hd & _). discriminate.
Qed.

(** X11.  With an index path that has no directory part, [build_index]
    raises [FileNotFoundError] on a corpus that it could index, and writes
    nothing; [add_documents] of the same documents to the same path
    returns. *)
Theorem index_path_without_directory (w : world)
  (corpus_json_path index_path : string) (docs : list Msg) (k1 b : R)
  (rebuild_threshold : Z) :
  has_dirname index_path = false ->
  fs w corpus_json_path = Some (CorpusJson (Some docs)) ->
  fs w index_path = None ->
  has_token (map msg_tokens docs) = true ->
  build_index w corpus_json_path index_path k1 b
  = (w, Raise (FileNotFoundError "[Errno 2] No such file or directory: ''"))
  /\ snd (add_documents w index_path docs k1 b rebuild_threshold)
     = Ok (List.length docs).
Proof.
  intros Hdir Hf Hi Ht.
  destruct (BM25Okapi_returns (map msg_tokens docs) k1 b Ht) as [bm Hbm].
  split.
  - unfold build_index, makedirs_dirname. rewrite Hf. cbn [get_docs].
    now rewrite Hbm, Hdir.
  - rewrite (@add_documents_missing w index_path docs k1 b rebuild_threshold Hi).
    now rewrite Hbm.
Qed.

Lemma index_path_without_directory_witness :
  build_index (corpus_world cat_docs) "data/corpus.json" "index.pkl" 1.2 0.75
  = (corpus_world cat_docs,
     Raise (FileNotFoundError "[Errno 2] No such file or directory: ''"))
  /\ snd (add_documents (corpus_world cat_docs) "index.pkl" cat_docs
            1.2 0.75 1000)
     = Ok 2%nat.
Proof.
  apply (index_path_without_directory (corpus_world cat_docs)
           "data/corpus.json" "index.pkl" cat_docs 1.2 0.75 1000);
    reflexivity.
Defined.

Lemma has_token_app (c1 c2 : list (list string)) :
  has_token (c1 ++ c2) = has_token c1 || has_token c2.
Proof. unfold has_token. apply existsb_app. Qed.

Lemma BM25Okapi_has_token (corpus : list (list string)) (k1 b : R)
  (bm : BM25Okapi_obj) :
  BM25Okapi corpus k1 b = Ok bm -> has_token corpus = true.
Proof.
  intros Hbm. destruct (has_token corpus) eqn:E; [reflexivity|].
  rewrite (BM25Okapi_raises corpus k1 b E) in Hbm. discriminate.
Qed.

(** X12.  [add_documents] raises [ZeroDivisionError] exactly when the index
    path holds no corpus file and neither the stored documents nor the new
    ones have a token; it then leaves the files as they were. *)
Theorem add_documents_raises_iff (w : world) (index_path : string)
  (docs : list Msg) (k1 b : R) (rebuild_threshold : Z) :
  (snd (add_documents w index_path docs k1 b rebuild_threshold)
   = Raise ZeroDivisionError
   <-> (forall data, fs w index_path <> Some (CorpusJson data))
       /\ has_token (prior_corpus w index_path ++ map msg_tokens docs)
          = false)
  /\ (forall e,
         snd (add_documents w index_path docs k1 b rebuild_threshold)
         = Raise e ->
         fs (fst (add_documents w index_path docs k1 b rebuild_threshold))
         = fs w).
Proof.
  unfold add_documents, prior_corpus.
  destruct (fs w index_path) as [[data|data]|] eqn:Hf.
  - cbn [snd fst]. split; [|reflexivity].
    split; [discriminate|]. intros [H _]. now elim (H data).
  - destruct (has_token (tokenized_corpus data ++ map msg_tokens docs))
      eqn:Ht.
    + destruct (BM25Okapi_returns _ k1 b Ht) as [bm ->]. cbn [snd fst].
      split; [split; [discriminate | intros [_ H]; discriminate]|].
      discriminate.
    + rewrite (BM25Okapi_raises _ k1 b Ht). cbn [snd fst].
      split; [|reflexivity]. split; [|reflexivity].
      intros _. split; [discriminate | reflexivity].
  - cbn [app]. destruct (has_token (map msg_tokens docs)) eqn:Ht.
    + destruct (BM25Okapi_returns _ k1 b Ht) as [bm ->]. cbn [snd fst].
      split; [split; [discriminate | intros [_ H]; discriminate]|].
      discriminate.
    + rewrite (BM25Okapi_raises _ k1 b Ht). cbn [snd fst].
      split; [|reflexivity]. split; [|reflexivity].
      intros _. split; [discriminate | reflexivity].
Qed.

(** X13.  Once a persisted index is stored, [add_documents] always
    returns, with the number of documents given, whatever they are. *)
Theorem add_documents_to_an_index_returns (w : world) (index_path : string)
  (docs : list Msg) (k1 b : R) (rebuild_threshold : Z) (data : IndexData) :
  fs w index_path = Some (IndexPickle data) ->
  persisted data ->
  snd (add_documents w index_path docs k1 b rebuild_threshold)
  = Ok (List.length docs)
  /\ stderr (fst (add_documents w index_path docs k1 b rebuild_threshold))
     = stderr w.
Proof.
  intros Hf [(k1' & b' & Hbm) _].
  assert (Ht : has_token (tokenized_corpus data ++ map msg_tokens docs) = true).
  { rewrite has_token_app, (BM25Okapi_has_token _ k1' b' _ Hbm).
    reflexivity. }
  destruct (BM25Okapi_returns _ k1 b Ht) as [bm Hnew].
  unfold add_documents. rewrite Hf, Hnew. cbn [snd fst stderr].
  now rewrite length_map.
Qed.

Lemma add_documents_to_an_index_returns_witness :
  snd (add_documents (indexed_world cat_docs cat_index) "data/index.pkl"
         [doc "3" "?!"; doc "3" "?!"] 2 0.5 1000)
  = Ok 2%nat.
Proof.
  apply (add_documents_to_an_index_returns
           (indexed_world cat_docs cat_index) "data/index.pkl"
           [doc "3" "?!"; doc "3" "?!"] 2 0.5 1000 cat_index eq_refl
           persisted_cat).
Defined.

Lemma build_index_frame (w : world) (corpus_json_path index_path : string)
  (k1 b : R) (path : string) :
  path <> index_path ->
  fs (fst (build_index w corpus_json_path index_path k1 b)) path = fs w path.
Proof.
  intros Hne. apply String.eqb_neq in Hne. unfold build_index.
  destruct (fs w corpus_json_path) as [[data|data]|]; try reflexivity.
  destruct (BM25Okapi _ k1 b); [|reflexivity].
  destruct (makedirs_dirname index_path); [|reflexivity].
  cbn [fst fs]. unfold write_file. now rewrite Hne.
Qed.

Lemma add_documents_frame (w : world) (index_path : string)
  (docs : list Msg) (k1 b : R) (rebuild_threshold : Z) (path : string) :
  path <> index_path ->
  fs (fst (add_documents w index_path docs k1 b rebuild_threshold)) path
  = fs w path.
Proof.
  intros Hne. apply String.eqb_neq in Hne. unfold add_documents.
  destruct (fs w index_path) as [[data|data]|]; try reflexivity;
    (destruct (BM25Okapi _ k1 b); [|reflexivity]);
    cbn [fst fs]; unfold write_file; now rewrite Hne.
Qed.

(** X14.  [build_index] and [add_documents] change no file other than the
    one at the index path, and [build_index] prints nothing. *)
Theorem only_the_index_is_written (w : world)
  (corpus_json_path index_path path : string) (docs : list Msg) (k1 b : R)
  (rebuild_threshold : Z) :
  path <> index_path ->
  fs (fst (build_index w corpus_json_path index_path k1 b)) path = fs w path
  /\ stderr (fst (build_index w corpus_json_path index_path k1 b))
     = stderr w
  /\ fs (fst (add_documents w index_path docs k1 b rebuild_threshold)) path
     = fs w path.
Proof.
  intros Hne.
  split; [now apply build_index_frame|].
  split; [|now apply add_documents_frame].
  unfold build_index.
  destruct (fs w corpus_json_path) as [[data|data]|]; try reflexivity.
  destruct (BM25Okapi _ k1 b); [|reflexivity].
  now destruct (makedirs_dirname index_path).
Qed.

Lemma only_the_index_is_written_witness :
  fs (fst (build_index (corpus_world cat_docs) "data/corpus.json"
             "data/index.pkl" 1.2 0.75)) "data/corpus.json"
  = Some (CorpusJson (Some cat_docs)).
Proof.
  apply (only_the_index_is_written (corpus_world cat_docs) "data/corpus.json"
           "data/index.pkl" "data/corpus.json" [] 1.2 0.75 0).
  discriminate.
Defined.

Lemma new_id_of_id (msg : Msg) :
  py_bool (doc_id msg) = true -> new_id msg = doc_id msg.
Proof.
  unfold new_id, py_or, doc_id. intros H. rewrite H.
  cbn match. now rewrite H.
Qed.

(** X15.  Where there is no index yet, [add_documents] of documents that
    all have an [id] that Python takes as true (not absent, and not
    [null], [false], zero or empty) leaves the files that [build_index]
    leaves for a corpus of these documents, and returns their number where
    [build_index] returns it twice; where one raises, so does the other. *)
Theorem add_to_no_index_is_build (w : world)
  (corpus_json_path index_path : string) (docs : list Msg) (k1 b : R)
  (rebuild_threshold : Z) :
  fs w corpus_json_path = Some (CorpusJson (Some docs)) ->
  fs w index_path = None ->
  has_dirname index_path = true ->
  Forall (fun msg => py_bool (doc_id msg) = true) docs ->
  (forall path,
      fs (fst (add_documents w index_path docs k1 b rebuild_threshold)) path
      = fs (fst (build_index w corpus_json_path index_path k1 b)) path)
  /\ snd (add_documents w index_path docs k1 b rebuild_threshold)
     = match snd (build_index w corpus_json_path index_path k1 b) with
       | Ok r => Ok (fst r)
       | Raise e => Raise e
       end.
Proof.
  intros Hc Hi Hdir Hids.
  rewrite (@add_documents_missing w index_path docs k1 b rebuild_threshold Hi).
  unfold build_index, makedirs_dirname. rewrite Hc, Hdir. cbn [get_docs].
  assert (Hmap : map new_id docs = map doc_id docs).
  { apply map_ext_in. intros msg Hm. apply new_id_of_id.
    rewrite Forall_forall in Hids. now apply Hids. }
  rewrite Hmap.
  destruct (BM25Okapi (map msg_tokens docs) k1 b); cbn [fst snd fs]; auto.
Qed.

Lemma add_to_no_index_is_build_witness :
  snd (add_documents (corpus_world cat_docs) "data/index.pkl" cat_docs
         1.2 0.75 1000)
  = match snd (build_index (corpus_world cat_docs) "data/corpus.json"
                 "data/index.pkl" 1.2 0.75) with
    | Ok r => Ok (fst r)
    | Raise e => Raise e
    end.
Proof.
  apply (add_to_no_index_is_build (corpus_world cat_docs) "data/corpus.json"
           "data/index.pkl" cat_docs 1.2 0.75 1000);
    try reflexivity.
  repeat constructor.
Defined.

(** X16.  After an [add_documents] that returned, a second one returns
    too, and leaves the files that a single [add_documents] of the two lists
    of documents together, with the parameters of the second, leaves. *)
Theorem add_documents_twice (w w1 : world) (index_path : string)
  (docs1 docs2 : list Msg) (k1' b' k1 b : R)
  (threshold1 threshold2 threshold : Z) (n1 : nat) :
  add_documents w index_path docs1 k1' b' threshold1 = (w1, Ok n1) ->
  snd (add_documents w1 index_path docs2 k1 b threshold2)
  = Ok (List.length docs2)
  /\ snd (add_documents w index_path (docs1 ++ docs2) k1 b threshold)
     = Ok (n1 + List.length docs2)%nat
  /\ forall path,
       fs (fst (add_documents w1 index_path docs2 k1 b threshold2)) path
       = fs (fst (add_documents w index_path (docs1 ++ docs2) k1 b threshold))
           path.
Proof.
  intros H1.
  assert (Hframe : forall path, path <> index_path -> fs w1 path = fs w path).
  { intros path Hne.
    pose proof (add_documents_frame w index_path docs1 k1' b' threshold1
                  path Hne) as Hf.
    now rewrite H1 in Hf. }
  destruct (@add_documents_inv _ _ _ _ _ _ _ _ H1) as (bm1 & Hbm1 & Hw1 & ->).
  assert (Ht : has_token ((prior_corpus w index_path ++ map msg_tokens docs1)
                          ++ map msg_tokens docs2) = true).
  { rewrite has_token_app, (BM25Okapi_has_token _ k1' b' _ Hbm1).
    reflexivity. }
  destruct (BM25Okapi_returns _ k1 b Ht) as [bm Hbm].
  assert (H2 : add_documents w1 index_path docs2 k1 b threshold2
               = ({| fs := write_file (fs w1) index_path
                             (IndexPickle
                                {| bm25 := bm;
                                   doc_ids :=
                                     (prior_ids w index_path
                                      ++ map new_id docs1)
                                     ++ map new_id docs2;
                                   tokenized_corpus :=
                                     (prior_corpus w index_path
                                      ++ map msg_tokens docs1)
                                     ++ map msg_tokens docs2 |});
                     stderr := stderr w1 |},
                  Ok (List.length docs2))).
  { unfold add_documents. rewrite Hw1. cbn [doc_ids tokenized_corpus].
    now rewrite Hbm, length_map. }
  assert (Hnc : forall data, fs w index_path <> Some (CorpusJson data)).
  { intros data Hd. unfold add_documents in H1. rewrite Hd in H1.
    discriminate. }
  rewrite <- app_assoc, <- map_app in Hbm.
  destruct (@add_documents_returns w index_path (docs1 ++ docs2) k1 b
              threshold bm Hnc Hbm) as [err H12].
  rewrite H2, H12. cbn [fst snd fs].
  split; [reflexivity|]. split; [now rewrite length_app|].
  intros path. unfold write_file.
  destruct (String.eqb_spec path index_path) as [->|Hne].
  - now rewrite !map_app, !app_assoc.
  - now apply Hframe.
Qed.

Lemma add_documents_twice_witness :
  snd (add_documents
         (fst (add_documents empty_world "data/index.pkl" cat_docs
                 1.2 0.75 1000))
         "data/index.pkl" tie_docs 1.5 0.5 1000)
  = Ok 5%nat.
Proof.
  destruct (add_documents empty_world "data/index.pkl" cat_docs 1.2 0.75 1000)
    as [w1 r1] eqn:E.
  assert (Hr : r1 = Ok 2%nat).
  { pose proof (f_equal snd E) as Hs. cbn [snd] in Hs. rewrite <- Hs.
    destruct (BM25Okapi_returns (map msg_tokens cat_docs) 1.2 0.75 eq_refl)
      as [bm Hbm].
    rewrite (@add_documents_missing empty_world "data/index.pkl" cat_docs
               1.2 0.75 1000 eq_refl).
    now rewrite Hbm. }
  subst r1. cbn [fst].
  apply (add_documents_twice empty_world w1 "data/index.pkl" cat_docs
           tie_docs 1.2 0.75 1.5 0.5 1000 1000 1000 2 E).
Defined.

(** X17.  Running [build_index] again after it returned, on a corpus path
    other than the index path, returns the same counts and leaves every
    file as the first run left it. *)
Theorem build_index_again (w w' : world)
  (corpus_json_path index_path : string) (k1 b : R) (r : nat * nat) :
  build_index w corpus_json_path index_path k1 b = (w', Ok r) ->
  corpus_json_path <> index_path ->
  snd (build_index w' corpus_json_path index_path k1 b) = Ok r
  /\ stderr (fst (build_index w' corpus_json_path index_path k1 b))
     = stderr w'
  /\ forall path,
       fs (fst (build_index w' corpus_json_path index_path k1 b)) path
       = fs w' path.
Proof.
  intros H Hne.
  destruct (@build_index_inv _ _ _ _ _ _ _ H)
    as (data & bm & Hf & Hbm & Hdir & Hw' & ->).
  assert (Hc : fs w' corpus_json_path = Some (CorpusJson data)).
  { pose proof (build_index_frame w corpus_json_path index_path k1 b
                  corpus_json_path Hne) as Hfs.
    rewrite H in Hfs. cbn [fst] in Hfs. now rewrite Hfs. }
  rewrite (@build_index_returns w' corpus_json_path index_path k1 b data bm
             Hc Hbm Hdir).
  cbn [fst snd fs stderr]. split; [reflexivity|]. split; [reflexivity|].
  intros path. unfold write_file.
  destruct (String.eqb_spec path index_path) as [->|_];
    [now rewrite Hw' | reflexivity].
Qed.

Lemma build_index_again_witness :
  snd (build_index (indexed_world cat_docs cat_index) "data/corpus.json"
         "data/index.pkl" 1.2 0.75)
  = Ok (2%nat, 2%nat).
Proof.
  apply (build_index_again (corpus_world cat_docs)
           (indexed_world cat_docs cat_index) "data/corpus.json"
           "data/index.pkl" 1.2 0.75 (2%nat, 2%nat) build_index_cat).
  discriminate.
Defined.

(** ** More on the tokenizer *)

Lemma chars_app (s1 s2 : string) :
  chars (s1 ++ s2) = chars s1 ++ chars s2.
Proof.
  unfold chars. induction s1 as [|c s1 IH]; cbn; [reflexivity|].
  now rewrite IH.
Qed.

Lemma str_nonempty (t : list ascii) : t <> [] -> str t <> "".
Proof. destruct t; [contradiction | discriminate]. Qed.

Lemma strip_urls_from_Forall (P : ascii -> Prop) (s : list ascii) :
  Forall P s -> forall skipping, Forall P (strip_urls_from skipping s).
Proof.
  induction 1 as [|c r Hc Hr IH]; intros skipping; [constructor|].
  cbn [strip_urls_from].
  destruct skipping; [destruct (is_space c) | destruct (starts_url (c :: r))];
    auto.
Qed.

Lemma strip_mentions_from_Forall (P : ascii -> Prop) (s : list ascii) :
  Forall P s -> forall skip, Forall P (strip_mentions_from skip s).
Proof.
  induction 1 as [|c r Hc Hr IH]; intros skip; [constructor|].
  cbn [strip_mentions_from].
  destruct skip; [destruct (mention_len (c :: r)) |]; auto.
Qed.

(** A character that is not white space after the punctuation pass and
    [lower] is the lower-case form of a word character. *)
Lemma lower_blank_origin (c : ascii) :
  is_space (lower_char (blank_punct c)) = false ->
  is_word c = true /\ lower_char (blank_punct c) = lower_char c.
Proof.
  each_char c; intros H; first [discriminate H | split; reflexivity].
Qed.

Lemma preprocess_chars_origin (P : ascii -> Prop) (text : list ascii) :
  Forall P text ->
  Forall
    (Forall (fun c => exists c0, P c0 /\ is_word c0 = true
                                 /\ c = lower_char c0))
    (preprocess_chars text).
Proof.
  intros HP. unfold preprocess_chars.
  apply Forall_forall. intros t Ht. apply filter_In in Ht as [Ht _].
  revert t Ht. apply Forall_forall.
  assert (H : Forall
                (fun t => t <> [] /\
                   Forall (fun c => exists c0, P c0 /\ is_word c0 = true
                                               /\ c = lower_char c0) t)
                (split (lower (strip_punct
                                 (strip_mentions (strip_urls text)))))).
  { unfold split. apply split_from_tokens; [constructor|].
    unfold lower, strip_punct. rewrite map_map.
    apply Forall_map.
    eapply Forall_impl;
      [|apply strip_mentions_from_Forall, strip_urls_from_Forall; exact HP].
    intros c0 Hc0 Hs. destruct (lower_blank_origin c0 Hs) as [Hw ->].
    exists c0. auto. }
  eapply Forall_impl; [|exact H]. now intros t [_ Ht].
Qed.

(** X18.  For a text of code points below 256, every token that
    [preprocess_text] returns is a non-empty string of word characters in
    lower case, none of them white space, and each of them is the
    lower-case form of a word character of the text.  (The characters of a
    [string] are these code points; beyond them the lower-case form of a
    word character can hold a character that is no word character, as that
    of U+0130 does.) *)
Theorem tokens_are_lower_case_words (text : string) :
  Forall
    (fun t =>
       t <> ""
       /\ Forall
            (fun c =>
               is_word c = true /\ lower_char c = c /\ is_space c = false
               /\ exists c0,
                    In c0 (chars text) /\ is_word c0 = true
                    /\ c = lower_char c0)
            (chars t))
    (preprocess_text text).
Proof.
  unfold preprocess_text. apply Forall_map.
  pose proof (preprocess_chars_tokens (chars text)) as Hok.
  pose proof (preprocess_chars_origin (fun c => In c (chars text))
                (chars text)) as Hor.
  specialize (Hor (proj2 (Forall_forall _ _) (fun c H => H))).
  rewrite Forall_forall in Hok, Hor. apply Forall_forall. intros t Ht.
  destruct (Hok t Ht) as [Hne Hchars]. specialize (Hor t Ht).
  split; [now apply str_nonempty|]. rewrite chars_str.
  rewrite Forall_forall in Hchars, Hor. apply Forall_forall. intros c Hc.
  destruct (Hchars c Hc) as [Hw Hl].
  repeat split; try assumption.
  - now apply token_char_not_space.
  - now apply Hor.
Qed.

(** X19.  A text with no word character, such as an empty one or one of
    white space and punctuation, has no token. *)
Theorem text_without_word_has_no_token (text : string) :
  Forall (fun c => is_word c = false) (chars text) ->
  preprocess_text text = [].
Proof.
  intros H. unfold preprocess_text.
  pose proof (preprocess_chars_tokens (chars text)) as Hok.
  pose proof (preprocess_chars_origin _ (chars text) H) as Hor.
  destruct (preprocess_chars (chars text)) as [|t rest]; [reflexivity|].
  inversion Hok as [|? ? [Hne _] _]; subst.
  inversion Hor as [|? ? Ht _]; subst.
  destruct t as [|c t]; [contradiction|].
  inversion Ht as [|? ? (c0 & Hf & Ht' & _) _]; subst. congruence.
Qed.

Lemma text_without_word_has_no_token_witness :
  preprocess_text " ...  (?!) -> <@> " = [].
Proof.
  apply text_without_word_has_no_token. vm_compute. repeat constructor.
Defined.

(** *** White space separates the work of the tokenizer *)

Lemma space_facts (sp : ascii) :
  is_space sp = true ->
  is_word sp = false /\ sp <> "<"%char /\ sp <> ">"%char
  /\ is_space (lower_char (blank_punct sp)) = true.
Proof.
  each_char sp; intros H; first [discriminate H | repeat split; discriminate].
Qed.

Lemma strip_urls_from_space (a : list ascii) (sp : ascii) (b : list ascii) :
  is_space sp = true ->
  forall skipping,
    strip_urls_from skipping (a ++ sp :: b)
    = strip_urls_from skipping a ++ sp :: strip_urls_from false b.
Proof.
  intros Hsp. induction a as [|c r IH]; intros skipping.
  - cbn [app strip_urls_from]. rewrite Hsp.
    rewrite (starts_url_before_space [] sp b Hsp
             : starts_url (sp :: b) = false).
    now destruct skipping.
  - change ((c :: r) ++ sp :: b) with (c :: (r ++ sp :: b)).
    cbn [strip_urls_from].
    change (c :: r ++ sp :: b) with ((c :: r) ++ sp :: b).
    rewrite (starts_url_before_space (c :: r) sp b Hsp), !IH.
    destruct skipping; [destruct (is_space c) | destruct (starts_url (c :: r))];
      reflexivity.
Qed.

Lemma span_word_le (s : list ascii) : (span_word s <= List.length s)%nat.
Proof.
  induction s as [|c r IH]; cbn [span_word List.length]; [lia|].
  destruct (is_word c); lia.
Qed.

Lemma span_word_space (u : list ascii) (sp : ascii) (r : list ascii) :
  is_word sp = false -> span_word (u ++ sp :: r) = span_word u.
Proof.
  intros Hsp. induction u as [|c u IH]; cbn [app span_word].
  - now rewrite Hsp.
  - destruct (is_word c); [now rewrite IH | reflexivity].
Qed.

Lemma mention_len_space (u : list ascii) (sp : ascii) (r : list ascii) :
  is_space sp = true -> mention_len (u ++ sp :: r) = mention_len u.
Proof.
  intros Hsp. destruct (space_facts sp Hsp) as (Hw & Hlt & Hgt & _).
  destruct u as [|c1 u].
  - cbn [app]. now apply mention_len_head.
  - destruct (ascii_dec c1 "<"%char) as [->|Hc1];
      [|cbn [app]; now rewrite !mention_len_head].
    destruct u as [|c2 u].
    + cbn [app]. unfold mention_len.
      destruct sp as [[] [] [] [] [] [] [] []];
        first [reflexivity | discriminate Hsp].
    + destruct (ascii_dec c2 "@"%char) as [->|Hc2].
      * cbn [app mention_len]. rewrite span_word_space by assumption.
        pose proof (span_word_le u) as Hle.
        destruct (span_word u) as [|n0] eqn:Es; [reflexivity|].
        destruct (Nat.eq_dec (S n0) (List.length u)) as [He|Hn].
        -- rewrite He, nth_error_app2, Nat.sub_diag by lia.
           cbn [nth_error].
           rewrite (proj2 (nth_error_None u (List.length u))) by lia.
           destruct sp as [[] [] [] [] [] [] [] []]; try reflexivity.
           now elim Hgt.
        -- now rewrite nth_error_app1 by lia.
      * cbn [app]. unfold mention_len.
        destruct c2 as [[] [] [] [] [] [] [] []]; try reflexivity.
        now elim Hc2.
Qed.

Lemma mention_len_le (u : list ascii) (n : nat) :
  mention_len u = Some n -> (n <= List.length u)%nat.
Proof.
  destruct u as [|c1 [|c2 u]]; try discriminate.
  - destruct c1 as [[] [] [] [] [] [] [] []]; discriminate.
  - destruct (ascii_dec c1 "<"%char) as [->|Hc1];
      [|now rewrite mention_len_head].
    destruct (ascii_dec c2 "@"%char) as [->|Hc2].
    + cbn [mention_len].
      destruct (span_word u) as [|n'] eqn:Es; [discriminate|].
      destruct (nth_error u (S n')) as [c|] eqn:En; [|discriminate].
      assert (Hlt : (S n' < List.length u)%nat)
        by (apply nth_error_Some; congruence).
      destruct c as [[] [] [] [] [] [] [] []]; try discriminate.
      intros [= <-]. cbn [List.length]. lia.
    + unfold mention_len.
      destruct c2 as [[] [] [] [] [] [] [] []]; try discriminate.
      now elim Hc2.
Qed.

Lemma strip_mentions_from_space (a : list ascii) (sp : ascii)
  (b : list ascii) :
  is_space sp = true ->
  forall skip,
    (skip <= List.length a)%nat ->
    strip_mentions_from skip (a ++ sp :: b)
    = strip_mentions_from skip a ++ sp :: strip_mentions_from 0 b.
Proof.
  intros Hsp. destruct (space_facts sp Hsp) as (_ & Hlt & _).
  induction a as [|c r IH]; intros skip Hskip.
  - cbn [List.length] in Hskip. assert (skip = 0%nat) by lia. subst skip.
    cbn [app strip_mentions_from]. now rewrite mention_len_head.
  - change ((c :: r) ++ sp :: b) with (c :: (r ++ sp :: b)).
    cbn [strip_mentions_from List.length] in *.
    destruct skip as [|k]; [|apply IH; lia].
    change (c :: r ++ sp :: b) with ((c :: r) ++ sp :: b).
    rewrite (mention_len_space (c :: r) sp b Hsp).
    destruct (mention_len (c :: r)) as [n|] eqn:En.
    + apply mention_len_le in En. cbn [List.length] in En. apply IH. lia.
    + rewrite IH by lia. reflexivity.
Qed.

Lemma split_from_space (x : list ascii) (sp : ascii) (y : list ascii) :
  is_space sp = true ->
  forall cur,
    split_from cur (x ++ sp :: y) = split_from cur x ++ split_from [] y.
Proof.
  intros Hsp. induction x as [|c r IH]; intros cur.
  - cbn [app split_from]. rewrite Hsp. now destruct cur.
  - change ((c :: r) ++ sp :: y) with (c :: (r ++ sp :: y)).
    cbn [split_from]. rewrite !IH.
    destruct (is_space c); [destruct cur|]; reflexivity.
Qed.

Lemma preprocess_chars_space (a : list ascii) (sp : ascii) (b : list ascii) :
  is_space sp = true ->
  preprocess_chars (a ++ sp :: b) = preprocess_chars a ++ preprocess_chars b.
Proof.
  intros Hsp. destruct (space_facts sp Hsp) as (_ & _ & _ & Hl).
  unfold preprocess_chars, strip_urls, strip_mentions.
  rewrite strip_urls_from_space by assumption.
  rewrite strip_mentions_from_space by (assumption || lia).
  unfold strip_punct, lower, split.
  rewrite !map_app. cbn [map].
  rewrite split_from_space by assumption.
  apply filter_app.
Qed.

Lemma preprocess_text_space (text1 text2 : string) :
  preprocess_text (text1 ++ " " ++ text2)
  = preprocess_text text1 ++ preprocess_text text2.
Proof.
  unfold preprocess_text. rewrite chars_app.
  change (chars (" " ++ text2)) with (" "%char :: chars text2).
  rewrite preprocess_chars_space by reflexivity.
  apply map_app.
Qed.

(** X20.  The tokens of two texts joined by a white-space character are
    the tokens of the first followed by the tokens of the second: no match
    and no token reaches across white space. *)
Theorem preprocess_text_of_joined_texts (text1 text2 : string)
  (sp : ascii) :
  is_space sp = true ->
  preprocess_text (text1 ++ String sp text2)
  = preprocess_text text1 ++ preprocess_text text2.
Proof.
  intros Hsp. unfold preprocess_text. rewrite chars_app.
  change (chars (String sp text2)) with (sp :: chars text2).
  rewrite preprocess_chars_space by exact Hsp.
  apply map_app.
Qed.

Lemma preprocess_text_of_joined_texts_witness :
  preprocess_text "see <@U1>, http://a.b/c" = ["see"]
  /\ preprocess_text ("see <@U1>, http://a.b/c" ++ String "010" "Now!")
     = ["see"; "now"].
Proof.
  assert (H : preprocess_text "see <@U1>, http://a.b/c" = ["see"])
    by (vm_compute; reflexivity).
  split; [exact H|].
  rewrite preprocess_text_of_joined_texts by reflexivity.
  rewrite H. reflexivity.
Defined.

Lemma append_assoc (s1 s2 s3 : string) :
  ((s1 ++ s2) ++ s3 = s1 ++ s2 ++ s3)%string.
Proof. induction s1 as [|c s1 IH]; cbn; [reflexivity | now rewrite IH]. Qed.

(** X21.  The tokens indexed for a message are the tokens of what [str]
    gives for its text, then for its user name, then for its channel, each
    taken as empty when the key is absent (and as [None] when it holds
    [null]), then [threaded] and [reply] when the message has a true
    [thread_ts] that differs from its [ts]. *)
Theorem msg_tokens_by_field (msg : Msg) :
  msg_tokens msg
  = preprocess_text (py_str (get_or (PyStr "") (msg_text msg)))
    ++ preprocess_text (py_str (get_or (PyStr "") (msg_username msg)))
    ++ preprocess_text (py_str (get_or (PyStr "") (msg_channel msg)))
    ++ (if py_bool (get (msg_thread_ts msg))
           && negb (py_eq (get (msg_thread_ts msg)) (get (msg_ts msg)))
        then ["threaded"; "reply"] else []).
Proof.
  unfold msg_tokens, combined, is_threaded_reply.
  destruct (py_bool (get (msg_thread_ts msg))
            && negb (py_eq (get (msg_thread_ts msg)) (get (msg_ts msg)))).
  - change " [threaded reply]" with (" " ++ "[threaded reply]")%string.
    rewrite !append_assoc.
    rewrite !preprocess_text_space.
    change (preprocess_text "[threaded reply]") with ["threaded"; "reply"].
    reflexivity.
  - rewrite !preprocess_text_space. now rewrite app_nil_r.
Qed.

(** ** The reranker *)

Example prepare_demo :
  _prepare {| rr_text := Some "deploy failed"; rr_author := Some "ana";
              rr_channel_name := Some ""; rr_thread_parent_text := None |}
  = "Message: deploy failed | From: ana".
Proof. reflexivity. Qed.

Lemma insert_desc_perm (x : nat * R) (l : list (nat * R)) :
  Permutation (insert_desc x l) (x :: l).
Proof.
  induction l as [|y r IH]; cbn [insert_desc]; [reflexivity|].
  destruct (Rlt_dec _ _); [reflexivity|].
  rewrite IH. apply perm_swap.
Qed.

Lemma rank_order_trans (x y z : nat * R) :
  rank_order x y -> rank_order y z -> rank_order x z.
Proof.
  unfold rank_order. intros [H|[H H']] [G|[G G']];
    (left; lra) || (right; split; [lra | lia]).
Qed.

Lemma insert_desc_sorted (x : nat * R) (l : list (nat * R)) :
  StronglySorted rank_order l ->
  Forall (fun y => (fst y < fst x)%nat) l ->
  StronglySorted rank_order (insert_desc x l).
Proof.
  induction 1 as [|y r Hr IH Hy]; intros Hlt; cbn [insert_desc].
  - repeat constructor.
  - inversion Hlt as [|? ? Hyx Hrx]; subst.
    destruct (Rlt_dec (snd y) (snd x)) as [Hs|Hs].
    + constructor; [now constructor|].
      constructor; [now left|].
      eapply Forall_impl; [|exact Hy].
      intros z Hz. eapply rank_order_trans; [|exact Hz]. now left.
    + constructor; [now apply IH|].
      assert (Hx : rank_order y x).
      { unfold rank_order.
        destruct (Rtotal_order (snd x) (snd y)) as [H|[H|H]];
          [now left | now right | lra]. }
      eapply Permutation_Forall; [symmetry; apply insert_desc_perm|].
      now constructor.
Qed.

Lemma sort_desc_from (l : list (nat * R)) :
  StronglySorted (fun x y => (fst x < fst y)%nat) l ->
  forall acc,
    StronglySorted rank_order acc ->
    Forall (fun y => Forall (fun x => (fst y < fst x)%nat) l) acc ->
    StronglySorted rank_order (fold_left (fun acc x => insert_desc x acc) l acc)
    /\ Permutation (fold_left (fun acc x => insert_desc x acc) l acc)
         (acc ++ l).
Proof.
  induction 1 as [|x l Hl IH Hx]; intros acc Hacc Hlt; cbn [fold_left].
  - rewrite app_nil_r. auto.
  - destruct (IH (insert_desc x acc)) as [H1 H2].
    + apply insert_desc_sorted; [exact Hacc|].
      eapply Forall_impl; [|exact Hlt].
      intros y Hy. now inversion Hy.
    + eapply Permutation_Forall; [symmetry; apply insert_desc_perm|].
      constructor; [exact Hx|].
      eapply Forall_impl; [|exact Hlt].
      intros y Hy. now inversion Hy.
    + split; [exact H1|].
      rewrite H2, insert_desc_perm.
      change (x :: acc) with ([x] ++ acc).
      rewrite (Permutation_app_comm [x] acc), <- app_assoc. reflexivity.
Qed.

Lemma combine_seq_sorted (scores : list R) :
  forall start n,
    StronglySorted (fun x y : nat * R => (fst x < fst y)%nat)
      (combine (seq start n) scores).
Proof.
  induction scores as [|s scores IH]; intros start n.
  - rewrite combine_nil. constructor.
  - destruct n as [|n]; cbn [seq combine]; constructor; [apply IH|].
    apply Forall_forall. intros [i s'] Hin. cbn [fst].
    apply in_combine_l in Hin. apply in_seq in Hin. lia.
Qed.

Lemma sort_desc_indexed (n : nat) (scores : list R) :
  StronglySorted rank_order (sort_desc (combine (seq 0 n) scores))
  /\ Permutation (sort_desc (combine (seq 0 n) scores))
       (combine (seq 0 n) scores).
Proof.
  unfold sort_desc.
  destruct (sort_desc_from _ (combine_seq_sorted scores 0 n) []
              (SSorted_nil _) (Forall_nil _)) as [H1 H2].
  auto.
Qed.

Lemma StronglySorted_firstn {A : Type} (R : A -> A -> Prop) (n : nat)
  (l : list A) :
  StronglySorted R l -> StronglySorted R (firstn n l).
Proof.
  intros H. rewrite <- (firstn_skipn n l) in H.
  now apply StronglySorted_app_inv in H.
Qed.

Lemma slice_to_firstn {A : Type} (stop : Z) (a : list A) :
  exists n, slice_to stop a = firstn n a.
Proof. unfold slice_to. eauto. Qed.

Lemma rerank_unfold (predict : list (string * string) -> list R)
  (query : string) (messages : list RerankMsg) (top_k : Z) :
  rerank predict query messages top_k
  = slice_to top_k
      (sort_desc
         (combine (seq 0 (List.length messages))
            (predict (map (fun m => (query, _prepare m)) messages)))).
Proof.
  unfold rerank. destruct messages as [|m messages].
  - cbn [List.length seq combine sort_desc fold_left].
    unfold slice_to. now rewrite firstn_nil.
  - rewrite <- (map_id (slice_to _ _)) at 2.
    apply map_ext. now intros [i s].
Qed.

(** X22.  Whatever the scores of the model and whatever [top_k],
    [rerank] returns its pairs in descending order of score, and pairs of
    one score in ascending order of the index of the message. *)
Theorem rerank_is_ranked (predict : list (string * string) -> list R)
  (query : string) (messages : list RerankMsg) (top_k : Z) :
  StronglySorted rank_order (rerank predict query messages top_k).
Proof.
  rewrite rerank_unfold.
  destruct (slice_to_firstn top_k
              (sort_desc
                 (combine (seq 0 (List.length messages))
                    (predict (map (fun m => (query, _prepare m)) messages)))))
    as [k ->].
  apply StronglySorted_firstn.
  apply sort_desc_indexed.
Qed.

Lemma slice_to_length {A : Type} (stop : Z) (a : list A) :
  Z.of_nat (List.length (slice_to stop a))
  = if (stop <? 0)%Z then Z.max 0 (stop + Z.of_nat (List.length a))
    else Z.min stop (Z.of_nat (List.length a)).
Proof.
  unfold slice_to. rewrite length_firstn.
  destruct (Z.ltb_spec stop 0); lia.
Qed.

Lemma sort_desc_length (n : nat) (scores : list R) :
  List.length (sort_desc (combine (seq 0 n) scores))
  = Nat.min n (List.length scores).
Proof.
  rewrite (Permutation_length (proj2 (sort_desc_indexed n scores))).
  now rewrite length_combine, length_seq.
Qed.

(** X23.  When the model gives one score for each message, [rerank]
    returns [top_k] pairs, or one for each message if they are fewer, for
    [top_k] not negative; for a negative [top_k] it returns all pairs but
    the last [- top_k] of the ranking. *)
Theorem rerank_length (predict : list (string * string) -> list R)
  (query : string) (messages : list RerankMsg) (top_k : Z) :
  List.length (predict (map (fun m => (query, _prepare m)) messages))
  = List.length messages ->
  Z.of_nat (List.length (rerank predict query messages top_k))
  = if (top_k <? 0)%Z
    then Z.max 0 (Z.of_nat (List.length messages) + top_k)
    else Z.min top_k (Z.of_nat (List.length messages)).
Proof.
  intros Hlen. rewrite rerank_unfold, slice_to_length, sort_desc_length, Hlen.
  rewrite Nat.min_id. destruct (top_k <? 0)%Z; lia.
Qed.

(** A model that scores a pair by the length of its second text. *)
Lemma rerank_length_witness :
  Z.of_nat
    (List.length
       (rerank (map (fun p => INR (String.length (snd p)))) "q"
          [ {| rr_text := Some "a"; rr_author := None;
               rr_channel_name := None; rr_thread_parent_text := None |};
            {| rr_text := Some "bb"; rr_author := None;
               rr_channel_name := None; rr_thread_parent_text := None |} ]
          (-1)))
  = 1%Z.
Proof.
  rewrite rerank_length; [reflexivity|]. now rewrite !length_map.
Defined.

Lemma rerank_in_indexed (predict : list (string * string) -> list R)
  (query : string) (messages : list RerankMsg) (top_k : Z) (p : nat * R) :
  In p (rerank predict query messages top_k) ->
  In p (combine (seq 0 (List.length messages))
          (predict (map (fun m => (query, _prepare m)) messages))).
Proof.
  rewrite rerank_unfold. intros H.
  destruct (slice_to_firstn top_k
              (sort_desc
                 (combine (seq 0 (List.length messages))
                    (predict (map (fun m => (query, _prepare m)) messages)))))
    as [k Hk].
  rewrite Hk in H.
  eapply Permutation_in; [apply sort_desc_indexed|].
  rewrite <- (firstn_skipn k). apply in_or_app. now left.
Qed.

Lemma in_combine_seq (scores : list R) (i : nat) (s : R) :
  forall start n,
    In (i, s) (combine (seq start n) scores) ->
    (start <= i < start + n)%nat /\ nth_error scores (i - start) = Some s.
Proof.
  induction scores as [|s0 scores IH]; intros start n H.
  - rewrite combine_nil in H. contradiction.
  - destruct n as [|n]; cbn [seq combine In] in H; [contradiction|].
    destruct H as [[= <- <-]|H].
    + rewrite Nat.sub_diag. split; [lia | reflexivity].
    + destruct (IH (S start) n H) as [Hr Hn]. split; [lia|].
      replace (i - start)%nat with (S (i - S start)) by lia. exact Hn.
Qed.

Lemma NoDup_map_fst_sorted (l : list (nat * R)) :
  StronglySorted (fun x y => (fst x < fst y)%nat) l -> NoDup (map fst l).
Proof.
  induction 1 as [|x l Hl IH Hx]; cbn [map]; constructor; [|exact IH].
  intros Hin. apply in_map_iff in Hin as (y & Hy & Hin).
  rewrite Forall_forall in Hx. specialize (Hx y Hin). lia.
Qed.

Lemma NoDup_firstn {A : Type} (n : nat) (l : list A) :
  NoDup l -> NoDup (firstn n l).
Proof.
  intros H. rewrite <- (firstn_skipn n l) in H.
  now apply NoDup_app_remove_r in H.
Qed.

(** X24.  Every pair that [rerank] returns is the index of a message with
    the score that the model gave to that message, and no index comes
    twice. *)
Theorem rerank_pairs (predict : list (string * string) -> list R)
  (query : string) (messages : list RerankMsg) (top_k : Z) :
  NoDup (map fst (rerank predict query messages top_k))
  /\ forall i s,
       In (i, s) (rerank predict query messages top_k) ->
       (i < List.length messages)%nat
       /\ nth_error (predict (map (fun m => (query, _prepare m)) messages)) i
          = Some s.
Proof.
  split.
  - rewrite rerank_unfold.
    destruct (slice_to_firstn top_k
                (sort_desc
                   (combine (seq 0 (List.length messages))
                      (predict
                         (map (fun m => (query, _prepare m)) messages)))))
      as [k ->].
    rewrite <- firstn_map. apply NoDup_firstn.
    eapply Permutation_NoDup;
      [symmetry; apply Permutation_map, sort_desc_indexed|].
    apply NoDup_map_fst_sorted, combine_seq_sorted.
  - intros i s H. apply rerank_in_indexed in H.
    apply in_combine_seq in H as [Hr Hn].
    rewrite Nat.sub_0_r in Hn. split; [lia | exact Hn].
Qed.

Lemma nth_error_combine {A B : Type} (l1 : list A) (l2 : list B) (j : nat)
  (a : A) (c : B) :
  nth_error l1 j = Some a -> nth_error l2 j = Some c ->
  nth_error (combine l1 l2) j = Some (a, c).
Proof.
  revert l2 j. induction l1 as [|x l1 IH]; intros [|y l2] [|j] H1 H2;
    cbn in *; try discriminate.
  - congruence.
  - now apply IH.
Qed.

(** X25.  Whatever [top_k], a message that [rerank] leaves out has a score
    that is at most the score of every pair returned. *)
Theorem rerank_keeps_the_best (predict : list (string * string) -> list R)
  (query : string) (messages : list RerankMsg) (top_k : Z) (i j : nat)
  (s sj : R) :
  In (i, s) (rerank predict query messages top_k) ->
  (j < List.length messages)%nat ->
  nth_error (predict (map (fun m => (query, _prepare m)) messages)) j
  = Some sj ->
  ~ In (j, sj) (rerank predict query messages top_k) ->
  sj <= s.
Proof.
  rewrite rerank_unfold.
  set (indexed := combine _ _).
  destruct (slice_to_firstn top_k (sort_desc indexed)) as [k ->].
  intros Hi Hj Hs Hout.
  assert (Hin : In (j, sj) (sort_desc indexed)).
  { eapply Permutation_in; [symmetry; apply sort_desc_indexed|].
    subst indexed.
    assert (Hc : nth_error
                   (combine (seq 0 (List.length messages))
                      (predict
                         (map (fun m => (query, _prepare m)) messages))) j
                 = Some (j, sj)).
    { apply nth_error_Some in Hj as Hj'.
      rewrite <- length_seq with (start := 0%nat) in Hj.
      assert (Hseq : nth_error (seq 0 (List.length messages)) j = Some j).
      { rewrite nth_error_nth' with (d := 0%nat) by exact Hj.
        rewrite seq_nth by (rewrite length_seq in Hj; exact Hj).
        reflexivity. }
      now apply nth_error_combine. }
    exact (nth_error_In _ _ Hc). }
  rewrite <- (firstn_skipn k (sort_desc indexed)) in Hin.
  apply in_app_or in Hin as [Hin|Hin]; [contradiction|].
  pose proof (proj1 (sort_desc_indexed (List.length messages)
                       (predict
                          (map (fun m => (query, _prepare m)) messages))))
    as Hsorted.
  fold indexed in Hsorted.
  rewrite <- (firstn_skipn k (sort_desc indexed)) in Hsorted.
  apply StronglySorted_app_inv in Hsorted as (_ & _ & H).
  specialize (H _ _ Hi Hin). unfold rank_order in H. cbn [fst snd] in H.
  destruct H as [H|[H _]]; lra.
Qed.

Lemma rerank_keeps_the_best_witness :
  INR 7 <= INR 11.
Proof.
  apply (rerank_keeps_the_best
           (map (fun p => INR (String.length (snd p)))) ""
           [ {| rr_text := None; rr_author := Some "a";
                rr_channel_name := None; rr_thread_parent_text := None |};
             {| rr_text := None; rr_author := None;
                rr_channel_name := Some "b";
                rr_thread_parent_text := None |} ]
           1 1 0 (INR 11) (INR 7)).
  - rewrite rerank_unfold.
    change (map (fun m => ("", _prepare m)) _)
      with [("", "From: a"); ("", "Channel: #b")].
    cbn [map snd List.length seq combine sort_desc fold_left insert_desc].
    change (String.length "From: a") with 7%nat.
    change (String.length "Channel: #b") with 11%nat.
    destruct (Rlt_dec (INR 7) (INR 11)) as [_|Hn].
    + now left.
    + elim Hn. apply lt_INR. lia.
  - cbn. lia.
  - reflexivity.
  - rewrite rerank_unfold.
    change (map (fun m => ("", _prepare m)) _)
      with [("", "From: a"); ("", "Channel: #b")].
    cbn [map snd List.length seq combine sort_desc fold_left insert_desc].
    change (String.length "From: a") with 7%nat.
    change (String.length "Channel: #b") with 11%nat.
    destruct (Rlt_dec (INR 7) (INR 11)) as [_|Hn].
    + intros [H|[]]. discriminate H.
    + elim Hn. apply lt_INR. lia.
Defined.

Lemma map_fst_combine {A B : Type} (l1 : list A) (l2 : list B) :
  List.length l1 = List.length l2 -> map fst (combine l1 l2) = l1.
Proof.
  revert l2. induction l1 as [|a l1 IH]; intros [|c l2] H;
    cbn in *; try discriminate; [reflexivity|].
  f_equal. apply IH. lia.
Qed.

(** X26.  When the model gives one score for each message and [top_k] is
    at least the number of messages, [rerank] returns every index once. *)
Theorem rerank_returns_all (predict : list (string * string) -> list R)
  (query : string) (messages : list RerankMsg) (top_k : Z) :
  List.length (predict (map (fun m => (query, _prepare m)) messages))
  = List.length messages ->
  (Z.of_nat (List.length messages) <= top_k)%Z ->
  Permutation (map fst (rerank predict query messages top_k))
    (seq 0 (List.length messages)).
Proof.
  intros Hlen Hk. rewrite rerank_unfold.
  set (scores := predict _) in *.
  unfold slice_to. rewrite sort_desc_length, Hlen, Nat.min_id.
  replace (Z.to_nat _) with (List.length messages)
    by (destruct (Z.ltb_spec top_k 0); lia).
  rewrite firstn_all2 by (rewrite sort_desc_length; lia).
  rewrite (Permutation_map fst (proj2 (sort_desc_indexed _ scores))).
  rewrite map_fst_combine by (now rewrite length_seq).
  reflexivity.
Qed.

Lemma rerank_returns_all_witness :
  Permutation
    (map fst
       (rerank (map (fun p => INR (String.length (snd p)))) "q"
          [ {| rr_text := Some "a"; rr_author := None;
               rr_channel_name := None; rr_thread_parent_text := None |};
            {| rr_text := Some "bb"; rr_author := None;
               rr_channel_name := None; rr_thread_parent_text := None |} ]
          20))
    [0; 1]%nat.
Proof.
  apply (rerank_returns_all (map (fun p => INR (String.length (snd p)))) "q"
           [ {| rr_text := Some "a"; rr_author := None;
                rr_channel_name := None; rr_thread_parent_text := None |};
             {| rr_text := Some "bb"; rr_author := None;
                rr_channel_name := None; rr_thread_parent_text := None |} ]
           20).
  - now rewrite !length_map.
  - cbn. lia.
Defined.

(** X27.  [_prepare] gives the empty string exactly for a message none of
    whose four fields is present and non-empty. *)
Theorem prepare_empty_iff (msg : RerankMsg) :
  _prepare msg = ""
  <-> truthy (rr_text msg) = false
      /\ truthy (rr_author msg) = false
      /\ truthy (rr_channel_name msg) = false
      /\ truthy (rr_thread_parent_text msg) = false.
Proof.
  unfold _prepare, append_if.
  destruct (truthy (rr_text msg)), (truthy (rr_author msg)),
    (truthy (rr_channel_name msg)), (truthy (rr_thread_parent_text msg));
    cbn [app String.concat];
    (split; [intros H; try discriminate H | intros (H1 & H2 & H3 & H4);
                                           try discriminate]);
    auto.
Qed.

Lemma truthy_prefix (s : string) :
  truthy (Some (str_prefix 100 s)) = truthy (Some s).
Proof. destruct s; reflexivity. Qed.

Lemma str_prefix_twice (n : nat) (s : string) :
  str_prefix n (str_prefix n s) = str_prefix n s.
Proof.
  unfold str_prefix. rewrite chars_str, firstn_firstn, Nat.min_id.
  reflexivity.
Qed.

(** X28.  [_prepare] reads at most the first 100 characters of the thread
    parent text: cutting the text there does not change the result. *)
Theorem prepare_reads_100_characters (msg : RerankMsg) (thread : string) :
  rr_thread_parent_text msg = Some thread ->
  _prepare msg
  = _prepare {| rr_text := rr_text msg; rr_author := rr_author msg;
                rr_channel_name := rr_channel_name msg;
                rr_thread_parent_text := Some (str_prefix 100 thread) |}.
Proof.
  intros H. unfold _prepare, append_if.
  cbn [rr_text rr_author rr_channel_name rr_thread_parent_text].
  rewrite H, truthy_prefix. cbn [get_or_empty].
  now rewrite str_prefix_twice.
Qed.

Lemma prepare_reads_100_characters_witness :
  _prepare {| rr_text := None; rr_author := None; rr_channel_name := None;
              rr_thread_parent_text := Some "in thread" |}
  = "Thread: in thread".
Proof.
  rewrite (prepare_reads_100_characters
             {| rr_text := None; rr_author := None; rr_channel_name := None;
                rr_thread_parent_text := Some "in thread" |}
             "in thread" eq_refl).
  reflexivity.
Defined.

Lemma rerank_pairs_witness :
  (1 < 2)%nat
  /\ nth_error
       (map (fun p => INR (String.length (snd p)))
          (map (fun m => ("", _prepare m))
             [ {| rr_text := None; rr_author := Some "a";
                  rr_channel_name := None; rr_thread_parent_text := None |};
               {| rr_text := None; rr_author := None;
                  rr_channel_name := Some "b";
                  rr_thread_parent_text := None |} ])) 1
     = Some (INR 11).
Proof.
  apply (proj2 (rerank_pairs (map (fun p => INR (String.length (snd p)))) ""
                  [ {| rr_text := None; rr_author := Some "a";
                       rr_channel_name := None;
                       rr_thread_parent_text := None |};
                    {| rr_text := None; rr_author := None;
                       rr_channel_name := Some "b";
                       rr_thread_parent_text := None |} ] 1)).
  rewrite rerank_unfold.
  change (map (fun m => ("", _prepare m)) _)
    with [("", "From: a"); ("", "Channel: #b")].
  cbn [map snd List.length seq combine sort_desc fold_left insert_desc].
  change (String.length "From: a") with 7%nat.
  change (String.length "Channel: #b") with 11%nat.
  destruct (Rlt_dec (INR 7) (INR 11)) as [_|Hn].
  - now left.
  - elim Hn. apply lt_INR. lia.
Defined.

(** ** [add_documents] and then [search] *)

(** X29.  After [add_documents] returned, with [0 < k1] and [0 <= b < 1],
    on a store whose ids and documents were as many and that now holds at
    least three documents, a query of one token that is in one of the new
    documents and in no other document returns, for [top_k] at least 1, that
    document alone, with the id that [add_documents] gave it and a score
    above zero, whatever [argsort] does with equal scores. *)
Theorem add_documents_then_search (argsort : list R -> list nat)
  (w w' : world) (index_path : string)
  (docs : list Msg) (k1' b' : R) (rebuild_threshold : Z) (n : nat)
  (query tok : string) (top_k : Z) (j : nat) (msg : Msg) :
  sorts_ascending argsort ->
  add_documents w index_path docs k1' b' rebuild_threshold = (w', Ok n) ->
  List.length (prior_ids w index_path)
  = List.length (prior_corpus w index_path) ->
  0 < k1' -> 0 <= b' < 1 ->
  (1 <= top_k)%Z ->
  preprocess_text query = [tok] ->
  (3 <= List.length (prior_corpus w index_path) + List.length docs)%nat ->
  nth_error docs j = Some msg ->
  In tok (msg_tokens msg) ->
  (forall d, In d (prior_corpus w index_path) -> ~ In tok d) ->
  (forall i m, nth_error docs i = Some m -> In tok (msg_tokens m) -> i = j) ->
  exists score,
    0 < score
    /\ search argsort w' index_path query top_k = Ok [(new_id msg, score)].
Proof.
  intros Hs Hadd Hprior Hk Hb Htop Hq Hthree Hj Hin Hold Hnew.
  destruct (@add_documents_inv _ _ _ _ _ _ _ _ Hadd) as (bm & Hbm & Hw & _).
  set (data := {| bm25 := bm;
                  doc_ids := prior_ids w index_path ++ map new_id docs;
                  tokenized_corpus :=
                    prior_corpus w index_path ++ map msg_tokens docs |})
    in *.
  assert (Hp : persisted data).
  { apply persisted_intro with k1' b'; [exact Hbm|].
    rewrite !length_app, !length_map. lia. }
  destruct (@BM25Okapi_inv _ _ _ _ Hbm) as (Hk1 & Hb1 & _).
  set (idx := (List.length (prior_corpus w index_path) + j)%nat).
  assert (Hjlt : (j < List.length docs)%nat)
    by (apply nth_error_Some; congruence).
  assert (Hdoc : nth_error (tokenized_corpus data) idx
                 = Some (msg_tokens msg)).
  { cbn [data tokenized_corpus]. unfold idx.
    rewrite nth_error_app2 by lia.
    replace (_ + j - _)%nat with j by lia.
    now rewrite nth_error_map, Hj. }
  assert (Hid : nth_error (doc_ids data) idx = Some (new_id msg)).
  { cbn [data doc_ids]. unfold idx. rewrite <- Hprior.
    rewrite nth_error_app2 by lia.
    replace (_ + j - _)%nat with j by lia.
    now rewrite nth_error_map, Hj. }
  destruct (only_document_positions argsort data query tok top_k idx
              (msg_tokens msg) Hs Hp Hq Htop) as [Hpos Hpositions];
    try assumption.
  - cbn [data tokenized_corpus]. rewrite length_app, length_map. exact Hthree.
  - cbn [data bm25]. now rewrite Hk1.
  - cbn [data bm25]. now rewrite Hb1.
  - intros i d Hi Hd. cbn [data tokenized_corpus] in Hi.
    destruct (Nat.lt_ge_cases i (List.length (prior_corpus w index_path)))
      as [Hlt|Hge].
    + rewrite nth_error_app1 in Hi by exact Hlt.
      elim (Hold d (nth_error_In _ _ Hi) Hd).
    + rewrite nth_error_app2 in Hi by exact Hge.
      rewrite nth_error_map in Hi.
      destruct (nth_error docs (i - List.length (prior_corpus w index_path)))
        as [m|] eqn:Em; [|discriminate].
      injection Hi as <-. specialize (Hnew _ m Em Hd). unfold idx. lia.
  - exists (score_at (scores_of data query) idx). split; [exact Hpos|].
    now apply search_of_one_position.
Qed.

Lemma add_documents_then_search_witness :
  exists score,
    0 < score
    /\ search argsort_stable
         (fst (add_documents (indexed_world cat_docs cat_index)
                 "data/index.pkl" [doc "3" "a bird sang"] 1.2 0.75 1000))
         "data/index.pkl" "Bird?" 5
       = Ok [(PyStr "3", score)].
Proof.
  destruct (add_documents (indexed_world cat_docs cat_index)
              "data/index.pkl" [doc "3" "a bird sang"] 1.2 0.75 1000)
    as [w' r] eqn:E.
  assert (Hr : r = Ok 1%nat).
  { pose proof (f_equal snd E) as Hs. cbn [snd] in Hs. rewrite <- Hs.
    destruct (BM25Okapi_returns
                (prior_corpus (indexed_world cat_docs cat_index)
                   "data/index.pkl"
                 ++ map msg_tokens [doc "3" "a bird sang"]) 1.2 0.75 eq_refl)
      as [bm Hbm].
    destruct (@add_documents_returns (indexed_world cat_docs cat_index)
                "data/index.pkl" [doc "3" "a bird sang"] 1.2 0.75 1000 bm)
      as [err Hadd]; [discriminate | exact Hbm |].
    now rewrite Hadd. }
  subst r. cbn [fst].
  apply (add_documents_then_search argsort_stable
           (indexed_world cat_docs cat_index) w'
           "data/index.pkl" [doc "3" "a bird sang"] 1.2 0.75 1000 1
           "Bird?" "bird" 5 0 (doc "3" "a bird sang") argsort_stable_sorts
           E).
  - reflexivity.
  - lra.
  - lra.
  - lia.
  - vm_compute. reflexivity.
  - cbn. lia.
  - reflexivity.
  - vm_compute. auto.
  - intros d Hd Hin. cbn in Hd.
    destruct Hd as [<-|[<-|[]]];
      repeat (destruct Hin as [Hin|Hin]; [discriminate|]); exact Hin.
  - intros i m Hi _. destruct i as [|i]; [reflexivity|].
    destruct i; discriminate.
Defined.
